(** * PoNet pretraining data preparation: [group_texts] of run_pretrained.py

    A shallow embedding of the sentence-structure transform defined in
    [run_pretrained.py] (function [group_texts] and its nested
    [truncate_seq_pair]), and the properties of it that the natural-language
    specification states.

    Conventions of the embedding.
    - Python integers are [Z]; a token-id segment is a [list Z].
    - The module-level generator of Python's [random] is an explicit state,
      threaded through every draw (class [PRNG]).
    - A raised exception is a value [Raise e]; a [while] loop is the
      combinator [while], which runs a loop body a bounded number of times
      and answers [OutOfFuel] when the bound is hit. *)

From Stdlib Require Import List ZArith QArith Lia Bool Arith Sorted.
From Stdlib Require String Ascii.
Import String.StringSyntax Ascii.AsciiSyntax.
Delimit Scope string_scope with string.
Delimit Scope char_scope with char.
Import ListNotations.

Set Implicit Arguments.

Local Open Scope Z_scope.

(* ================================================================== *)
(** ** Exceptions and results *)

Inductive exn : Type :=
| AssertionError
| IndexError
| ValueError.

Inductive Result (A : Type) : Type :=
| Ok (a : A)
| Raise (e : exn)
| OutOfFuel.

Arguments Ok {A} a.
Arguments Raise {A} e.
Arguments OutOfFuel {A}.

Definition bind {A B : Type} (r : Result A) (k : A -> Result B) : Result B :=
  match r with
  | Ok a => k a
  | Raise e => Raise e
  | OutOfFuel => OutOfFuel
  end.

Notation "x <- e ;; k" := (bind e (fun x => k))
  (at level 61, e at next level, right associativity).
Notation "' p <- e ;; k" := (bind e (fun x => match x with p => k end))
  (at level 61, p pattern, e at next level, right associativity).

(** Python's [assert c]. *)
Definition py_assert (c : bool) : Result unit :=
  if c then Ok tt else Raise AssertionError.

(* ================================================================== *)
(** ** Loops *)

(** What one pass through a loop body decides: go round again (the body ran
    to its end, or executed [continue]) or leave the loop ([break], or the
    loop condition is false). *)
Inductive control (S R : Type) : Type :=
| Continue (s : S)
| Break (r : R).

Arguments Continue {S R} s.
Arguments Break {S R} r.

Fixpoint while {S R : Type} (fuel : nat) (body : S -> Result (control S R))
  (s : S) : Result R :=
  match fuel with
  | O => OutOfFuel
  | Datatypes.S n =>
      c <- body s ;;
      match c with
      | Continue s' => while n body s'
      | Break r => Ok r
      end
  end.

(* ================================================================== *)
(** ** Python lists *)

Definition len {A : Type} (l : list A) : Z := Z.of_nat (length l).

(** [del l[0]] *)
Definition py_del_first {A : Type} (l : list A) : Result (list A) :=
  match l with
  | [] => Raise IndexError
  | _ :: t => Ok t
  end.

(** [l.pop()], the popped value dropped *)
Definition py_pop {A : Type} (l : list A) : Result (list A) :=
  match l with
  | [] => Raise IndexError
  | _ :: _ => Ok (removelast l)
  end.

(** [l[0]] *)
Definition py_first {A : Type} (l : list A) : Result A :=
  match l with
  | [] => Raise IndexError
  | x :: _ => Ok x
  end.

(** [l[-1]] *)
Definition py_last {A : Type} (l : list A) : Result A :=
  match l with
  | [] => Raise IndexError
  | x :: t => Ok (last t x)
  end.

(** [l[i]]: a negative index counts from the end, an index outside the list
    raises [IndexError]. *)
Definition py_getitem {A : Type} (l : list A) (i : Z) : Result A :=
  let k := if 0 <=? i then i else len l + i in
  if k <? 0 then Raise IndexError
  else match nth_error l (Z.to_nat k) with
       | Some x => Ok x
       | None => Raise IndexError
       end.

(** [range(lo, hi)] *)
Definition py_range (lo hi : Z) : list Z :=
  map (fun k => lo + Z.of_nat k) (seq 0 (Z.to_nat (hi - lo))).

(** [sum(ls, [])] *)
Definition py_sum {A : Type} (ls : list (list A)) : list A :=
  fold_left (fun acc l => acc ++ l) ls [].

(** [enumerate(l)] *)
Definition enumerate {A : Type} (l : list A) : list (Z * A) :=
  combine (map Z.of_nat (seq 0 (length l))) l.

(* ================================================================== *)
(** ** The pseudo-random generator

    [random.random()] and [random.randint(a, b)] read and advance one
    module-level generator.  The embedding passes the generator state [G]
    explicitly.  A draw of [random.random()] is the exact rational value of
    the double it returns. *)

Class PRNG (G : Type) : Type := {
  random : G -> Q * G;
  randint : Z -> Z -> G -> Z * G;
  random_unit : forall g, (0 <= fst (random g))%Q /\ (fst (random g) < 1)%Q;
  randint_range : forall a b g, a <= b -> a <= fst (randint a b g) <= b
}.

(** [random.randint(a, b)] raises [ValueError] on an empty range. *)
Definition py_randint {G : Type} `{PRNG G} (a b : Z) (g : G) : Result (Z * G) :=
  if a <=? b then Ok (randint a b g) else Raise ValueError.

(** [x < y] on draws *)
Definition Qltb (x y : Q) : bool := negb (Qle_bool y x).

(** The doubles that the Python expressions [0.1], [1/3], [2/3] and [0.5]
    evaluate to, as exact rationals. *)
Definition short_seq_prob : Q := 3602879701896397 # 36028797018963968.
Definition one_third : Q := 6004799503160661 # 18014398509481984.
Definition two_thirds : Q := 6004799503160661 # 9007199254740992.
Definition one_half : Q := 1 # 2.

(* ================================================================== *)
(** ** truncate_seq_pair *)

Definition tokens := list Z.

Inductive side : Type := SideA | SideB.

Definition pick {A : Type} (s : side) (xa xb : A) : A :=
  match s with SideA => xa | SideB => xb end.

(** Writing through the alias [trunc_tokens] (or [trunc_segment_ids]) changes
    the list it is bound to and leaves the other one alone. *)
Definition put {A : Type} (s : side) (v : A) (xa xb : A) : A * A :=
  match s with SideA => (v, xb) | SideB => (xa, v) end.

(** [tokens_a if len(tokens_a) > len(tokens_b) else tokens_b] *)
Definition trunc_target {A : Type} (xa xb : list A) : side :=
  if len xa >? len xb then SideA else SideB.

Record pair_state (G : Type) : Type := mk_pair {
  ps_tokens_a : tokens;
  ps_tokens_b : tokens;
  ps_a_segment_ids : list Z;
  ps_b_segment_ids : list Z;
  ps_gen : G
}.

Section Truncate.
Context {G : Type} `{PRNG G}.

(** One pass through the body of [while True:] in [truncate_seq_pair]. *)
Definition truncate_body (max_num_tokens : Z) (s : pair_state G)
  : Result (control (pair_state G) (pair_state G)) :=
  let total_length := len (ps_tokens_a s) + len (ps_tokens_b s) in
  if total_length <=? max_num_tokens then Ok (Break s)
  else
    let tt := trunc_target (ps_tokens_a s) (ps_tokens_b s) in
    let ti := trunc_target (ps_a_segment_ids s) (ps_b_segment_ids s) in
    let trunc_tokens := pick tt (ps_tokens_a s) (ps_tokens_b s) in
    let trunc_segment_ids := pick ti (ps_a_segment_ids s) (ps_b_segment_ids s) in
    _ <- py_assert (1 <=? len trunc_tokens) ;;
    let (r, g') := random (ps_gen s) in
    ' (trunc_tokens', trunc_segment_ids') <-
      (if Qltb r one_half
       then t <- py_del_first trunc_tokens ;;
            i <- py_del_first trunc_segment_ids ;; Ok (t, i)
       else t <- py_pop trunc_tokens ;;
            i <- py_pop trunc_segment_ids ;; Ok (t, i)) ;;
    let toks := put tt trunc_tokens' (ps_tokens_a s) (ps_tokens_b s) in
    let ids :=
      put ti trunc_segment_ids' (ps_a_segment_ids s) (ps_b_segment_ids s) in
    Ok (Continue (mk_pair (fst toks) (snd toks) (fst ids) (snd ids) g')).

Definition truncate_seq_pair (fuel : nat) (tokens_a tokens_b : tokens)
  (max_num_tokens : Z) (a_segment_ids b_segment_ids : list Z) (g : G)
  : Result (pair_state G) :=
  while fuel (truncate_body max_num_tokens)
    (mk_pair tokens_a tokens_b a_segment_ids b_segment_ids g).
End Truncate.

(* ================================================================== *)
(** ** The tokenizer

    [group_texts] calls three methods of the tokenizer object it closes over.
    They belong to the transformers library; the embedding takes them as
    given. *)

Record Tokenizer : Type := mk_tokenizer {
  (** [tokenizer.num_special_tokens_to_add(pair=True)] *)
  num_special_tokens_to_add : Z;
  build_inputs_with_special_tokens : tokens -> tokens -> tokens;
  create_token_type_ids_from_sequences : tokens -> tokens -> list Z
}.

(* ================================================================== *)
(** ** The output batch

    [results] is a dict of lists that grow in parallel.  Its first four keys
    are the keys of [examples], which are the columns the tokenizer call of
    [tokenize_function] returns. *)

Record batch : Type := mk_batch {
  input_ids : list tokens;
  token_type_ids : list (list Z);
  attention_mask : list (list Z);
  special_tokens_mask : list (list Z);
  next_sentence_label : list Z;
  segment_ids : list (list Z)
}.

Definition empty_batch : batch := mk_batch [] [] [] [] [] [].

(* ================================================================== *)
(** ** First loop of a pass: [total_chunk] (lines 439-457) *)

Definition chunk := list tokens.

Record chunk_state : Type := mk_chunk_state {
  cs_i : Z;
  cs_current_chunk : chunk;
  cs_current_length : Z;
  cs_total_chunk : list chunk
}.

Definition is_empty {A : Type} (l : list A) : bool :=
  match l with [] => true | _ :: _ => false end.

Definition get_all_chunk_body (examples : list tokens) (target_seq_length : Z)
  (s : chunk_state) : Result (control chunk_state (list chunk)) :=
  let i := cs_i s in
  if i <? len examples then
    segment <- py_getitem examples i ;;
    if is_empty segment then
      Ok (Continue (mk_chunk_state (i + 1) (cs_current_chunk s)
                      (cs_current_length s) (cs_total_chunk s)))
    else
      let current_chunk := cs_current_chunk s ++ [segment] in
      let current_length := cs_current_length s + len segment in
      if (i =? len examples - 1) || (current_length >=? target_seq_length) then
        let total_chunk :=
          if is_empty current_chunk then cs_total_chunk s
          else cs_total_chunk s ++ [current_chunk] in
        Ok (Continue (mk_chunk_state (i + 1) [] 0 total_chunk))
      else
        Ok (Continue (mk_chunk_state (i + 1) current_chunk current_length
                        (cs_total_chunk s)))
  else Ok (Break (cs_total_chunk s)).

Definition get_all_chunk (fuel : nat) (examples : list tokens)
  (target_seq_length : Z) : Result (list chunk) :=
  while fuel (get_all_chunk_body examples target_seq_length)
    (mk_chunk_state 0 [] 0 []).

(* ================================================================== *)
(** ** Second loop of a pass: the instances (lines 464-556) *)

(** A loop [for j in ...: toks.extend(current_chunk[j]);
    ids.extend([j] * len(current_chunk[j]))], as the two that fill
    [tokens_a]/[a_segment_ids] and [tokens_b]/[b_segment_ids]. *)
Fixpoint extend_segments (current_chunk : chunk) (js : list Z)
  (toks : tokens) (ids : list Z) : Result (tokens * list Z) :=
  match js with
  | [] => Ok (toks, ids)
  | j :: js' =>
      seg <- py_getitem current_chunk j ;;
      extend_segments current_chunk js' (toks ++ seg)
        (ids ++ repeat j (length seg))
  end.

(** [sum([[acid]*len(ac) for acid, ac in enumerate(another_chunk)], [])] *)
Definition chunk_segment_ids (another_chunk : chunk) : list Z :=
  py_sum (map (fun p => repeat (fst p) (length (snd p))) (enumerate another_chunk)).

Definition SAME_ORDER : Z := 0.
Definition SWAPPED : Z := 1.
Definition RANDOM : Z := 2.

Record build_state (G : Type) : Type := mk_build_state {
  bs_i : Z;
  bs_current_chunk : chunk;
  bs_current_length : Z;
  bs_chunk_id : Z;
  bs_results : batch;
  bs_gen : G
}.

Section GroupTexts.
Context {G : Type} `{PRNG G}.
Variable tokenizer : Tokenizer.

(** [while True: rid = random.randint(0, len(total_chunk)-1) ...]
    (lines 508-511) *)
Definition pick_rid_body (total_chunk : list chunk) (chunk_id : Z) (g : G)
  : Result (control G (Z * G)) :=
  ' (rid, g') <- py_randint 0 (len total_chunk - 1) g ;;
  if negb (rid =? chunk_id) then Ok (Break (rid, g')) else Ok (Continue g').

Definition pick_rid (fuel : nat) (total_chunk : list chunk) (chunk_id : Z)
  (g : G) : Result (Z * G) :=
  while fuel (pick_rid_body total_chunk chunk_id) g.

(** The three-way choice on [rdn] (lines 502-516).  The result is
    [is_next] and the pair as it stands after the branch taken. *)
Definition sample_relation (fuel : nat) (rdn : Q) (total_chunk : list chunk)
  (chunk_id : Z) (p : pair_state G) : Result (Z * pair_state G) :=
  if Qltb rdn one_third then
    Ok (SWAPPED,
        mk_pair (ps_tokens_b p) (ps_tokens_a p) (ps_b_segment_ids p) (ps_a_segment_ids p)
          (ps_gen p))
  else if Qltb rdn two_thirds && (len total_chunk >? 1) then
    ' (rid, g') <- pick_rid fuel total_chunk chunk_id (ps_gen p) ;;
    another_chunk <- py_getitem total_chunk rid ;;
    Ok (RANDOM,
        mk_pair (ps_tokens_a p) (py_sum another_chunk) (ps_a_segment_ids p)
          (chunk_segment_ids another_chunk) g')
  else Ok (SAME_ORDER, p).

(** Lines 538-553: the instance built from the truncated pair, appended to
    every list of [results].  Indexing an empty id list with [0] or [-1]
    raises [IndexError]. *)
Definition emit (results : batch) (is_next : Z) (p : pair_state G)
  : Result batch :=
  let ids := build_inputs_with_special_tokens tokenizer (ps_tokens_a p) (ps_tokens_b p) in
  let type_ids :=
    create_token_type_ids_from_sequences tokenizer (ps_tokens_a p) (ps_tokens_b p) in
  let mask := repeat 1 (length ids) in
  _ <- py_assert (len (ps_tokens_a p) >=? 1) ;;
  _ <- py_assert (len (ps_tokens_b p) >=? 1) ;;
  let special :=
    [1] ++ repeat 0 (length (ps_tokens_a p)) ++ [1]
        ++ repeat 0 (length (ps_tokens_b p)) ++ [1] in
  a0 <- py_first (ps_a_segment_ids p) ;;
  let a_ids := map (fun asi => asi - a0 + 1) (ps_a_segment_ids p) in
  b0 <- py_first (ps_b_segment_ids p) ;;
  a_last <- py_last a_ids ;;
  let b_ids := map (fun bsi => bsi - b0 + a_last + 2) (ps_b_segment_ids p) in
  b_last <- py_last b_ids ;;
  Ok (mk_batch
        (input_ids results ++ [ids])
        (token_type_ids results ++ [type_ids])
        (attention_mask results ++ [mask])
        (special_tokens_mask results ++ [special])
        (next_sentence_label results ++ [is_next])
        (segment_ids results
           ++ [[0] ++ a_ids ++ [a_last + 1] ++ b_ids ++ [b_last + 1]])).

(** Lines 480-483: [a_end], how many segments of [current_chunk] go into the
    first sentence. *)
Definition choose_a_end (current_chunk : chunk) (g : G) : Result (Z * G) :=
  if len current_chunk >=? 2
  then py_randint 1 (len current_chunk - 1) g
  else Ok (1, g).

(** Lines 485-496: [tokens_a], [a_segment_ids], [tokens_b],
    [b_segment_ids]. *)
Definition split_chunk (current_chunk : chunk) (a_end : Z)
  : Result (tokens * list Z * (tokens * list Z)) :=
  a <- extend_segments current_chunk (py_range 0 a_end) [] [] ;;
  b <- extend_segments current_chunk (py_range a_end (len current_chunk)) [] [] ;;
  Ok (a, b).

(** One pass through the body of the second [while i < len(examples[fk]):]. *)
Definition build_body (fuel : nat) (examples : list tokens)
  (max_num_tokens target_seq_length : Z) (total_chunk : list chunk)
  (s : build_state G) : Result (control (build_state G) (build_state G)) :=
  let i := bs_i s in
  if i <? len examples then
    segment <- py_getitem examples i ;;
    if is_empty segment then
      Ok (Continue (mk_build_state (i + 1) (bs_current_chunk s)
                      (bs_current_length s) (bs_chunk_id s) (bs_results s)
                      (bs_gen s)))
    else
      let current_chunk := bs_current_chunk s ++ [segment] in
      let current_length := bs_current_length s + len segment in
      if (i =? len examples - 1) || (current_length >=? target_seq_length) then
        if is_empty current_chunk then
          Ok (Continue (mk_build_state (i + 1) [] 0 (bs_chunk_id s)
                          (bs_results s) (bs_gen s)))
        else
          let chunk_id := bs_chunk_id s + 1 in
          ' (a_end, g1) <- choose_a_end current_chunk (bs_gen s) ;;
          ' (tokens_a, a_segment_ids, (tokens_b, b_segment_ids)) <-
            split_chunk current_chunk a_end ;;
          if (len tokens_a =? 0) || (len tokens_b =? 0) then
            (* [continue]: neither the reset of the buffer nor [i += 1]
               is reached *)
            Ok (Continue (mk_build_state i current_chunk current_length
                            chunk_id (bs_results s) g1))
          else
            let (rdn, g2) := random g1 in
            ' (is_next, p) <-
              sample_relation fuel rdn total_chunk chunk_id
                (mk_pair tokens_a tokens_b a_segment_ids b_segment_ids g2) ;;
            p' <- truncate_seq_pair fuel (ps_tokens_a p) (ps_tokens_b p)
                    max_num_tokens (ps_a_segment_ids p) (ps_b_segment_ids p)
                    (ps_gen p) ;;
            results <- emit (bs_results s) is_next p' ;;
            Ok (Continue (mk_build_state (i + 1) [] 0 chunk_id results
                            (ps_gen p')))
      else
        Ok (Continue (mk_build_state (i + 1) current_chunk current_length
                        (bs_chunk_id s) (bs_results s) (bs_gen s)))
  else Ok (Break s).

Definition build_instances (fuel : nat) (examples : list tokens)
  (max_num_tokens target_seq_length : Z) (total_chunk : list chunk)
  (results : batch) (g : G) : Result (batch * G) :=
  s <- while fuel
         (build_body fuel examples max_num_tokens target_seq_length total_chunk)
         (mk_build_state 0 [] 0 (-1) results g) ;;
  Ok (bs_results s, bs_gen s).

(** Lines 434-436 *)
Definition sample_target (max_num_tokens : Z) (g : G) : Result (Z * G) :=
  let (r, g1) := random g in
  if Qltb r short_seq_prob then py_randint 2 max_num_tokens g1
  else Ok (max_num_tokens, g1).

(** The body of [for _ in range(data_args.dupe_factor):] *)
Definition group_pass (fuel : nat) (max_seq_length : Z)
  (examples : list tokens) (results : batch) (g : G) : Result (batch * G) :=
  let max_num_tokens :=
    max_seq_length - num_special_tokens_to_add tokenizer in
  ' (target_seq_length, g1) <- sample_target max_num_tokens g ;;
  total_chunk <- get_all_chunk fuel examples target_seq_length ;;
  build_instances fuel examples max_num_tokens target_seq_length total_chunk
    results g1.

Fixpoint repeat_pass (n : nat) (fuel : nat) (max_seq_length : Z)
  (examples : list tokens) (results : batch) (g : G) : Result (batch * G) :=
  match n with
  | O => Ok (results, g)
  | Datatypes.S n' =>
      ' (results', g') <- group_pass fuel max_seq_length examples results g ;;
      repeat_pass n' fuel max_seq_length examples results' g'
  end.

Definition group_texts (fuel : nat) (max_seq_length dupe_factor : Z)
  (examples : list tokens) (g : G) : Result (batch * G) :=
  repeat_pass (Z.to_nat dupe_factor) fuel max_seq_length examples
    empty_batch g.
End GroupTexts.

(* ================================================================== *)
(** ** [max_seq_length] (lines 357-371 of [main])

    [data_args.max_seq_length] is [None] or an integer; [model_max_length] is
    the tokenizer's.  The warnings logged on the way change nothing. *)


(* ================================================================== *)
(** ** [DataTrainingArguments.__post_init__] (lines 186-195)

    Of the fields of the dataclass the method reads [dataset_name],
    [train_file] and [validation_file], each [None] or a string. *)

(** [s.split(sep)] for a separator of one character: the pieces between the
    occurrences of [sep], of which there is always at least one. *)
Fixpoint py_split (sep : Ascii.ascii) (s : String.string) : list String.string :=
  match s with
  | String.EmptyString => [String.EmptyString]
  | String.String c rest =>
      if Ascii.eqb c sep then String.EmptyString :: py_split sep rest
      else match py_split sep rest with
           | [] => [String.String c String.EmptyString]
           | piece :: pieces => String.String c piece :: pieces
           end
  end.

(** [path.split(".")[-1]] *)
Definition extension (path : String.string) : String.string :=
  last (py_split "."%char path) String.EmptyString.

(** [extension in ["csv", "json", "txt"]] *)
Definition allowed_extension (ext : String.string) : bool :=
  existsb (String.eqb ext) ["csv"%string; "json"%string; "txt"%string].

Definition check_file (file : option String.string) : Result unit :=
  match file with
  | None => Ok tt
  | Some path => py_assert (allowed_extension (extension path))
  end.

Definition post_init (dataset_name train_file validation_file : option String.string)
  : Result unit :=
  match dataset_name, train_file, validation_file with
  | None, None, None => Raise ValueError
  | _, _, _ =>
      _ <- check_file train_file ;;
      check_file validation_file
  end.

(* ================================================================== *)
(** ** The files to load (lines 279-288 of [main])

    Without a dataset name [main] loads the files given: [data_files] maps
    ["train"] and ["validation"] to those that are not [None], and the
    builder is named after the extension of [train_file], with [text] for
    [txt].  [data_args.train_file.split] raises [AttributeError] on [None],
    which is the result [None] here. *)

Definition data_files (train_file validation_file : option String.string)
  : list (String.string * String.string) :=
  (match train_file with Some path => [("train"%string, path)] | None => [] end)
  ++ (match validation_file with
      | Some path => [("validation"%string, path)]
      | None => []
      end).

Definition load_arguments (train_file validation_file : option String.string)
  : option (String.string * list (String.string * String.string)) :=
  let data_files := data_files train_file validation_file in
  match train_file with
  | None => None
  | Some path =>
      let extension := extension path in
      let extension :=
        if String.eqb extension "txt"%string then "text"%string else extension in
      Some (extension, data_files)
  end.

(* ================================================================== *)
(** * Vocabulary of the statements *)

(** What the two branches of [if random.random() < 0.5] do to a list:
    [del l[0]] or [l.pop()]. *)
Definition drop_end {A : Type} (front : bool) (l : list A) : list A :=
  if front then tl l else removelast l.

(** The double that the Python literal [0.9] denotes. *)
Definition r_09 : Q := 8106479329266893 # 9007199254740992.

(** Every element is at most every later one. *)
Definition nondecreasing (l : list Z) : Prop := StronglySorted Z.le l.

Section PairPredicates.
Context {G : Type}.

Definition total_length (s : pair_state G) : nat :=
  (length (ps_tokens_a s) + length (ps_tokens_b s))%nat.

Definition both_nonempty (s : pair_state G) : Prop :=
  ps_tokens_a s <> [] /\ ps_tokens_b s <> [].

(** Each id list is as long as its token list. *)
Definition aligned (s : pair_state G) : Prop :=
  length (ps_a_segment_ids s) = length (ps_tokens_a s)
  /\ length (ps_b_segment_ids s) = length (ps_tokens_b s).

Definition ids_nondecreasing (p : pair_state G) : Prop :=
  nondecreasing (ps_a_segment_ids p) /\ nondecreasing (ps_b_segment_ids p).
End PairPredicates.

Section EmissionPredicate.
Context {G : Type} `{PRNG G}.
Variable tokenizer : Tokenizer.
Variables (fuel : nat) (max_num_tokens : Z) (total_chunk : list chunk).

(** An emission: [results'] is [results] with one instance appended, namely
    the one built from some chunk by the split, the relation sampler and the
    truncation. *)
Definition emission (results results' : batch) : Prop :=
  exists (current_chunk : chunk) (a_end : Z) (ta tb : tokens) (sa sb : list Z)
         (rdn : Q) (g2 : G) (chunk_id is_next : Z) (p p' : pair_state G),
    split_chunk current_chunk a_end = Ok (ta, sa, (tb, sb))
    /\ sample_relation fuel rdn total_chunk chunk_id (mk_pair ta tb sa sb g2)
       = Ok (is_next, p)
    /\ truncate_seq_pair fuel (ps_tokens_a p) (ps_tokens_b p) max_num_tokens
         (ps_a_segment_ids p) (ps_b_segment_ids p) (ps_gen p) = Ok p'
    /\ emit tokenizer results is_next p' = Ok results'.

End EmissionPredicate.

(** The segment-id formula in the specification's words: with [a] and [b]
    the origin ids of the two halves, [a' = a - a[0] + 1],
    [b' = b - b[0] + a'[-1] + 2], and the sequence is
    [[0] + a' + [a'[-1]+1] + b' + [b'[-1]+1]]. *)
Definition renumbered_a (a : list Z) : list Z :=
  map (fun x => x - hd 0 a + 1) a.

Definition renumbered_b (a b : list Z) : list Z :=
  map (fun x => x - hd 0 b + last (renumbered_a a) 0 + 2) b.

Definition spec_segment_ids (a b : list Z) : list Z :=
  [0] ++ renumbered_a a ++ [last (renumbered_a a) 0 + 1]
      ++ renumbered_b a b ++ [last (renumbered_b a b) 0 + 1].

(** What C6 asks of an emitted segment-id sequence: it is the renumbering of
    two non-empty origin-id lists [a] and [b], it is non-decreasing, and each
    sentinel is above every id of the half it closes. *)
Definition segment_ids_ok (l : list Z) : Prop :=
  exists a b : list Z,
    a <> [] /\ b <> []
    /\ l = spec_segment_ids a b
    /\ nondecreasing l
    /\ Forall (fun x => x < last (renumbered_a a) 0 + 1) (renumbered_a a)
    /\ Forall (fun x => x < last (renumbered_b a b) 0 + 1) (renumbered_b a b).

(** Two results agree: both are values related by [P], or both raise the same
    exception, or both ran out of fuel. *)
Definition result_rel {A B : Type} (P : A -> B -> Prop)
  (r1 : Result A) (r2 : Result B) : Prop :=
  match r1, r2 with
  | Ok a, Ok b => P a b
  | Raise e1, Raise e2 => e1 = e2
  | OutOfFuel, OutOfFuel => True
  | _, _ => False
  end.

Definition control_rel {S1 S2 R1 R2 : Type} (PS : S1 -> S2 -> Prop)
  (PR : R1 -> R2 -> Prop) (c1 : control S1 R1) (c2 : control S2 R2) : Prop :=
  match c1, c2 with
  | Continue s1, Continue s2 => PS s1 s2
  | Break r1, Break r2 => PR r1 r2
  | _, _ => False
  end.

Section GeneratorRelations.
Context {G1 G2 : Type}.

(** [R] relates states of two generators. *)
Variable R : G1 -> G2 -> Prop.

Definition with_gen {A : Type} (x1 : A * G1) (x2 : A * G2) : Prop :=
  fst x1 = fst x2 /\ R (snd x1) (snd x2).

Definition pair_rel (p1 : pair_state G1) (p2 : pair_state G2) : Prop :=
  ps_tokens_a p1 = ps_tokens_a p2 /\ ps_tokens_b p1 = ps_tokens_b p2
  /\ ps_a_segment_ids p1 = ps_a_segment_ids p2
  /\ ps_b_segment_ids p1 = ps_b_segment_ids p2
  /\ R (ps_gen p1) (ps_gen p2).

Definition build_rel (s1 : build_state G1) (s2 : build_state G2) : Prop :=
  bs_i s1 = bs_i s2 /\ bs_current_chunk s1 = bs_current_chunk s2
  /\ bs_current_length s1 = bs_current_length s2
  /\ bs_chunk_id s1 = bs_chunk_id s2
  /\ bs_results s1 = bs_results s2
  /\ R (bs_gen s1) (bs_gen s2).

End GeneratorRelations.

(** The origin ids of the tokens of the segments [segs], the first segment
    having the index [k]. *)
Definition ids_from (k : nat) (segs : list tokens) : list Z :=
  concat (map (fun p => repeat (fst p) (length (snd p)))
            (combine (map Z.of_nat (seq k (length segs))) segs)).

(** [if segment:] *)
Definition nonempty (seg : tokens) : bool := negb (is_empty seg).

(** The number of tokens of a list of segments. *)
Definition total_tokens (segs : list tokens) : Z := len (concat segs).

(** What holds whenever the chunking loop is at its head. *)
Definition chunking_inv (examples : list tokens) (target : Z)
  (s : chunk_state) : Prop :=
  0 <= cs_i s <= len examples
  /\ filter nonempty (firstn (Z.to_nat (cs_i s)) examples)
     = concat (cs_total_chunk s) ++ cs_current_chunk s
  /\ cs_current_length s = total_tokens (cs_current_chunk s)
  /\ (cs_current_chunk s = [] \/ total_tokens (cs_current_chunk s) < target)
  /\ (cs_i s = len examples -> last examples [] <> [] -> cs_current_chunk s = [])
  /\ (0 < target ->
      Forall (fun c => total_tokens (removelast c) < target) (cs_total_chunk s))
  /\ (cs_i s < len examples ->
      Forall (fun c => target <= total_tokens c) (cs_total_chunk s))
  /\ Forall (fun c => target <= total_tokens c) (removelast (cs_total_chunk s)).

(** [l'] is a contiguous run of [l], and [i'] is the run of [i] at the same
    two positions. *)
Definition same_cut (l l' : tokens) (i i' : list Z) : Prop :=
  exists (pre suf : tokens) (pre' suf' : list Z),
    l = pre ++ l' ++ suf /\ i = pre' ++ i' ++ suf'
    /\ length pre' = length pre /\ length suf' = length suf.

(** [special_tokens_mask] of an instance, line 549. *)
Definition special_mask (a b : tokens) : list Z :=
  [1] ++ repeat 0 (length a) ++ [1] ++ repeat 0 (length b) ++ [1].

(** The batch holds one instance for each pair (A, B) of [pairs], in their
    order: the four columns computed from A and B are what lines 538-549
    compute, and there is a label and a segment-id list, as long as the
    instance, for each. *)
Definition batch_of_pairs (tokenizer : Tokenizer) (pairs : list (tokens * tokens))
  (b : batch) : Prop :=
  input_ids b
  = map (fun ab => build_inputs_with_special_tokens tokenizer (fst ab) (snd ab)) pairs
  /\ token_type_ids b
     = map (fun ab => create_token_type_ids_from_sequences tokenizer (fst ab) (snd ab))
         pairs
  /\ attention_mask b
     = map (fun ab => repeat 1 (length (build_inputs_with_special_tokens tokenizer
                                          (fst ab) (snd ab)))) pairs
  /\ special_tokens_mask b = map (fun ab => special_mask (fst ab) (snd ab)) pairs
  /\ length (next_sentence_label b) = length pairs
  /\ Forall2 (fun ab ids => length ids = length (special_mask (fst ab) (snd ab)))
       pairs (segment_ids b).

(** Both halves hold a token and together they fit the budget. *)
Definition pair_in_budget (max_num_tokens : Z) (ab : tokens * tokens) : Prop :=
  fst ab <> [] /\ snd ab <> [] /\ len (fst ab) + len (snd ab) <= max_num_tokens.

Definition is_label (l : Z) : Prop := l = SAME_ORDER \/ l = SWAPPED \/ l = RANDOM.

(** [path] is one of the three extensions itself, or ends in a dot followed
    by one of them. *)
Definition has_allowed_suffix (path : String.string) : Prop :=
  exists ext, In ext ["csv"%string; "json"%string; "txt"%string]
    /\ (path = ext \/ exists stem, path = String.append stem (String.String "."%char ext)).

Definition file_accepted (file : option String.string) : Prop :=
  match file with
  | None => True
  | Some path => has_allowed_suffix path
  end.

(** No character of [s] is [c]. *)
Fixpoint free_of (c : Ascii.ascii) (s : String.string) : Prop :=
  match s with
  | String.EmptyString => True
  | String.String d rest => d <> c /\ free_of c rest
  end.

(** Chunks as the chunking loop builds them: none is empty and none holds an
    empty segment. *)
Definition good_chunks (total_chunk : list chunk) : Prop :=
  Forall (fun c : chunk => c <> [] /\ Forall (fun seg : tokens => seg <> []) c)
    total_chunk.

(** The number of times the test [i == len(examples[fk]) - 1 or
    current_length >= target_seq_length] succeeds on a non-empty segment from
    [examples] on, the running length being reset at each success: both
    loops of a pass go through the segments with this test. *)
Fixpoint flushes (target : Z) (examples : list tokens) (current_length : Z) : nat :=
  match examples with
  | [] => 0
  | seg :: rest =>
      if is_empty seg then flushes target rest current_length
      else if is_empty rest || (current_length + len seg >=? target)
           then S (flushes target rest 0)
           else flushes target rest (current_length + len seg)
  end.

(** The number of instances of a batch. *)
Definition rows (results : batch) : nat := length (input_ids results).

(** The rows of [input_ids] are assembled from pairs (A, B) that hold only
    tokens of [examples]. *)
Definition pairs_from (tokenizer : Tokenizer) (examples : list tokens) (r : batch)
  : Prop :=
  exists pairs : list (tokens * tokens),
    input_ids r
    = map (fun ab => build_inputs_with_special_tokens tokenizer (fst ab) (snd ab)) pairs
    /\ Forall (fun ab => incl (fst ab) (concat examples)
                         /\ incl (snd ab) (concat examples)) pairs.

(** At the head of the instance loop: either the buffer waits for the
    segment at [i], or the pass before ended in [continue] and the buffer
    already holds that segment, with a test that will succeed again. *)
Definition counting_inv {G : Type} (examples : list tokens) (target : Z) (K : nat)
  (s : build_state G) : Prop :=
  0 <= bs_i s
  /\ Forall (fun x : tokens => x <> []) (bs_current_chunk s)
  /\ ((rows (bs_results s)
       + flushes target (skipn (Z.to_nat (bs_i s)) examples) (bs_current_length s))%nat
      = K
      \/ (bs_current_chunk s <> []
          /\ (exists seg, nth_error examples (Z.to_nat (bs_i s)) = Some seg /\ seg <> [])
          /\ (bs_i s = len examples - 1 \/ target <= bs_current_length s)
          /\ (rows (bs_results s) + 1
              + flushes target (skipn (Z.to_nat (bs_i s + 1)) examples) 0)%nat = K)).

(** At the head of the instance loop the buffer holds no more tokens than
    the batch; it is followed by the segments from [i] on, or, after a
    [continue], ends with the segment at [i]. *)
Definition running_inv {G : Type} (examples : list tokens) (target : Z)
  (s : build_state G) : Prop :=
  0 <= bs_i s
  /\ Forall (fun x : tokens => x <> []) (bs_current_chunk s)
  /\ (length (concat (bs_current_chunk s)) <= length (concat examples))%nat
  /\ ((length (concat (bs_current_chunk s))
       + length (concat (skipn (Z.to_nat (bs_i s)) examples))
       <= length (concat examples))%nat
      \/ (bs_current_chunk s <> []
          /\ (bs_i s = len examples - 1 \/ target <= bs_current_length s))).

(** Two passes at most for each segment. *)
Definition passes_left {G : Type} (examples : list tokens) (s : build_state G) : nat :=
  (2 * Z.to_nat (len examples - bs_i s)
   + (if is_empty (bs_current_chunk s) then 1 else 0))%nat.

(* ================================================================== *)
(** ** A generator that replays a script

    For running the transform on concrete inputs: the state is the list of raw
    draws still to come.  [random] scales a raw draw to the 53-bit grid of
    [0, 1); [randint a b] reduces it into [a .. b].  An exhausted script
    draws 0. *)

Module Script.
Definition two53 : Z := 9007199254740992.

Definition raw (g : list Z) : Z := match g with [] => 0 | k :: _ => k end.

Definition script_random (g : list Z) : Q * list Z :=
  (Z.modulo (raw g) two53 # 9007199254740992, tl g).

Definition script_randint (a b : Z) (g : list Z) : Z * list Z :=
  (a + Z.modulo (raw g) (b - a + 1), tl g).

Lemma script_random_unit (g : list Z) :
  (0 <= fst (script_random g))%Q /\ (fst (script_random g) < 1)%Q.
Proof.
  unfold script_random, Qle, Qlt; cbn [fst Qnum Qden].
  pose proof (Z.mod_pos_bound (raw g) two53 eq_refl) as Hb.
  unfold two53 in *. split; lia.
Qed.

Lemma script_randint_range (a b : Z) (g : list Z) :
  a <= b -> a <= fst (script_randint a b g) <= b.
Proof.
  intros Hab. unfold script_randint; cbn [fst].
  pose proof (Z.mod_pos_bound (raw g) (b - a + 1)). lia.
Qed.

#[global] Instance script_prng : PRNG (list Z) := {
  random := script_random;
  randint := script_randint;
  random_unit := script_random_unit;
  randint_range := script_randint_range
}.

(** The raw draws that [random] turns into the doubles 0.9 and 0.5, and
    one that it turns into a value below 0.1. *)
Definition draw_09 : Z := 8106479329266893.
Definition draw_05 : Z := 4503599627370496.
Definition draw_low : Z := 450359962737049.
End Script.

(* ================================================================== *)
(** ** A generator that counts

    The state is the number of draws made so far, and a draw is read off it.
    Two consecutive [randint] draws over two values or more differ, so that
    the rejection loop of [pick_rid] ends after two draws at most. *)

Module Counter.
Definition counter_random (n : Z) : Q * Z :=
  (Z.modulo n Script.two53 # 9007199254740992, n + 1).

Definition counter_randint (a b : Z) (n : Z) : Z * Z :=
  (a + Z.modulo n (b - a + 1), n + 1).

Lemma counter_random_unit (n : Z) :
  (0 <= fst (counter_random n))%Q /\ (fst (counter_random n) < 1)%Q.
Proof.
  unfold counter_random, Qle, Qlt; cbn [fst Qnum Qden].
  pose proof (Z.mod_pos_bound n Script.two53 eq_refl) as Hb.
  unfold Script.two53 in *. split; lia.
Qed.

Lemma counter_randint_range (a b : Z) (n : Z) :
  a <= b -> a <= fst (counter_randint a b n) <= b.
Proof.
  intros Hab. unfold counter_randint; cbn [fst].
  pose proof (Z.mod_pos_bound n (b - a + 1)). lia.
Qed.

#[global] Instance counter_prng : PRNG Z := {
  random := counter_random;
  randint := counter_randint;
  random_unit := counter_random_unit;
  randint_range := counter_randint_range
}.
End Counter.

(** Modelled from the spec: the tokenizer's pair assembly, which is library
    code outside this repository.  [[START] A [SEP] B [SEP]] with type ids 0
    over A and its two boundary tokens and 1 over B and the closing one; three
    special tokens are added to a pair. *)
Definition pair_tokenizer (cls sep : Z) : Tokenizer :=
  mk_tokenizer 3
    (fun a b => [cls] ++ a ++ [sep] ++ b ++ [sep])
    (fun a b => repeat 0 (length a + 2) ++ repeat 1 (length b + 1)).

(* ================================================================== *)
(** * Properties *)

(** ** Results and loops *)

Lemma bind_Ok {A B : Type} (r : Result A) (k : A -> Result B) (b : B) :
  bind r k = Ok b -> exists a, r = Ok a /\ k a = Ok b.
Proof.
  destruct r as [a | e | ]; cbn; intros Hk; try discriminate.
  exists a; split; [reflexivity | exact Hk].
Qed.

Lemma bind_not_fuel {A B : Type} (r : Result A) (k : A -> Result B) :
  r <> OutOfFuel -> (forall a, r = Ok a -> k a <> OutOfFuel) ->
  bind r k <> OutOfFuel.
Proof.
  destruct r as [a | e | ]; cbn; intros Hr Hk.
  - apply Hk; reflexivity.
  - discriminate.
  - contradiction.
Qed.

Section WhileRules.
Variables S R : Type.
Variable body : S -> Result (control S R).

(** Partial correctness: an invariant of the body, with the postcondition
    established where the body leaves the loop. *)
Lemma while_ind (I : S -> Prop) (P : R -> Prop) :
  (forall s s', I s -> body s = Ok (Continue s') -> I s') ->
  (forall s r, I s -> body s = Ok (Break r) -> P r) ->
  forall fuel s r, I s -> while fuel body s = Ok r -> P r.
Proof.
  intros Hstep Hexit fuel.
  induction fuel as [| n IH]; intros s r Hs Hrun; cbn in Hrun.
  - discriminate.
  - apply bind_Ok in Hrun. destruct Hrun as [c [Hc Hrest]].
    destruct c as [s' | r'].
    + apply (IH s'); [eapply Hstep; eassumption | exact Hrest].
    + injection Hrest as <-. eapply Hexit; eassumption.
Qed.

(** An exception that no pass of the body raises is not raised by the
    loop. *)
Lemma while_no_raise (I : S -> Prop) (e : exn) :
  (forall s s', I s -> body s = Ok (Continue s') -> I s') ->
  (forall s, I s -> body s <> Raise e) ->
  forall fuel s, I s -> while fuel body s <> Raise e.
Proof.
  intros Hstep Hsafe fuel.
  induction fuel as [| n IH]; intros s Hs; cbn.
  - discriminate.
  - specialize (Hsafe s Hs). specialize (Hstep s).
    destruct (body s) as [[s' | r] | e' | ]; cbn.
    + apply IH. apply Hstep; [exact Hs | reflexivity].
    + discriminate.
    + congruence.
    + discriminate.
Qed.

(** Total correctness: a measure that every further pass decreases bounds
    the number of passes. *)
Lemma while_terminates (I : S -> Prop) (m : S -> nat) :
  (forall s, I s -> body s <> OutOfFuel) ->
  (forall s s', I s -> body s = Ok (Continue s') -> I s' /\ (m s' < m s)%nat) ->
  forall fuel s, I s -> (m s < fuel)%nat -> while fuel body s <> OutOfFuel.
Proof.
  intros Hbody Hstep fuel.
  induction fuel as [| n IH]; intros s Hs Hm; cbn.
  - lia.
  - apply bind_not_fuel; [apply Hbody; exact Hs |].
    intros [s' | r] Hc.
    + destruct (Hstep s s' Hs Hc) as [Hs' Hlt]. apply IH; [exact Hs' | lia].
    + discriminate.
Qed.

(** A run that ended is not changed by more fuel. *)
Lemma while_mono (n m : nat) (s : S) :
  (n <= m)%nat -> while n body s <> OutOfFuel ->
  while m body s = while n body s.
Proof.
  revert m s. induction n as [| n IH]; intros m s Hle Hrun; cbn in *.
  - congruence.
  - destruct m as [| m]; [lia |]. cbn.
    destruct (body s) as [[s' | r] | e | ]; cbn in *; try reflexivity.
    apply IH; [lia | exact Hrun].
Qed.
End WhileRules.

(** ** Python lists *)

Lemma len_nonneg {A : Type} (l : list A) : 0 <= len l.
Proof. unfold len; lia. Qed.

Lemma len_nil_iff {A : Type} (l : list A) : len l = 0 <-> l = [].
Proof.
  unfold len; split; intros Hl.
  - destruct l; [reflexivity | cbn in Hl; lia].
  - subst; reflexivity.
Qed.

Lemma length_removelast {A : Type} (l : list A) :
  l <> [] -> (length (removelast l) + 1 = length l)%nat.
Proof.
  intros Hl. destruct (exists_last Hl) as [l' [x ->]].
  rewrite removelast_last, length_app. reflexivity.
Qed.

Lemma py_sum_concat {A : Type} (ls : list (list A)) : py_sum ls = concat ls.
Proof.
  unfold py_sum.
  assert (Hgen : forall acc, fold_left (fun a l => a ++ l) ls acc = acc ++ concat ls).
  { induction ls as [| l ls IH]; intros acc; cbn.
    - rewrite app_nil_r; reflexivity.
    - rewrite IH, app_assoc; reflexivity. }
  apply (Hgen []).
Qed.

(** ** truncate_seq_pair *)

Lemma length_drop_end {A : Type} (front : bool) (l : list A) :
  l <> [] -> (length (drop_end front l) + 1 = length l)%nat.
Proof.
  intros Hl. destruct front; cbn.
  - destruct l; [contradiction | cbn; lia].
  - apply length_removelast; exact Hl.
Qed.

Lemma trunc_target_nonempty {A : Type} (xa xb : list A) :
  0 < len xa + len xb -> pick (trunc_target xa xb) xa xb <> [].
Proof.
  unfold trunc_target. intros Hpos.
  destruct (len xa >? len xb) eqn:Hcmp; cbn; intros Hnil;
    apply len_nil_iff in Hnil; pose proof (len_nonneg xa); pose proof (len_nonneg xb); lia.
Qed.

Section TruncateProps.
Context {G : Type} `{PRNG G}.

Lemma truncate_body_break (max_num_tokens : Z) (s r : pair_state G) :
  truncate_body max_num_tokens s = Ok (Break r) ->
  r = s /\ len (ps_tokens_a s) + len (ps_tokens_b s) <= max_num_tokens.
Proof.
  unfold truncate_body.
  destruct (len (ps_tokens_a s) + len (ps_tokens_b s) <=? max_num_tokens) eqn:Hle.
  - intros Hb. injection Hb as <-. split; [reflexivity | lia].
  - intros Hb. exfalso.
    destruct (py_assert _); cbn in Hb; try discriminate.
    destruct (random (ps_gen s)) as [r0 g'].
    destruct (Qltb r0 one_half);
      [ destruct (py_del_first (pick _ (ps_tokens_a s) (ps_tokens_b s)));
        cbn in Hb; try discriminate;
        destruct (py_del_first (pick _ (ps_a_segment_ids s) (ps_b_segment_ids s)))
      | destruct (py_pop (pick _ (ps_tokens_a s) (ps_tokens_b s)));
        cbn in Hb; try discriminate;
        destruct (py_pop (pick _ (ps_a_segment_ids s) (ps_b_segment_ids s))) ];
      cbn in Hb; discriminate.
Qed.

(** A pass that goes round again has removed one element, at the front when
    the draw is below 0.5 and at the back otherwise, from the list
    [trunc_tokens] is bound to and from the list [trunc_segment_ids] is
    bound to. *)
Lemma truncate_body_continue (max_num_tokens : Z) (s s' : pair_state G) :
  truncate_body max_num_tokens s = Ok (Continue s') ->
  let tt := trunc_target (ps_tokens_a s) (ps_tokens_b s) in
  let ti := trunc_target (ps_a_segment_ids s) (ps_b_segment_ids s) in
  let front := Qltb (fst (random (ps_gen s))) one_half in
  max_num_tokens < len (ps_tokens_a s) + len (ps_tokens_b s)
  /\ pick tt (ps_tokens_a s) (ps_tokens_b s) <> []
  /\ pick ti (ps_a_segment_ids s) (ps_b_segment_ids s) <> []
  /\ (ps_tokens_a s', ps_tokens_b s')
     = put tt (drop_end front (pick tt (ps_tokens_a s) (ps_tokens_b s)))
         (ps_tokens_a s) (ps_tokens_b s)
  /\ (ps_a_segment_ids s', ps_b_segment_ids s')
     = put ti (drop_end front (pick ti (ps_a_segment_ids s) (ps_b_segment_ids s)))
         (ps_a_segment_ids s) (ps_b_segment_ids s)
  /\ ps_gen s' = snd (random (ps_gen s)).
Proof.
  unfold truncate_body. intros Hc; cbn zeta.
  destruct (len (ps_tokens_a s) + len (ps_tokens_b s) <=? max_num_tokens) eqn:Hle;
    [discriminate |].
  apply Z.leb_gt in Hle.
  set (tt := trunc_target (ps_tokens_a s) (ps_tokens_b s)) in *.
  set (ti := trunc_target (ps_a_segment_ids s) (ps_b_segment_ids s)) in *.
  destruct (py_assert _); cbn in Hc; try discriminate.
  destruct (random (ps_gen s)) as [r0 g']; cbn [fst snd].
  destruct (Qltb r0 one_half); cbn [drop_end];
    destruct (pick tt (ps_tokens_a s) (ps_tokens_b s)) as [| t0 tq] eqn:Ht;
    cbn in Hc; try discriminate;
    destruct (pick ti (ps_a_segment_ids s) (ps_b_segment_ids s)) as [| i0 iq] eqn:Hi;
    cbn in Hc; try discriminate;
    destruct tt, ti; cbn in Hc |- *; injection Hc as <-; cbn;
    repeat split; try discriminate; try lia.
Qed.
End TruncateProps.

Section TruncateLoop.
Context {G : Type} `{PRNG G}.

Lemma truncate_body_not_fuel (max_num_tokens : Z) (s : pair_state G) :
  truncate_body max_num_tokens s <> OutOfFuel.
Proof.
  unfold truncate_body.
  destruct (_ <=? max_num_tokens); [discriminate |].
  destruct (py_assert _) eqn:Ha; cbn;
    [| discriminate | unfold py_assert in Ha; destruct (1 <=? _); discriminate].
  destruct (random (ps_gen s)) as [r0 g'].
  destruct (Qltb r0 one_half);
    destruct (pick _ (ps_tokens_a s) (ps_tokens_b s)); cbn; try discriminate;
    destruct (pick _ (ps_a_segment_ids s) (ps_b_segment_ids s)); cbn; discriminate.
Qed.

(** The pass removes exactly one token, from one of the two token lists. *)
Lemma truncate_body_one_token (max_num_tokens : Z) (s s' : pair_state G) :
  truncate_body max_num_tokens s = Ok (Continue s') ->
  (ps_tokens_a s' = ps_tokens_a s
   /\ (length (ps_tokens_b s') + 1 = length (ps_tokens_b s))%nat)
  \/ (ps_tokens_b s' = ps_tokens_b s
      /\ (length (ps_tokens_a s') + 1 = length (ps_tokens_a s))%nat).
Proof.
  intros Hc. apply truncate_body_continue in Hc.
  destruct Hc as (_ & Hne & _ & Htok & _).
  destruct (trunc_target (ps_tokens_a s) (ps_tokens_b s)); cbn in *;
    injection Htok as -> ->; [right | left];
    (split; [reflexivity | apply length_drop_end; exact Hne]).
Qed.

Lemma truncate_body_decreases (max_num_tokens : Z) (s s' : pair_state G) :
  truncate_body max_num_tokens s = Ok (Continue s') ->
  (total_length s' + 1 = total_length s)%nat.
Proof.
  intros Hc. unfold total_length.
  destruct (truncate_body_one_token _ _ Hc) as [[-> Hb] | [-> Ha]]; lia.
Qed.

(** The assertion inside the loop fires exactly when more than
    [max_num_tokens] tokens are asked of two empty lists. *)
Lemma truncate_body_assertion (max_num_tokens : Z) (s : pair_state G) :
  truncate_body max_num_tokens s = Raise AssertionError <->
  max_num_tokens < 0 /\ ps_tokens_a s = [] /\ ps_tokens_b s = [].
Proof.
  destruct s as [a b sa sb g]. unfold truncate_body; cbn [ps_tokens_a ps_tokens_b
    ps_a_segment_ids ps_b_segment_ids ps_gen].
  pose proof (len_nonneg a) as Ha. pose proof (len_nonneg b) as Hb.
  destruct (Z.leb_spec (len a + len b) max_num_tokens) as [Hle | Hgt].
  - split; [discriminate | intros (Hneg & _ & _); lia].
  - pose proof (@trunc_target_nonempty _ a b) as Hne.
    destruct (pick (trunc_target a b) a b) as [| t0 tq] eqn:Hp.
    + cbn. split; [intros _ | reflexivity].
      assert (Hz : ~ 0 < len a + len b) by (intros Hpos; apply Hne; [exact Hpos | exact Hp]).
      assert (Ha0 : len a = 0) by lia. assert (Hb0 : len b = 0) by lia.
      apply len_nil_iff in Ha0, Hb0. repeat split; [lia | assumption | assumption].
    + split.
      * intros Hr; exfalso.
        replace (1 <=? len (t0 :: tq)) with true in Hr
          by (symmetry; apply Z.leb_le; unfold len; cbn [length]; lia).
        cbn in Hr. destruct (random g) as [r0 g'].
        destruct (Qltb r0 one_half); cbn in Hr;
          destruct (pick _ sa sb); cbn in Hr; discriminate.
      * intros (_ & -> & ->). discriminate.
Qed.
End TruncateLoop.

Section TruncateInvariants.
Context {G : Type} `{PRNG G}.

Lemma truncate_body_raise (max_num_tokens : Z) (s : pair_state G) (e : exn) :
  truncate_body max_num_tokens s = Raise e ->
  max_num_tokens < len (ps_tokens_a s) + len (ps_tokens_b s)
  /\ ((e = AssertionError /\ ps_tokens_a s = [] /\ ps_tokens_b s = [])
      \/ (e = IndexError
          /\ pick (trunc_target (ps_a_segment_ids s) (ps_b_segment_ids s))
               (ps_a_segment_ids s) (ps_b_segment_ids s) = [])).
Proof.
  intros Hr. split.
  - unfold truncate_body in Hr.
    destruct (Z.leb_spec (len (ps_tokens_a s) + len (ps_tokens_b s)) max_num_tokens);
      [discriminate | assumption].
  - destruct e.
    + left. apply truncate_body_assertion in Hr. tauto.
    + right. split; [reflexivity |].
      unfold truncate_body in Hr.
      destruct (_ <=? max_num_tokens); [discriminate |].
      destruct (py_assert _) eqn:Ha; cbn in Hr;
        [| unfold py_assert in Ha; destruct (1 <=? _); congruence | discriminate].
      destruct (pick _ (ps_a_segment_ids s) (ps_b_segment_ids s)); [reflexivity |].
      exfalso. destruct (random (ps_gen s)) as [r0 g'].
      destruct (Qltb r0 one_half);
        destruct (pick _ (ps_tokens_a s) (ps_tokens_b s)) as [| t0 tq];
        cbn in Hr; try discriminate.
    + exfalso. unfold truncate_body in Hr.
      destruct (_ <=? max_num_tokens); [discriminate |].
      destruct (py_assert _) eqn:Ha; cbn in Hr;
        [| unfold py_assert in Ha; destruct (1 <=? _); congruence | discriminate].
      destruct (random (ps_gen s)) as [r0 g'].
      destruct (Qltb r0 one_half);
        destruct (pick _ (ps_tokens_a s) (ps_tokens_b s)); cbn in Hr; try discriminate;
        destruct (pick _ (ps_a_segment_ids s) (ps_b_segment_ids s)); cbn in Hr;
        discriminate.
Qed.

(** With room for two tokens, trimming the longer list never empties it. *)
Lemma truncate_body_keeps_nonempty (max_num_tokens : Z) (s s' : pair_state G) :
  2 <= max_num_tokens -> both_nonempty s ->
  truncate_body max_num_tokens s = Ok (Continue s') -> both_nonempty s'.
Proof.
  intros Hmax [Hna Hnb] Hc. apply truncate_body_continue in Hc.
  destruct Hc as (Hgt & Hne & _ & Htok & _).
  pose proof (length_drop_end (Qltb (fst (random (ps_gen s))) one_half) Hne) as Hlen.
  unfold both_nonempty, trunc_target, len in *.
  destruct (Z.gtb_spec (Z.of_nat (length (ps_tokens_a s)))
              (Z.of_nat (length (ps_tokens_b s)))) as [Hab | Hab];
    cbn [pick put] in *; injection Htok as Ea Eb; rewrite Ea, Eb;
    (split; [| try assumption]); try assumption;
    intros Hnil; rewrite Hnil in Hlen; cbn in Hlen; lia.
Qed.

Lemma truncate_body_keeps_aligned (max_num_tokens : Z) (s s' : pair_state G) :
  aligned s -> truncate_body max_num_tokens s = Ok (Continue s') -> aligned s'.
Proof.
  intros [Ha Hb] Hc. apply truncate_body_continue in Hc.
  destruct Hc as (_ & Hne & Hni & Htok & Hids & _).
  pose proof (length_drop_end (Qltb (fst (random (ps_gen s))) one_half) Hne) as Hl1.
  pose proof (length_drop_end (Qltb (fst (random (ps_gen s))) one_half) Hni) as Hl2.
  unfold aligned, trunc_target, len in *. rewrite Ha, Hb in *.
  destruct (_ >? _); cbn [pick put] in *;
    injection Htok as -> ->; injection Hids as -> ->; split; lia.
Qed.
(** The loop of [truncate_seq_pair] has run to its end, or raised, after at
    most [len(tokens_a) + len(tokens_b) + 1] passes. *)
Lemma truncate_seq_pair_not_fuel (fuel : nat) (a b : tokens)
  (max_num_tokens : Z) (sa sb : list Z) (g : G) :
  (length a + length b < fuel)%nat ->
  truncate_seq_pair fuel a b max_num_tokens sa sb g <> OutOfFuel.
Proof.
  intros Hfuel. unfold truncate_seq_pair.
  apply while_terminates with (I := fun _ => True) (m := total_length).
  - intros s _. apply truncate_body_not_fuel.
  - intros s s' _ Hc. split; [exact I |].
    pose proof (truncate_body_decreases _ _ Hc). lia.
  - exact I.
  - exact Hfuel.
Qed.
End TruncateInvariants.



Lemma emit_assertions_pass {G : Type} `{PRNG G} (tokenizer : Tokenizer)
  (results : batch) (is_next : Z) (p : pair_state G) :
  ps_tokens_a p <> [] -> ps_tokens_b p <> [] ->
  emit tokenizer results is_next p <> Raise AssertionError.
Proof.
  intros Ha Hb. unfold emit.
  destruct (ps_tokens_a p) as [| x xa]; [contradiction |].
  destruct (ps_tokens_b p) as [| y xb]; [contradiction |].
  replace (len (x :: xa) >=? 1) with true
    by (symmetry; apply Z.geb_le; unfold len; cbn [length]; lia).
  replace (len (y :: xb) >=? 1) with true
    by (symmetry; apply Z.geb_le; unfold len; cbn [length]; lia).
  cbn [py_assert bind].
  destruct (ps_a_segment_ids p) as [| a0 sa]; cbn; [discriminate |].
  destruct (ps_b_segment_ids p) as [| b0 sb]; cbn; discriminate.
Qed.

(** C2.  For non-empty [tokens_a] and [tokens_b] and [max_num_tokens >= 2],
    [truncate_seq_pair] raises no assertion error and does not run on for
    ever; the lists it returns satisfy [len(tokens_a) + len(tokens_b) <=
    max_num_tokens], [len(tokens_a) >= 1] and [len(tokens_b) >= 1], so that
    the two assertions after the call pass as well; and it does return when
    the id lists are as long as their token lists, which is how [group_texts]
    calls it. *)
Theorem truncate_seq_pair_bound {G : Type} `{PRNG G} (tokenizer : Tokenizer)
  (fuel : nat) (a b : tokens) (max_num_tokens : Z) (sa sb : list Z) (g : G) :
  a <> [] -> b <> [] -> 2 <= max_num_tokens ->
  (length a + length b < fuel)%nat ->
  truncate_seq_pair fuel a b max_num_tokens sa sb g <> Raise AssertionError
  /\ truncate_seq_pair fuel a b max_num_tokens sa sb g <> OutOfFuel
  /\ (forall p, truncate_seq_pair fuel a b max_num_tokens sa sb g = Ok p ->
        len (ps_tokens_a p) + len (ps_tokens_b p) <= max_num_tokens
        /\ 1 <= len (ps_tokens_a p) /\ 1 <= len (ps_tokens_b p)
        /\ forall results is_next,
             emit tokenizer results is_next p <> Raise AssertionError)
  /\ (length sa = length a -> length sb = length b ->
      exists p, truncate_seq_pair fuel a b max_num_tokens sa sb g = Ok p).
Proof.
  intros Ha Hb Hmax Hfuel.
  assert (Hinv : both_nonempty (mk_pair a b sa sb g)) by (split; assumption).
  assert (Hnoassert : truncate_seq_pair fuel a b max_num_tokens sa sb g
                      <> Raise AssertionError).
  { unfold truncate_seq_pair.
    apply while_no_raise with (I := both_nonempty); [| | exact Hinv].
    - intros s s' Hs Hc. eapply truncate_body_keeps_nonempty; eassumption.
    - intros s [Hsa _] Hr. apply truncate_body_assertion in Hr. tauto. }
  assert (Hnofuel : truncate_seq_pair fuel a b max_num_tokens sa sb g <> OutOfFuel).
  { apply truncate_seq_pair_not_fuel; exact Hfuel. }
  split; [exact Hnoassert |]. split; [exact Hnofuel |]. split.
  - intros p Hp. unfold truncate_seq_pair in Hp.
    assert (Hpost : both_nonempty p
                    /\ len (ps_tokens_a p) + len (ps_tokens_b p) <= max_num_tokens).
    { revert Hp. apply while_ind with (I := both_nonempty)
        (P := fun p => both_nonempty p
                       /\ len (ps_tokens_a p) + len (ps_tokens_b p) <= max_num_tokens);
        [| | exact Hinv].
      - intros s s' Hs Hc. eapply truncate_body_keeps_nonempty; eassumption.
      - intros s r Hs Hbr. apply truncate_body_break in Hbr.
        destruct Hbr as [-> Hle]. split; assumption. }
    destruct Hpost as [[Hpa Hpb] Hle].
    split; [exact Hle |].
    assert (Hla : len (ps_tokens_a p) <> 0) by (intros E; apply len_nil_iff in E; auto).
    assert (Hlb : len (ps_tokens_b p) <> 0) by (intros E; apply len_nil_iff in E; auto).
    pose proof (len_nonneg (ps_tokens_a p)). pose proof (len_nonneg (ps_tokens_b p)).
    split; [lia |]. split; [lia |].
    intros results is_next. apply emit_assertions_pass; assumption.
  - intros Hsa Hsb.
    assert (Hnoraise : forall e,
               truncate_seq_pair fuel a b max_num_tokens sa sb g <> Raise e).
    { intros e. unfold truncate_seq_pair.
      apply while_no_raise with (I := fun s => both_nonempty s /\ aligned s).
      - intros s s' [Hs Hal] Hc. split.
        + eapply truncate_body_keeps_nonempty; eassumption.
        + eapply truncate_body_keeps_aligned; eassumption.
      - intros s [[Hna Hnb] [Hal1 Hal2]] Hr.
        apply truncate_body_raise in Hr. destruct Hr as [_ [[_ [Hnil _]] | [_ Hnil]]].
        + contradiction.
        + unfold trunc_target, len in Hnil. rewrite Hal1, Hal2 in Hnil.
          destruct (_ >? _); cbn in Hnil; apply length_zero_iff_nil in Hnil.
          * rewrite Hal1 in Hnil. apply length_zero_iff_nil in Hnil. contradiction.
          * rewrite Hal2 in Hnil. apply length_zero_iff_nil in Hnil. contradiction.
      - split; [exact Hinv | split; assumption]. }
    destruct (truncate_seq_pair fuel a b max_num_tokens sa sb g) as [p | e | ].
    + exists p; reflexivity.
    + exfalso; exact (Hnoraise e eq_refl).
    + exfalso; exact (Hnofuel eq_refl).
Qed.

Lemma truncate_seq_pair_bound_witness :
  exists p,
    truncate_seq_pair 6 [1; 2; 3] [4; 5] 3 [0; 0; 1] [2; 2]
      [Script.draw_05; Script.draw_low] = Ok p
    /\ len (ps_tokens_a p) + len (ps_tokens_b p) <= 3
    /\ 1 <= len (ps_tokens_a p) /\ 1 <= len (ps_tokens_b p).
Proof.
  assert (Ha : [1; 2; 3] <> @nil Z) by discriminate.
  assert (Hb : [4; 5] <> @nil Z) by discriminate.
  assert (Hmax : 2 <= 3) by lia.
  assert (Hfuel : (length [1; 2; 3] + length [4; 5] < 6)%nat) by (cbn; lia).
  destruct (@truncate_seq_pair_bound (list Z) _ (pair_tokenizer 101 102) 6%nat
              [1; 2; 3] [4; 5] 3 [0; 0; 1] [2; 2]
              [Script.draw_05; Script.draw_low] Ha Hb Hmax Hfuel)
    as (_ & _ & Hbound & Hreturns).
  destruct (Hreturns eq_refl eq_refl) as [p Hp].
  exists p. split; [exact Hp |].
  destruct (Hbound p Hp) as (Hle & Hpa & Hpb & _).
  repeat split; assumption.
Defined.

(** C3, as the code has it.  In a pass of the truncation loop with
    [len(tokens_a) + len(tokens_b) > max_num_tokens], on lists of which each
    id list is as long as its token list, the list trimmed is [tokens_a] when
    it is strictly the longer one and [tokens_b] otherwise, so that two lists
    of equal length lose an element of [tokens_b]; the element removed, the
    first when the draw is below 0.5 and the last otherwise, is removed at
    the same end of the trimmed token list and of its id list, and the other
    two lists stay as they are.  ([group_texts] calls the function on such
    lists only: [split_and_relation_aligned].) *)
Theorem truncate_body_trims_longer {G : Type} `{PRNG G}
  (max_num_tokens : Z) (s : pair_state G) :
  aligned s ->
  max_num_tokens < len (ps_tokens_a s) + len (ps_tokens_b s) ->
  0 < len (ps_tokens_a s) + len (ps_tokens_b s) ->
  let front := Qltb (fst (random (ps_gen s))) one_half in
  let g' := snd (random (ps_gen s)) in
  truncate_body max_num_tokens s
  = Ok (Continue
          (if len (ps_tokens_b s) <? len (ps_tokens_a s)
           then mk_pair (drop_end front (ps_tokens_a s)) (ps_tokens_b s)
                  (drop_end front (ps_a_segment_ids s)) (ps_b_segment_ids s) g'
           else mk_pair (ps_tokens_a s) (drop_end front (ps_tokens_b s))
                  (ps_a_segment_ids s) (drop_end front (ps_b_segment_ids s)) g')).
Proof.
  destruct s as [a b sa sb g]. unfold aligned; cbn [ps_tokens_a ps_tokens_b
    ps_a_segment_ids ps_b_segment_ids ps_gen]. intros [Hsa Hsb] Hgt Hpos.
  unfold truncate_body; cbn [ps_tokens_a ps_tokens_b ps_a_segment_ids
    ps_b_segment_ids ps_gen].
  destruct (Z.leb_spec (len a + len b) max_num_tokens) as [Hle | _]; [lia |].
  pose proof (trunc_target_nonempty a b Hpos) as Hne.
  assert (Hti : trunc_target sa sb = trunc_target a b).
  { unfold trunc_target, len. rewrite Hsa, Hsb. reflexivity. }
  rewrite Hti.
  assert (Htt : trunc_target a b = if len b <? len a then SideA else SideB).
  { unfold trunc_target. rewrite Z.gtb_ltb. reflexivity. }
  rewrite Htt in *.
  destruct (random g) as [r0 g0]; cbn [fst snd].
  destruct (len b <? len a); cbn [pick put] in *.
  - destruct a as [| x a]; [contradiction |].
    destruct sa as [| i sa]; [discriminate |].
    replace (1 <=? len (x :: a)) with true
      by (symmetry; apply Z.leb_le; unfold len; cbn [length]; lia).
    destruct (Qltb r0 one_half); reflexivity.
  - destruct b as [| y b]; [contradiction |].
    destruct sb as [| i sb]; [discriminate |].
    replace (1 <=? len (y :: b)) with true
      by (symmetry; apply Z.leb_le; unfold len; cbn [length]; lia).
    destruct (Qltb r0 one_half); reflexivity.
Qed.

Lemma truncate_body_trims_longer_witness :
  truncate_body 3 (mk_pair [1; 2; 3] [4; 5] [0; 0; 1] [2; 2] [Script.draw_low])
  = Ok (Continue (mk_pair [2; 3] [4; 5] [0; 1] [2; 2] [])).
Proof.
  exact (@truncate_body_trims_longer (list Z) _ 3
           (mk_pair [1; 2; 3] [4; 5] [0; 0; 1] [2; 2] [Script.draw_low])
           (conj eq_refl eq_refl) eq_refl eq_refl).
Defined.

(** C3 as the specification words it fails: with [tokens_a] and [tokens_b]
    equally long the pass leaves [tokens_a] alone and trims [tokens_b]. *)
Lemma truncate_tie_trims_b :
  let s := mk_pair [1; 2] [3; 4] [0; 0] [1; 1] [Script.draw_05] in
  len (ps_tokens_a s) = len (ps_tokens_b s)
  /\ 3 < len (ps_tokens_a s) + len (ps_tokens_b s)
  /\ trunc_target (ps_tokens_a s) (ps_tokens_b s) <> SideA
  /\ truncate_body 3 s = Ok (Continue (mk_pair [1; 2] [3] [0; 0] [1] [])).
Proof.
  cbn. repeat split; try lia. discriminate.
Qed.

(** ** The chunking loop *)

Lemma is_empty_snoc {A : Type} (l : list A) (x : A) : is_empty (l ++ [x]) = false.
Proof. destruct l; reflexivity. Qed.

Lemma get_all_chunk_body_not_fuel (examples : list tokens) (target : Z)
  (s : chunk_state) : get_all_chunk_body examples target s <> OutOfFuel.
Proof.
  unfold get_all_chunk_body.
  destruct (cs_i s <? len examples); [| discriminate].
  unfold py_getitem.
  destruct (_ <? 0); cbn; [discriminate |].
  destruct (nth_error _ _) as [seg |]; cbn; [| discriminate].
  destruct (is_empty seg); [discriminate |].
  destruct (_ || _); discriminate.
Qed.

Lemma get_all_chunk_body_advances (examples : list tokens) (target : Z)
  (s s' : chunk_state) :
  get_all_chunk_body examples target s = Ok (Continue s') ->
  cs_i s < len examples /\ cs_i s' = cs_i s + 1.
Proof.
  unfold get_all_chunk_body.
  destruct (Z.ltb_spec (cs_i s) (len examples)) as [Hlt | Hge]; [| discriminate].
  destruct (py_getitem examples (cs_i s)) as [seg | e | ]; cbn; try discriminate.
  destruct (is_empty seg); [| destruct (_ || _)];
    intros Hc; injection Hc as <-; cbn; split; (assumption || reflexivity).
Qed.

Lemma py_getitem_in_range {A : Type} (l : list A) (i : Z) :
  0 <= i < len l -> exists x, py_getitem l i = Ok x /\ In x l.
Proof.
  intros [Hlo Hhi]. unfold py_getitem.
  destruct (Z.leb_spec 0 i) as [_ | Hneg]; [| lia].
  destruct (Z.ltb_spec i 0) as [Hneg | _]; [lia |].
  destruct (nth_error l (Z.to_nat i)) as [x |] eqn:Hn.
  - exists x. split; [reflexivity | eapply nth_error_In; eassumption].
  - apply nth_error_None in Hn. unfold len in Hhi. lia.
Qed.

(** The chunking loop ends, with a list of chunks, on every batch: it raises
    nothing and needs one pass per segment and one more to see the end. *)
Lemma get_all_chunk_returns (fuel : nat) (examples : list tokens) (target : Z) :
  (length examples < fuel)%nat ->
  exists total_chunk, get_all_chunk fuel examples target = Ok total_chunk.
Proof.
  intros Hfuel. unfold get_all_chunk.
  set (I := fun s : chunk_state => 0 <= cs_i s).
  assert (Hstep : forall s s', I s ->
            get_all_chunk_body examples target s = Ok (Continue s') -> I s').
  { intros s s' Hs Hc. apply get_all_chunk_body_advances in Hc. unfold I in *. lia. }
  assert (Hnofuel : while fuel (get_all_chunk_body examples target)
                      (mk_chunk_state 0 [] 0 []) <> OutOfFuel).
  { apply while_terminates with (I := I)
      (m := fun s => Z.to_nat (len examples - cs_i s)).
    - intros s _. apply get_all_chunk_body_not_fuel.
    - intros s s' Hs Hc. split; [eapply Hstep; eassumption |].
      apply get_all_chunk_body_advances in Hc. unfold I in Hs. lia.
    - unfold I; cbn; lia.
    - cbn. unfold len. lia. }
  assert (Hnoraise : forall e, while fuel (get_all_chunk_body examples target)
                                 (mk_chunk_state 0 [] 0 []) <> Raise e).
  { intros e. apply while_no_raise with (I := I); [exact Hstep | | unfold I; cbn; lia].
    intros s Hs. unfold get_all_chunk_body.
    destruct (Z.ltb_spec (cs_i s) (len examples)) as [Hlt | Hge]; [| discriminate].
    destruct (@py_getitem_in_range _ examples (cs_i s)) as [seg [-> _]];
      [unfold I in Hs; lia |].
    cbn. destruct (is_empty seg); [discriminate |].
    destruct (_ || _); discriminate. }
  destruct (while fuel _ _) as [t | e | ].
  - exists t; reflexivity.
  - exfalso; exact (Hnoraise e eq_refl).
  - exfalso; exact (Hnofuel eq_refl).
Qed.

(** No chunk is flushed empty, and no chunk holds an empty segment. *)
Lemma get_all_chunk_nonempty (fuel : nat) (examples : list tokens) (target : Z)
  (total_chunk : list chunk) :
  get_all_chunk fuel examples target = Ok total_chunk ->
  Forall (fun c : chunk => c <> [] /\ Forall (fun seg => seg <> []) c) total_chunk.
Proof.
  unfold get_all_chunk.
  set (good := fun c : chunk => c <> [] /\ Forall (fun seg : tokens => seg <> []) c).
  apply while_ind with
    (I := fun s => Forall good (cs_total_chunk s)
                   /\ Forall (fun seg : tokens => seg <> []) (cs_current_chunk s)).
  - intros s s' [Htot Hcur]. unfold get_all_chunk_body.
    destruct (cs_i s <? len examples); [| discriminate].
    destruct (py_getitem examples (cs_i s)) as [seg | e | ]; cbn; try discriminate.
    destruct seg as [| x seg]; cbn [is_empty].
    + intros Hc; injection Hc as <-; cbn. split; assumption.
    + assert (Hcur' : Forall (fun seg : tokens => seg <> [])
                        (cs_current_chunk s ++ [x :: seg])).
      { apply Forall_app. split; [exact Hcur |]. constructor; [discriminate | constructor]. }
      destruct (_ || _); intros Hc; injection Hc as <-; cbn.
      * split; [| constructor].
        rewrite is_empty_snoc.
        apply Forall_app. split; [exact Htot |].
        constructor; [| constructor].
        split; [intros Hnil; apply app_eq_nil in Hnil; destruct Hnil; discriminate
               | exact Hcur'].
      * split; assumption.
  - intros s r [Htot _]. unfold get_all_chunk_body.
    destruct (cs_i s <? len examples).
    + destruct (py_getitem examples (cs_i s)) as [seg | e | ]; cbn; try discriminate.
      destruct (is_empty seg); [discriminate |]. destruct (_ || _); discriminate.
    + intros Hb; injection Hb as <-. exact Htot.
  - cbn. split; constructor.
Qed.

(** C8 fails on the code: a non-empty segment followed only by an empty one is
    appended to the running chunk and never flushed.  With the target length
    10 the batch [[1, 2], []] yields no chunk at all, while the same batch
    without its empty last segment yields the chunk [[1, 2]]. *)
Theorem get_all_chunk_drops_buffer_before_trailing_empty :
  get_all_chunk 3 [[1; 2]; []] 10 = Ok []
  /\ get_all_chunk 3 [[1; 2]] 10 = Ok [[[1; 2]]].
Proof. split; reflexivity. Qed.

(** ** The instance loop on a chunk of one segment *)

(** When the chunk that is complete holds a single segment, [tokens_b] is
    empty and the pass executes [continue] after [chunk_id += 1]: the index
    [i], the buffer and the running length are what they were after the
    append, so the next pass appends the same segment once more. *)
Lemma build_body_single_segment_chunk {G : Type} `{PRNG G}
  (tokenizer : Tokenizer) (fuel : nat) (examples : list tokens)
  (max_num_tokens target : Z) (total_chunk : list chunk) (s : build_state G)
  (seg : tokens) :
  bs_current_chunk s = [] ->
  bs_i s < len examples ->
  py_getitem examples (bs_i s) = Ok seg ->
  seg <> [] ->
  bs_i s = len examples - 1 \/ target <= bs_current_length s + len seg ->
  build_body tokenizer fuel examples max_num_tokens target total_chunk s
  = Ok (Continue (mk_build_state (bs_i s) [seg] (bs_current_length s + len seg)
                    (bs_chunk_id s + 1) (bs_results s) (bs_gen s))).
Proof.
  intros Hbuf Hi Hseg Hne Hflush. unfold build_body.
  destruct (Z.ltb_spec (bs_i s) (len examples)) as [_ | Hge]; [| lia].
  rewrite Hseg, Hbuf. cbn [bind app].
  destruct seg as [| x seg]; [contradiction |]. cbn [is_empty].
  replace ((bs_i s =? len examples - 1)
           || (bs_current_length s + len (x :: seg) >=? target)) with true.
  2:{ symmetry. apply orb_true_iff. destruct Hflush as [Hlast | Hlen].
      - left. apply Z.eqb_eq. exact Hlast.
      - right. apply Z.geb_le. exact Hlen. }
  cbn. change (Pos.to_nat 1) with 1%nat. cbn. reflexivity.
Qed.

(** The pass after that one splits the buffer [[seg, seg]]: whatever the
    generator, [a_end] is 1, so A and B are both the tokens of [seg]. *)
Lemma duplicated_segment_split {G : Type} `{PRNG G} (seg : tokens) (g : G) :
  choose_a_end [seg; seg] g = Ok (1, snd (randint 1 1 g))
  /\ split_chunk [seg; seg] 1
     = Ok (seg, repeat 0 (length seg), (seg, repeat 1 (length seg))).
Proof.
  split.
  - unfold choose_a_end, py_randint. cbn.
    pose proof (@randint_range _ _ 1 1 g (Z.le_refl 1)) as Hr.
    destruct (randint 1 1 g) as [a_end g']. cbn [fst snd] in *.
    replace a_end with 1 by lia. reflexivity.
  - unfold split_chunk. cbn. reflexivity.
Qed.

(** C1 fails on the code.  The batch [[1, 2]] gives one chunk of one segment;
    the split leaves [tokens_b] empty, and instead of going on to the next
    chunk the loop appends the segment a second time and emits an instance
    whose A and B are both [1, 2].  (Draws: no short target, [a_end = 1],
    [rdn = 0.9].) *)
Theorem group_texts_single_segment_chunk_emits_duplicate :
  get_all_chunk 5 [[1; 2]] 10 = Ok [[[1; 2]]]
  /\ group_texts (pair_tokenizer 101 102) 5 13 1 [[1; 2]]
       [Script.draw_09; 0; Script.draw_09]
     = Ok (mk_batch [[101; 1; 2; 102; 1; 2; 102]]
             [[0; 0; 0; 0; 1; 1; 1]]
             [[1; 1; 1; 1; 1; 1; 1]]
             [[1; 0; 0; 1; 0; 0; 1]]
             [SAME_ORDER]
             [[0; 1; 1; 2; 3; 3; 4]], []).
Proof. split; vm_compute; reflexivity. Qed.

(** C5 fails on the code.  With the target length 2 the batch
    [[1, 2], [3], [4]] has the chunks [[1, 2]] and [[3], [4]].  The first one
    passes [chunk_id += 1] twice, so the second one, at index 1 of
    [total_chunk], is processed with [chunk_id = 2]; the draw [rid = 1] is
    accepted and the B of the pair split from [[3], [4]] is replaced by the
    tokens [3, 4] of that very chunk.  (Draws: short target 2; [a_end = 1],
    [rdn = 0.9]; [a_end = 1], [rdn = 0.5], [rid = 1].) *)
Theorem group_texts_random_picks_own_chunk :
  get_all_chunk 5 [[1; 2]; [3]; [4]] 2 = Ok [[[1; 2]]; [[3]; [4]]]
  /\ group_texts (pair_tokenizer 101 102) 5 13 1 [[1; 2]; [3]; [4]]
       [Script.draw_low; 0; 0; Script.draw_09; 0; Script.draw_05; 1]
     = Ok (mk_batch [[101; 1; 2; 102; 1; 2; 102]; [101; 3; 102; 3; 4; 102]]
             [[0; 0; 0; 0; 1; 1; 1]; [0; 0; 0; 1; 1; 1]]
             [[1; 1; 1; 1; 1; 1; 1]; [1; 1; 1; 1; 1; 1]]
             [[1; 0; 0; 1; 0; 0; 1]; [1; 0; 1; 0; 0; 1]]
             [SAME_ORDER; RANDOM]
             [[0; 1; 1; 2; 3; 3; 4]; [0; 1; 2; 3; 4; 5]], []).
Proof. split; vm_compute; reflexivity. Qed.

(** ** One pass of the instance loop *)

Section BuildBody.
Context {G : Type} `{PRNG G}.
Variable tokenizer : Tokenizer.
Variables (fuel : nat) (examples : list tokens).
Variables (max_num_tokens target : Z) (total_chunk : list chunk).

Let body := build_body tokenizer fuel examples max_num_tokens target total_chunk.

(** The pass that completes a chunk and emits its instance. *)
Lemma build_body_emit (s : build_state G) (seg : tokens) (a_end : Z) (g1 g2 : G)
  (ta tb : tokens) (sa sb : list Z) (rdn : Q) (is_next : Z)
  (p p' : pair_state G) (results : batch) :
  bs_i s < len examples ->
  py_getitem examples (bs_i s) = Ok seg ->
  seg <> [] ->
  bs_i s = len examples - 1 \/ target <= bs_current_length s + len seg ->
  choose_a_end (bs_current_chunk s ++ [seg]) (bs_gen s) = Ok (a_end, g1) ->
  split_chunk (bs_current_chunk s ++ [seg]) a_end = Ok (ta, sa, (tb, sb)) ->
  ta <> [] -> tb <> [] ->
  random g1 = (rdn, g2) ->
  sample_relation fuel rdn total_chunk (bs_chunk_id s + 1)
    (mk_pair ta tb sa sb g2) = Ok (is_next, p) ->
  truncate_seq_pair fuel (ps_tokens_a p) (ps_tokens_b p) max_num_tokens
    (ps_a_segment_ids p) (ps_b_segment_ids p) (ps_gen p) = Ok p' ->
  emit tokenizer (bs_results s) is_next p' = Ok results ->
  body s = Ok (Continue (mk_build_state (bs_i s + 1) [] 0 (bs_chunk_id s + 1)
                           results (ps_gen p'))).
Proof.
  intros Hi Hseg Hne Hflush Hend Hsplit Hta Htb Hrdn Hrel Htrunc Hemit.
  unfold body, build_body.
  destruct (Z.ltb_spec (bs_i s) (len examples)) as [_ | Hge]; [| lia].
  rewrite Hseg. cbn [bind].
  destruct seg as [| x seg]; [contradiction |]. cbn [is_empty].
  replace ((bs_i s =? len examples - 1)
           || (bs_current_length s + len (x :: seg) >=? target)) with true.
  2:{ symmetry. apply orb_true_iff. destruct Hflush as [Hlast | Hlen].
      - left. apply Z.eqb_eq. exact Hlast.
      - right. apply Z.geb_le. exact Hlen. }
  rewrite is_empty_snoc, Hend. cbn [bind]. rewrite Hsplit. cbn [bind].
  replace ((len ta =? 0) || (len tb =? 0)) with false.
  2:{ symmetry. apply orb_false_iff.
      split; apply Z.eqb_neq; intros E; apply len_nil_iff in E; contradiction. }
  rewrite Hrdn, Hrel. cbn [bind]. rewrite Htrunc. cbn [bind].
  rewrite Hemit. reflexivity.
Qed.
End BuildBody.

(** ** The scenario of the specification *)

Lemma Qltb_Qeq (x y z : Q) : (x == y)%Q -> Qltb x z = Qltb y z.
Proof. intros Hxy. unfold Qltb. rewrite Hxy. reflexivity. Qed.

(** C7, as the code has it.  On the batch [[1, 2], [3], [4, 5, 6]] with
    [max_num_tokens = 10], one repetition, no short target, [a_end = 1] and
    [rdn = 0.9], the transform emits one instance: A = [1, 2] and
    B = [3, 4, 5, 6] handed untruncated to the tokenizer, label [SAME_ORDER],
    [special_tokens_mask = [1,0,0,1,0,0,0,0,1]] and
    [segment_ids = [0,1,1,2,3,4,4,4,5]]; truncation draws nothing. *)
Theorem group_texts_scenario {G : Type} `{PRNG G} (tokenizer : Tokenizer)
  (fuel : nat) (g : G) :
  let g1 := snd (random g) in
  let g2 := snd (randint 1 2 g1) in
  let g3 := snd (random g2) in
  (4 <= fuel)%nat ->
  Qltb (fst (random g)) short_seq_prob = false ->
  fst (randint 1 2 g1) = 1 ->
  (fst (random g2) == r_09)%Q ->
  group_texts tokenizer fuel (10 + num_special_tokens_to_add tokenizer) 1
    [[1; 2]; [3]; [4; 5; 6]] g
  = Ok (mk_batch
          [build_inputs_with_special_tokens tokenizer [1; 2] [3; 4; 5; 6]]
          [create_token_type_ids_from_sequences tokenizer [1; 2] [3; 4; 5; 6]]
          [repeat 1 (length (build_inputs_with_special_tokens tokenizer
                                [1; 2] [3; 4; 5; 6]))]
          [[1; 0; 0; 1; 0; 0; 0; 0; 1]]
          [SAME_ORDER]
          [[0; 1; 1; 2; 3; 4; 4; 4; 5]], g3).
Proof.
  intros g1 g2 g3 Hfuel Hlong Hend Hr.
  destruct fuel as [| [| [| [| k]]]]; try lia.
  unfold group_texts. change (Z.to_nat 1) with 1%nat.
  unfold repeat_pass, group_pass, sample_target.
  rewrite Z.add_simpl_r.
  subst g1 g2 g3.
  destruct (random g) as [r0 g1]; cbn [fst snd] in *. rewrite Hlong.
  cbn [bind].
  assert (Hchunks : get_all_chunk (S (S (S (S k)))) [[1; 2]; [3]; [4; 5; 6]] 10
                    = Ok [[[1; 2]; [3]; [4; 5; 6]]]) by reflexivity.
  rewrite Hchunks. cbn [bind]. unfold build_instances.
  cbn [while].
  set (body := build_body tokenizer (S (S (S (S k)))) [[1; 2]; [3]; [4; 5; 6]] 10 10
                 [[[1; 2]; [3]; [4; 5; 6]]]).
  assert (B0 : body (mk_build_state 0 [] 0 (-1) empty_batch g1)
               = Ok (Continue (mk_build_state 1 [[1; 2]] 2 (-1) empty_batch g1)))
    by reflexivity.
  rewrite B0; cbn [bind].
  assert (B1 : body (mk_build_state 1 [[1; 2]] 2 (-1) empty_batch g1)
               = Ok (Continue (mk_build_state 2 [[1; 2]; [3]] 3 (-1) empty_batch g1)))
    by reflexivity.
  rewrite B1; cbn [bind].
  destruct (randint 1 2 g1) as [a_end g2] eqn:E1. cbn [fst snd] in *. subst a_end.
  destruct (random g2) as [r g3] eqn:E2. cbn [fst snd] in *.
  assert (Hend : choose_a_end [[1; 2]; [3]; [4; 5; 6]] g1 = Ok (1, g2)).
  { unfold choose_a_end, py_randint. cbn. rewrite E1. reflexivity. }
  assert (Hrel : forall p : pair_state G,
             sample_relation (S (S (S (S k)))) r [[[1; 2]; [3]; [4; 5; 6]]] 0 p
             = Ok (SAME_ORDER, p)).
  { intros p. unfold sample_relation.
    rewrite (Qltb_Qeq one_third Hr), (Qltb_Qeq two_thirds Hr). reflexivity. }
  assert (B2 : body (mk_build_state 2 [[1; 2]; [3]] 3 (-1) empty_batch g1)
               = Ok (Continue
                       (mk_build_state 3 [] 0 0
                          (mk_batch
                             [build_inputs_with_special_tokens tokenizer [1; 2] [3; 4; 5; 6]]
                             [create_token_type_ids_from_sequences tokenizer [1; 2] [3; 4; 5; 6]]
                             [repeat 1 (length (build_inputs_with_special_tokens tokenizer
                                                   [1; 2] [3; 4; 5; 6]))]
                             [[1; 0; 0; 1; 0; 0; 0; 0; 1]]
                             [SAME_ORDER]
                             [[0; 1; 1; 2; 3; 4; 4; 4; 5]]) g3))).
  { unfold body.
    apply build_body_emit with
      (seg := [4; 5; 6]) (a_end := 1) (g1 := g2) (g2 := g3)
      (ta := [1; 2]) (tb := [3; 4; 5; 6]) (sa := [0; 0]) (sb := [1; 2; 2; 2])
      (rdn := r) (is_next := SAME_ORDER)
      (p := mk_pair [1; 2] [3; 4; 5; 6] [0; 0] [1; 2; 2; 2] g3)
      (p' := mk_pair [1; 2] [3; 4; 5; 6] [0; 0] [1; 2; 2; 2] g3).
    - reflexivity.
    - reflexivity.
    - discriminate.
    - left; reflexivity.
    - exact Hend.
    - reflexivity.
    - discriminate.
    - discriminate.
    - exact E2.
    - apply Hrel.
    - reflexivity.
    - reflexivity. }
  rewrite B2; cbn [bind].
  assert (B3 : forall s, bs_i s = 3 -> body s = Ok (Break s)).
  { intros s Hs. unfold body, build_body. rewrite Hs. reflexivity. }
  rewrite B3 by reflexivity. reflexivity.
Qed.

Lemma group_texts_scenario_witness :
  group_texts (pair_tokenizer 101 102) 4 13 1 [[1; 2]; [3]; [4; 5; 6]]
    [Script.draw_09; 0; Script.draw_09]
  = Ok (mk_batch [[101; 1; 2; 102; 3; 4; 5; 6; 102]]
          [[0; 0; 0; 0; 1; 1; 1; 1; 1]]
          [[1; 1; 1; 1; 1; 1; 1; 1; 1]]
          [[1; 0; 0; 1; 0; 0; 0; 0; 1]]
          [SAME_ORDER]
          [[0; 1; 1; 2; 3; 4; 4; 4; 5]], []).
Proof.
  exact (@group_texts_scenario (list Z) _ (pair_tokenizer 101 102) 4%nat
           [Script.draw_09; 0; Script.draw_09]
           (le_n 4) eq_refl eq_refl (Qeq_refl r_09)).
Defined.

(** C7 as the specification words it fails: in its scenario the segment ids
    emitted are not [0,1,1,2,3,3,3,4], a list one shorter than the instance. *)
Lemma scenario_segment_ids_differ :
  exists b g',
    group_texts (pair_tokenizer 101 102) 4 13 1 [[1; 2]; [3]; [4; 5; 6]]
      [Script.draw_09; 0; Script.draw_09] = Ok (b, g')
    /\ input_ids b = [[101; 1; 2; 102; 3; 4; 5; 6; 102]]
    /\ next_sentence_label b = [SAME_ORDER]
    /\ segment_ids b <> [[0; 1; 1; 2; 3; 3; 3; 4]].
Proof.
  eexists. eexists. split; [vm_compute; reflexivity |].
  cbn. repeat split. discriminate.
Qed.

(** ** The relation sampler *)

Lemma Qltb_lt (x y : Q) : Qltb x y = true <-> (x < y)%Q.
Proof.
  unfold Qltb. rewrite negb_true_iff. split; intros Hxy.
  - apply Qnot_le_lt. intros Hle. apply Qle_bool_iff in Hle. congruence.
  - destruct (Qle_bool y x) eqn:Hb; [| reflexivity].
    apply Qle_bool_iff in Hb. exfalso. exact (Qlt_not_le _ _ Hxy Hb).
Qed.

Lemma Qltb_ge (x y : Q) : Qltb x y = false <-> (y <= x)%Q.
Proof.
  unfold Qltb. rewrite negb_false_iff. apply Qle_bool_iff.
Qed.

Section PickRid.
Context {G : Type} `{PRNG G}.
Variables (total_chunk : list chunk) (chunk_id : Z).

(** The index the rejection loop settles on lies in [total_chunk] and is not
    [chunk_id]. *)
Lemma pick_rid_spec (fuel : nat) (g g' : G) (rid : Z) :
  pick_rid fuel total_chunk chunk_id g = Ok (rid, g') ->
  0 <= rid < len total_chunk /\ rid <> chunk_id.
Proof.
  unfold pick_rid.
  apply while_ind with (I := fun _ : G => True)
    (P := fun r : Z * G => 0 <= fst r < len total_chunk /\ fst r <> chunk_id)
    (r := (rid, g')); [intros; exact I | | exact I].
  intros s r _. unfold pick_rid_body, py_randint.
  destruct (Z.leb_spec 0 (len total_chunk - 1)) as [Hle | Hgt]; cbn; [| discriminate].
  pose proof (@randint_range _ _ 0 (len total_chunk - 1) s Hle) as Hrange.
  destruct (randint 0 (len total_chunk - 1) s) as [rid0 g0]. cbn [fst] in Hrange.
  destruct (Z.eqb_spec rid0 chunk_id) as [Heq | Hneq]; cbn; [discriminate |].
  intros Hb; injection Hb as <-. cbn. split; [lia | exact Hneq].
Qed.

End PickRid.

Section SampleRelation.
Context {G : Type} `{PRNG G}.
Variables (fuel : nat) (rdn : Q) (total_chunk : list chunk) (chunk_id : Z).
Variable p : pair_state G.

Lemma sample_relation_swapped :
  (rdn < one_third)%Q ->
  sample_relation fuel rdn total_chunk chunk_id p
  = Ok (SWAPPED, mk_pair (ps_tokens_b p) (ps_tokens_a p)
                   (ps_b_segment_ids p) (ps_a_segment_ids p) (ps_gen p)).
Proof.
  intros Hlt. unfold sample_relation.
  apply Qltb_lt in Hlt. rewrite Hlt. reflexivity.
Qed.

Lemma sample_relation_same_order :
  (one_third <= rdn)%Q ->
  (two_thirds <= rdn)%Q \/ len total_chunk <= 1 ->
  sample_relation fuel rdn total_chunk chunk_id p = Ok (SAME_ORDER, p).
Proof.
  intros Hge Hor. unfold sample_relation.
  apply Qltb_ge in Hge. rewrite Hge.
  replace (Qltb rdn two_thirds && (len total_chunk >? 1)) with false; [reflexivity |].
  symmetry. apply andb_false_iff. destruct Hor as [Hr | Hlen].
  - left. apply Qltb_ge. exact Hr.
  - right. rewrite Z.gtb_ltb. apply Z.ltb_ge. exact Hlen.
Qed.

Lemma sample_relation_random :
  (one_third <= rdn)%Q -> (rdn < two_thirds)%Q -> 1 < len total_chunk ->
  sample_relation fuel rdn total_chunk chunk_id p
  = (' (rid, g') <- pick_rid fuel total_chunk chunk_id (ps_gen p) ;;
     another_chunk <- py_getitem total_chunk rid ;;
     Ok (RANDOM,
         mk_pair (ps_tokens_a p) (py_sum another_chunk) (ps_a_segment_ids p)
           (chunk_segment_ids another_chunk) g')).
Proof.
  intros Hge Hlt Hlen. unfold sample_relation.
  apply Qltb_ge in Hge. rewrite Hge. apply Qltb_lt in Hlt. rewrite Hlt.
  replace (len total_chunk >? 1) with true; [reflexivity |].
  symmetry. rewrite Z.gtb_ltb. apply Z.ltb_lt. exact Hlen.
Qed.

(** Every outcome of the sampler, read backwards. *)
Lemma sample_relation_inv (is_next : Z) (p' : pair_state G) :
  sample_relation fuel rdn total_chunk chunk_id p = Ok (is_next, p') ->
  (is_next = SWAPPED /\ (rdn < one_third)%Q
   /\ p' = mk_pair (ps_tokens_b p) (ps_tokens_a p)
             (ps_b_segment_ids p) (ps_a_segment_ids p) (ps_gen p))
  \/ (is_next = RANDOM /\ (one_third <= rdn)%Q /\ (rdn < two_thirds)%Q
      /\ 1 < len total_chunk
      /\ exists rid g' another_chunk,
           pick_rid fuel total_chunk chunk_id (ps_gen p) = Ok (rid, g')
           /\ py_getitem total_chunk rid = Ok another_chunk
           /\ p' = mk_pair (ps_tokens_a p) (py_sum another_chunk)
                     (ps_a_segment_ids p) (chunk_segment_ids another_chunk) g')
  \/ (is_next = SAME_ORDER /\ (one_third <= rdn)%Q
      /\ ((two_thirds <= rdn)%Q \/ len total_chunk <= 1) /\ p' = p).
Proof.
  destruct (Qlt_le_dec rdn one_third) as [Hlt | Hge].
  - rewrite (sample_relation_swapped Hlt). intros Hs; injection Hs as <- <-.
    left. repeat split. exact Hlt.
  - destruct (Qlt_le_dec rdn two_thirds) as [Hlt2 | Hge2].
    + destruct (Z_lt_le_dec 1 (len total_chunk)) as [Hlen | Hlen].
      * rewrite (sample_relation_random Hge Hlt2 Hlen). intros Hs.
        apply bind_Ok in Hs. destruct Hs as [[rid g'] [Hrid Hs]].
        apply bind_Ok in Hs. destruct Hs as [another [Hget Hs]].
        injection Hs as <- <-. right; left.
        repeat split; try assumption. exists rid, g', another. repeat split; assumption.
      * rewrite (sample_relation_same_order Hge (or_intror Hlen)).
        intros Hs; injection Hs as <- <-. right; right. repeat split; auto.
    + rewrite (sample_relation_same_order Hge (or_introl Hge2)).
      intros Hs; injection Hs as <- <-. right; right. repeat split; auto.
Qed.
End SampleRelation.

(** ** Id lists are as long as their token lists *)

Lemma extend_segments_aligned (current_chunk : chunk) (js : list Z)
  (toks toks' : tokens) (ids ids' : list Z) :
  length ids = length toks ->
  extend_segments current_chunk js toks ids = Ok (toks', ids') ->
  length ids' = length toks'.
Proof.
  revert toks ids. induction js as [| j js IH]; intros toks ids Hlen; cbn.
  - intros Hr; injection Hr as <- <-. exact Hlen.
  - destruct (py_getitem current_chunk j) as [seg | e | ]; cbn [bind]; try discriminate.
    apply IH. rewrite !length_app, repeat_length, Hlen. reflexivity.
Qed.

Lemma chunk_segment_ids_length (another_chunk : chunk) :
  length (chunk_segment_ids another_chunk) = length (py_sum another_chunk).
Proof.
  unfold chunk_segment_ids, enumerate. rewrite !py_sum_concat.
  generalize 0%nat as k.
  induction another_chunk as [| seg c IH]; intros k; cbn; [reflexivity |].
  rewrite !length_app, repeat_length, IH. reflexivity.
Qed.

(** The pair that [group_texts] hands to [truncate_seq_pair] is aligned: the
    split builds each id list along with its token list, and every branch of
    the relation sampler keeps the two together. *)
Lemma split_and_relation_aligned {G : Type} `{PRNG G} (fuel : nat)
  (current_chunk : chunk) (a_end : Z) (ta tb : tokens) (sa sb : list Z)
  (rdn : Q) (total_chunk : list chunk) (chunk_id is_next : Z) (g : G)
  (p : pair_state G) :
  split_chunk current_chunk a_end = Ok (ta, sa, (tb, sb)) ->
  sample_relation fuel rdn total_chunk chunk_id (mk_pair ta tb sa sb g)
  = Ok (is_next, p) ->
  aligned p.
Proof.
  unfold split_chunk. intros Hs Hrel.
  apply bind_Ok in Hs. destruct Hs as [[ta' sa'] [Ha Hs]].
  apply bind_Ok in Hs. destruct Hs as [[tb' sb'] [Hb Hs]].
  injection Hs as <- <- <- <-.
  apply extend_segments_aligned in Ha; [| reflexivity].
  apply extend_segments_aligned in Hb; [| reflexivity].
  apply sample_relation_inv in Hrel.
  destruct Hrel as [(_ & _ & ->) | [(_ & _ & _ & _ & rid & g' & c & _ & _ & ->)
                                   | (_ & _ & _ & ->)]];
    split; cbn; try assumption.
  apply chunk_segment_ids_length.
Qed.

(** ** What the instance loop appends *)

Section Emissions.
Context {G : Type} `{PRNG G}.
Variable tokenizer : Tokenizer.
Variables (fuel : nat) (examples : list tokens).
Variables (max_num_tokens target : Z) (total_chunk : list chunk).

Lemma build_body_results (s s' : build_state G) :
  build_body tokenizer fuel examples max_num_tokens target total_chunk s
  = Ok (Continue s') ->
  bs_results s' = bs_results s
  \/ emission tokenizer fuel max_num_tokens total_chunk (bs_results s) (bs_results s').
Proof.
  unfold build_body.
  destruct (bs_i s <? len examples); [| discriminate].
  destruct (py_getitem examples (bs_i s)) as [seg | e | ]; cbn [bind]; try discriminate.
  destruct (is_empty seg).
  { intros Hc; injection Hc as <-. left; reflexivity. }
  destruct (_ || _).
  2:{ intros Hc; injection Hc as <-. left; reflexivity. }
  destruct (is_empty (bs_current_chunk s ++ [seg])).
  { intros Hc; injection Hc as <-. left; reflexivity. }
  destruct (choose_a_end _ (bs_gen s)) as [[a_end g1] | e | ]; cbn [bind];
    try discriminate.
  destruct (split_chunk _ a_end) as [[[ta sa] [tb sb]] | e | ] eqn:Hsplit;
    cbn [bind]; try discriminate.
  destruct (_ || _).
  { intros Hc; injection Hc as <-. left; reflexivity. }
  destruct (random g1) as [rdn g2].
  destruct (sample_relation _ _ _ _ _) as [[is_next p] | e | ] eqn:Hrel;
    cbn [bind]; try discriminate.
  destruct (truncate_seq_pair _ _ _ _ _ _ _) as [p' | e | ] eqn:Htrunc;
    cbn [bind]; try discriminate.
  destruct (emit _ _ _ _) as [results | e | ] eqn:Hemit; cbn [bind]; try discriminate.
  intros Hc; injection Hc as <-. right. cbn [bs_results].
  exists (bs_current_chunk s ++ [seg]), a_end, ta, tb, sa, sb, rdn, g2,
    (bs_chunk_id s + 1), is_next, p, p'.
  repeat split; assumption.
Qed.

Lemma build_body_break (s r : build_state G) :
  build_body tokenizer fuel examples max_num_tokens target total_chunk s
  = Ok (Break r) -> r = s.
Proof.
  unfold build_body.
  destruct (bs_i s <? len examples); [| intros Hb; injection Hb as <-; reflexivity].
  destruct (py_getitem examples (bs_i s)) as [seg | e | ]; cbn [bind]; try discriminate.
  destruct (is_empty seg); [discriminate |].
  destruct (_ || _); [| discriminate].
  destruct (is_empty (bs_current_chunk s ++ [seg])); [discriminate |].
  destruct (choose_a_end _ (bs_gen s)) as [[a_end g1] | e | ]; cbn [bind];
    try discriminate.
  destruct (split_chunk _ a_end) as [[[ta sa] [tb sb]] | e | ];
    cbn [bind]; try discriminate.
  destruct (_ || _); [discriminate |].
  destruct (random g1) as [rdn g2].
  destruct (sample_relation _ _ _ _ _) as [[is_next p] | e | ];
    cbn [bind]; try discriminate.
  destruct (truncate_seq_pair _ _ _ _ _ _ _) as [p' | e | ];
    cbn [bind]; try discriminate.
  destruct (emit _ _ _ _) as [results | e | ]; cbn [bind]; discriminate.
Qed.

(** A property of the batch that every emission keeps holds of what the
    instance loop returns. *)
Lemma build_instances_ind (P : batch -> Prop) (results results' : batch) (g g' : G) :
  (forall r r', P r -> emission tokenizer fuel max_num_tokens total_chunk r r' -> P r') ->
  P results ->
  build_instances tokenizer fuel examples max_num_tokens target total_chunk
    results g = Ok (results', g') ->
  P results'.
Proof.
  intros Hstep Hinit Hrun. unfold build_instances in Hrun.
  apply bind_Ok in Hrun. destruct Hrun as [s [Hloop Hret]].
  injection Hret as <- <-. revert Hloop.
  apply while_ind with (I := fun s => P (bs_results s))
    (P := fun s => P (bs_results s)).
  - intros s0 s1 Hs0 Hc. apply build_body_results in Hc.
    destruct Hc as [-> | Hem]; [exact Hs0 | eapply Hstep; eassumption].
  - intros s0 r Hs0 Hb. apply build_body_break in Hb. subst r. exact Hs0.
  - exact Hinit.
Qed.
End Emissions.

(** ** The instance appended *)

Lemma last_default {A : Type} (l : list A) (d d' : A) :
  l <> [] -> last l d = last l d'.
Proof.
  induction l as [| x l IH]; intros Hl; [contradiction |].
  destruct l as [| y l]; [reflexivity |].
  cbn [last] in *. apply IH. discriminate.
Qed.

Lemma py_last_last {A : Type} (l : list A) (d x : A) :
  py_last l = Ok x -> x = last l d /\ l <> [].
Proof.
  destruct l as [| y l]; cbn [py_last]; intros Hl; [discriminate |].
  injection Hl as <-. split; [| discriminate].
  destruct l as [| z l]; [reflexivity |].
  change (last (y :: z :: l) d) with (last (z :: l) d).
  apply last_default. discriminate.
Qed.

Lemma emit_inv {G : Type} `{PRNG G} (tokenizer : Tokenizer) (results results' : batch)
  (is_next : Z) (p : pair_state G) :
  emit tokenizer results is_next p = Ok results' ->
  ps_tokens_a p <> [] /\ ps_tokens_b p <> []
  /\ ps_a_segment_ids p <> [] /\ ps_b_segment_ids p <> []
  /\ results' =
     mk_batch
       (input_ids results
        ++ [build_inputs_with_special_tokens tokenizer (ps_tokens_a p) (ps_tokens_b p)])
       (token_type_ids results
        ++ [create_token_type_ids_from_sequences tokenizer (ps_tokens_a p)
              (ps_tokens_b p)])
       (attention_mask results
        ++ [repeat 1 (length (build_inputs_with_special_tokens tokenizer
                                 (ps_tokens_a p) (ps_tokens_b p)))])
       (special_tokens_mask results
        ++ [[1] ++ repeat 0 (length (ps_tokens_a p)) ++ [1]
                ++ repeat 0 (length (ps_tokens_b p)) ++ [1]])
       (next_sentence_label results ++ [is_next])
       (segment_ids results
        ++ [spec_segment_ids (ps_a_segment_ids p) (ps_b_segment_ids p)]).
Proof.
  unfold emit. intros He.
  apply bind_Ok in He. destruct He as [[] [Ha He]].
  apply bind_Ok in He. destruct He as [[] [Hb He]].
  apply bind_Ok in He. destruct He as [a0 [Ha0 He]].
  apply bind_Ok in He. destruct He as [b0 [Hb0 He]].
  apply bind_Ok in He. destruct He as [al [Hal He]].
  apply bind_Ok in He. destruct He as [bl [Hbl He]].
  injection He as <-.
  assert (Hta : ps_tokens_a p <> []).
  { intros E. rewrite E in Ha. discriminate. }
  assert (Htb : ps_tokens_b p <> []).
  { intros E. rewrite E in Hb. discriminate. }
  destruct (ps_a_segment_ids p) as [| x sa] eqn:Esa; [discriminate |].
  destruct (ps_b_segment_ids p) as [| y sb] eqn:Esb; [discriminate |].
  injection Ha0 as <-. injection Hb0 as <-.
  apply py_last_last with (d := 0) in Hal. destruct Hal as [-> _].
  apply py_last_last with (d := 0) in Hbl. destruct Hbl as [-> _].
  repeat split; try assumption; try discriminate.
Qed.

(** ** Labels *)




(** ** Non-decreasing id lists *)

Lemma nondecreasing_app (l1 l2 : list Z) :
  nondecreasing l1 -> nondecreasing l2 ->
  (forall x y, In x l1 -> In y l2 -> x <= y) ->
  nondecreasing (l1 ++ l2).
Proof.
  unfold nondecreasing. intros H1 H2 Hcross.
  induction l1 as [| x l1 IH]; cbn; [exact H2 |].
  inversion H1 as [| ? ? Hs Hall]; subst. constructor.
  - apply IH; [exact Hs |]. intros a b Ha Hb. apply Hcross; [right; exact Ha | exact Hb].
  - apply Forall_app. split; [exact Hall |].
    apply Forall_forall. intros y Hy. apply Hcross; [left; reflexivity | exact Hy].
Qed.

Lemma nondecreasing_app_inv (l1 l2 : list Z) :
  nondecreasing (l1 ++ l2) -> nondecreasing l1 /\ nondecreasing l2.
Proof.
  unfold nondecreasing. induction l1 as [| x l1 IH]; cbn; intros Hs.
  - split; [constructor | exact Hs].
  - inversion Hs as [| ? ? Hs' Hall]; subst.
    destruct (IH Hs') as [H1 H2]. split; [| exact H2].
    constructor; [exact H1 |]. apply Forall_app in Hall. tauto.
Qed.

Lemma nondecreasing_repeat (x : Z) (n : nat) : nondecreasing (repeat x n).
Proof.
  unfold nondecreasing. induction n as [| n IH]; cbn; constructor; [exact IH |].
  apply Forall_forall. intros y Hy. apply repeat_spec in Hy. lia.
Qed.

Lemma nondecreasing_drop_end (front : bool) (l : list Z) :
  nondecreasing l -> nondecreasing (drop_end front l).
Proof.
  intros Hl. destruct front; cbn.
  - destruct l as [| x l]; [exact Hl |]. inversion Hl; assumption.
  - destruct l as [| x l]; [exact Hl |].
    assert (Hne : x :: l <> []) by discriminate.
    destruct (exists_last Hne) as [l' [y Heq]]. rewrite Heq in *.
    rewrite removelast_last. apply nondecreasing_app_inv in Hl. tauto.
Qed.

Lemma nondecreasing_map_shift (c : Z) (l : list Z) :
  nondecreasing l -> nondecreasing (map (fun x => x + c) l).
Proof.
  unfold nondecreasing. induction 1 as [| x l Hs IH Hall]; cbn; constructor.
  - exact IH.
  - apply Forall_map. eapply Forall_impl; [| exact Hall]. cbn. intros; lia.
Qed.

(** In a non-decreasing list the first element is the least and the last one
    the greatest. *)
Lemma nondecreasing_bounds (l : list Z) (d : Z) :
  nondecreasing l -> Forall (fun x => hd d l <= x <= last l d) l.
Proof.
  unfold nondecreasing. induction 1 as [| x l Hs IH Hall]; [constructor |].
  cbn [hd]. destruct l as [| y l].
  - constructor; [cbn; lia | constructor].
  - change (last (x :: y :: l) d) with (last (y :: l) d).
    inversion Hall as [| ? ? Hxy Hall']; subst.
    assert (Hlast : x <= last (y :: l) d).
    { inversion IH as [| ? ? Hy _]; subst. cbn [hd] in Hy. lia. }
    constructor; [lia |].
    eapply Forall_impl; [| exact IH]. cbn [hd]. intros z Hz. lia.
Qed.

Lemma py_range_nondecreasing (lo hi : Z) : nondecreasing (py_range lo hi).
Proof.
  unfold py_range, nondecreasing.
  generalize (Z.to_nat (hi - lo)) as n. generalize 0%nat as s.
  intros s n; revert s. induction n as [| n IH]; intros s; cbn; constructor.
  - apply IH.
  - apply Forall_map. apply Forall_forall. intros k Hk. apply in_seq in Hk. lia.
Qed.

(** ** Origin ids are non-decreasing *)

Lemma extend_segments_nondecreasing (current_chunk : chunk) (js : list Z)
  (toks toks' : tokens) (ids ids' : list Z) :
  nondecreasing js -> nondecreasing ids ->
  (forall i j, In i ids -> In j js -> i <= j) ->
  extend_segments current_chunk js toks ids = Ok (toks', ids') ->
  nondecreasing ids'.
Proof.
  revert toks ids. induction js as [| j js IH]; intros toks ids Hjs Hids Hcross; cbn.
  - intros Hr; injection Hr as <- <-. exact Hids.
  - destruct (py_getitem current_chunk j) as [seg | e | ]; cbn [bind]; try discriminate.
    inversion Hjs as [| ? ? Hjs' Hall]; subst.
    apply IH; [exact Hjs' | |].
    + apply nondecreasing_app; [exact Hids | apply nondecreasing_repeat |].
      intros x y Hx Hy. apply repeat_spec in Hy. subst y.
      apply Hcross; [exact Hx | left; reflexivity].
    + intros i k Hi Hk. apply in_app_or in Hi. destruct Hi as [Hi | Hi].
      * apply Hcross; [exact Hi | right; exact Hk].
      * apply repeat_spec in Hi. subst i.
        rewrite Forall_forall in Hall. apply Hall. exact Hk.
Qed.

Lemma split_chunk_nondecreasing (current_chunk : chunk) (a_end : Z)
  (ta tb : tokens) (sa sb : list Z) :
  split_chunk current_chunk a_end = Ok (ta, sa, (tb, sb)) ->
  nondecreasing sa /\ nondecreasing sb.
Proof.
  unfold split_chunk. intros Hs.
  apply bind_Ok in Hs. destruct Hs as [[ta' sa'] [Ha Hs]].
  apply bind_Ok in Hs. destruct Hs as [[tb' sb'] [Hb Hs]].
  injection Hs as <- <- <- <-.
  split; eapply extend_segments_nondecreasing; try eassumption;
    try apply py_range_nondecreasing; try constructor;
    intros i j Hi; contradiction.
Qed.

Lemma chunk_segment_ids_nondecreasing (another_chunk : chunk) :
  nondecreasing (chunk_segment_ids another_chunk).
Proof.
  unfold chunk_segment_ids, enumerate. rewrite py_sum_concat.
  generalize 0%nat as k.
  induction another_chunk as [| seg c IH]; intros k; cbn; [constructor |].
  apply nondecreasing_app; [apply nondecreasing_repeat | apply IH |].
  intros x y Hx Hy. apply repeat_spec in Hx. subst x.
  apply in_concat in Hy. destruct Hy as [l [Hl Hy]].
  apply in_map_iff in Hl. destruct Hl as [[i s] [<- Hin]]. cbn [fst snd] in Hy.
  apply repeat_spec in Hy. subst y.
  apply in_combine_l in Hin. apply in_map_iff in Hin.
  destruct Hin as [n [<- Hn]]. apply in_seq in Hn. lia.
Qed.

Section SortedPairs.
Context {G : Type} `{PRNG G}.

Lemma sample_relation_nondecreasing (fuel : nat) (rdn : Q)
  (total_chunk : list chunk) (chunk_id is_next : Z) (p p' : pair_state G) :
  ids_nondecreasing p ->
  sample_relation fuel rdn total_chunk chunk_id p = Ok (is_next, p') ->
  ids_nondecreasing p'.
Proof.
  intros [Ha Hb] Hs. apply sample_relation_inv in Hs.
  destruct Hs as [(_ & _ & ->) | [(_ & _ & _ & _ & rid & g' & c & _ & _ & ->)
                                 | (_ & _ & _ & ->)]]; split; cbn; try assumption.
  apply chunk_segment_ids_nondecreasing.
Qed.

Lemma truncate_seq_pair_nondecreasing (fuel : nat) (a b : tokens)
  (max_num_tokens : Z) (sa sb : list Z) (g : G) (p' : pair_state G) :
  nondecreasing sa -> nondecreasing sb ->
  truncate_seq_pair fuel a b max_num_tokens sa sb g = Ok p' ->
  ids_nondecreasing p'.
Proof.
  intros Ha Hb. unfold truncate_seq_pair.
  apply while_ind with (I := ids_nondecreasing).
  - intros s s' [Hsa Hsb] Hc. apply truncate_body_continue in Hc.
    destruct Hc as (_ & _ & _ & _ & Hids & _).
    unfold ids_nondecreasing.
    destruct (trunc_target (ps_a_segment_ids s) (ps_b_segment_ids s));
      cbn [pick put] in Hids; injection Hids as -> ->;
      split; try assumption; apply nondecreasing_drop_end; assumption.
  - intros s r Hs Hbr. apply truncate_body_break in Hbr.
    destruct Hbr as [-> _]. exact Hs.
  - split; assumption.
Qed.
End SortedPairs.

(** ** Segment ids of an instance *)

Lemma nondecreasing_singleton (x : Z) : nondecreasing [x].
Proof. constructor; constructor. Qed.

Lemma renumbering_bounds (c : Z) (l : list Z) :
  l <> [] -> nondecreasing l ->
  let l' := map (fun x => x - hd 0 l + c) l in
  nondecreasing l'
  /\ c <= last l' 0
  /\ forall x, In x l' -> c <= x <= last l' 0.
Proof.
  intros Hne Hl l'.
  assert (Hs : nondecreasing l').
  { subst l'. rewrite (map_ext _ (fun x => x + (c - hd 0 l))) by (intros; lia).
    apply nondecreasing_map_shift. exact Hl. }
  pose proof (nondecreasing_bounds 0 Hs) as Hb. rewrite Forall_forall in Hb.
  assert (Hhd : hd 0 l' = c).
  { subst l'. destruct l as [| x l]; [contradiction |]. cbn. lia. }
  rewrite Hhd in Hb.
  assert (Hin : In c l').
  { subst l'. destruct l as [| x l]; [contradiction |]. cbn. left. lia. }
  split; [exact Hs |]. split; [apply (Hb c Hin) | exact Hb].
Qed.

Lemma spec_segment_ids_ok (a b : list Z) :
  a <> [] -> b <> [] -> nondecreasing a -> nondecreasing b ->
  segment_ids_ok (spec_segment_ids a b).
Proof.
  intros Ha Hb Hsa Hsb. exists a, b.
  destruct (renumbering_bounds 1 Ha Hsa) as (Hsa' & Hla & Hina).
  destruct (renumbering_bounds (last (renumbered_a a) 0 + 2) Hb Hsb)
    as (Hsb' & Hlb & Hinb).
  fold (renumbered_a a) in Hsa', Hla, Hina.
  assert (Eb : map (fun x => x - hd 0 b + (last (renumbered_a a) 0 + 2)) b
               = renumbered_b a b).
  { unfold renumbered_b. apply map_ext. intros; lia. }
  rewrite Eb in Hsb', Hlb, Hinb.
  set (a' := renumbered_a a) in *. set (b' := renumbered_b a b) in *.
  split; [exact Ha |]. split; [exact Hb |]. split; [reflexivity |].
  split; [| split].
  - unfold spec_segment_ids. fold a' b'.
    apply nondecreasing_app; [apply nondecreasing_singleton | |].
    + apply nondecreasing_app; [exact Hsa' | |].
      * apply nondecreasing_app; [apply nondecreasing_singleton | |].
        -- apply nondecreasing_app; [exact Hsb' | apply nondecreasing_singleton |].
           intros x y Hx [<- | []]. specialize (Hinb x Hx). lia.
        -- intros x y [<- | []] Hy. apply in_app_or in Hy.
           destruct Hy as [Hy | [<- | []]]; [specialize (Hinb y Hy) |]; lia.
      * intros x y Hx Hy. specialize (Hina x Hx). cbn [app In] in Hy.
        destruct Hy as [<- | Hy]; [lia |]. apply in_app_or in Hy.
        destruct Hy as [Hy | [<- | []]]; [specialize (Hinb y Hy) |]; lia.
    + intros x y [<- | []] Hy. apply in_app_or in Hy.
      destruct Hy as [Hy | Hy]; [specialize (Hina y Hy); lia |]. cbn [app In] in Hy.
      destruct Hy as [<- | Hy]; [lia |]. apply in_app_or in Hy.
      destruct Hy as [Hy | [<- | []]]; [specialize (Hinb y Hy) |]; lia.
  - apply Forall_forall. intros x Hx. specialize (Hina x Hx). lia.
  - apply Forall_forall. intros x Hx. specialize (Hinb x Hx). lia.
Qed.

(** C6.  Every segment-id sequence in the batch that [group_texts] returns
    is [[0] + a' + [a'[-1]+1] + b' + [b'[-1]+1]] for the renumbered origin
    ids [a'] and [b'] of two non-empty halves; it is non-decreasing, and the
    sentinels [a'[-1]+1] and [b'[-1]+1] are strictly above every id of [a']
    and of [b']. *)
Theorem group_texts_segment_ids_monotone {G : Type} `{PRNG G}
  (tokenizer : Tokenizer) (fuel : nat) (max_seq_length dupe_factor : Z)
  (examples : list tokens) (g g' : G) (results : batch) :
  group_texts tokenizer fuel max_seq_length dupe_factor examples g
  = Ok (results, g') ->
  Forall segment_ids_ok (segment_ids results).
Proof.
  unfold group_texts.
  assert (Hpass : forall n r0 g0 r1 g1,
             Forall segment_ids_ok (segment_ids r0) ->
             repeat_pass tokenizer n fuel max_seq_length examples r0 g0 = Ok (r1, g1) ->
             Forall segment_ids_ok (segment_ids r1)).
  { induction n as [| n IH]; intros r0 g0 r1 g1 Hr0 Hrun; cbn in Hrun.
    - injection Hrun as <- <-. exact Hr0.
    - apply bind_Ok in Hrun. destruct Hrun as [[r g1'] [Hone Hrest]].
      apply (IH r g1' r1 g1); [| exact Hrest].
      unfold group_pass in Hone.
      apply bind_Ok in Hone. destruct Hone as [[target g2] [_ Hone]].
      apply bind_Ok in Hone. destruct Hone as [total_chunk [_ Hone]].
      revert Hone.
      apply build_instances_ind with
        (P := fun r => Forall segment_ids_ok (segment_ids r)); [| exact Hr0].
      intros ra rb Hra Hem.
      destruct Hem as (c & a_end & ta & tb & sa & sb & rdn & g3 & cid & is_next
                       & p & p' & Hsplit & Hrel & Htrunc & Hemit).
      apply split_chunk_nondecreasing in Hsplit.
      assert (Hp : ids_nondecreasing p).
      { eapply sample_relation_nondecreasing; [| exact Hrel]. exact Hsplit. }
      destruct Hp as [Hpa Hpb].
      pose proof (truncate_seq_pair_nondecreasing _ _ _ _ _ Hpa Hpb Htrunc) as [Hqa Hqb].
      apply emit_inv in Hemit. destruct Hemit as (_ & _ & Hne_a & Hne_b & ->).
      cbn [segment_ids]. apply Forall_app. split; [exact Hra |].
      constructor; [| constructor].
      apply spec_segment_ids_ok; assumption. }
  intros Hrun. eapply Hpass; [| exact Hrun]. constructor.
Qed.

Lemma group_texts_segment_ids_monotone_witness :
  Forall segment_ids_ok [[0; 1; 1; 2; 3; 4; 4; 4; 5]].
Proof.
  exact (@group_texts_segment_ids_monotone (list Z) _ (pair_tokenizer 101 102)
           4%nat 13 1 [[1; 2]; [3]; [4; 5; 6]]
           [Script.draw_09; 0; Script.draw_09] []
           (mk_batch [[101; 1; 2; 102; 3; 4; 5; 6; 102]]
              [[0; 0; 0; 0; 1; 1; 1; 1; 1]]
              [[1; 1; 1; 1; 1; 1; 1; 1; 1]]
              [[1; 0; 0; 1; 0; 0; 0; 0; 1]]
              [SAME_ORDER]
              [[0; 1; 1; 2; 3; 4; 4; 4; 5]])
           eq_refl).
Defined.

(** ** Two runs side by side *)

Lemma result_rel_eq {A : Type} (r : Result A) : result_rel eq r r.
Proof. destruct r; cbn; auto. Qed.

Lemma result_rel_bind {A1 A2 B1 B2 : Type} (P : A1 -> A2 -> Prop)
  (Q : B1 -> B2 -> Prop) (r1 : Result A1) (r2 : Result A2)
  (k1 : A1 -> Result B1) (k2 : A2 -> Result B2) :
  result_rel P r1 r2 ->
  (forall a1 a2, P a1 a2 -> result_rel Q (k1 a1) (k2 a2)) ->
  result_rel Q (bind r1 k1) (bind r2 k2).
Proof.
  destruct r1, r2; cbn; intros Hr Hk; try contradiction; auto.
Qed.

Lemma result_rel_while {S1 S2 R1 R2 : Type} (PS : S1 -> S2 -> Prop)
  (PR : R1 -> R2 -> Prop) (body1 : S1 -> Result (control S1 R1))
  (body2 : S2 -> Result (control S2 R2)) :
  (forall s1 s2, PS s1 s2 ->
     result_rel (control_rel PS PR) (body1 s1) (body2 s2)) ->
  forall fuel s1 s2, PS s1 s2 ->
    result_rel PR (while fuel body1 s1) (while fuel body2 s2).
Proof.
  intros Hbody fuel. induction fuel as [| n IH]; intros s1 s2 Hs; cbn; [exact I |].
  apply result_rel_bind with (P := control_rel PS PR); [apply Hbody; exact Hs |].
  intros [s1' | r1] [s2' | r2]; cbn; intros Hc; try contradiction.
  - apply IH; exact Hc.
  - exact Hc.
Qed.

Section Simulation.
Context {G1 G2 : Type} `{PRNG G1} `{PRNG G2}.

(** [R] relates states of two generators that will draw the same values for
    ever after. *)
Variable R : G1 -> G2 -> Prop.
Hypothesis random_sim : forall g1 g2, R g1 g2 ->
  fst (random g1) = fst (random g2) /\ R (snd (random g1)) (snd (random g2)).
Hypothesis randint_sim : forall a b g1 g2, R g1 g2 ->
  fst (randint a b g1) = fst (randint a b g2)
  /\ R (snd (randint a b g1)) (snd (randint a b g2)).

Lemma py_randint_sim (a b : Z) (g1 : G1) (g2 : G2) :
  R g1 g2 -> result_rel (with_gen R) (py_randint a b g1) (py_randint a b g2).
Proof.
  intros Hg. unfold py_randint. destruct (a <=? b); cbn; [| reflexivity].
  apply randint_sim; exact Hg.
Qed.

Lemma truncate_body_sim (max_num_tokens : Z) (s1 : pair_state G1)
  (s2 : pair_state G2) :
  (pair_rel R) s1 s2 ->
  result_rel (control_rel (pair_rel R) (pair_rel R))
    (truncate_body max_num_tokens s1) (truncate_body max_num_tokens s2).
Proof.
  intros (Ha & Hb & Hsa & Hsb & Hg). unfold truncate_body.
  rewrite Ha, Hb, Hsa, Hsb.
  destruct (_ <=? max_num_tokens); cbn.
  { repeat split; assumption. }
  destruct (py_assert _); cbn; try reflexivity.
  destruct (random_sim Hg) as [Hr Hg'].
  destruct (random (ps_gen s1)) as [r1 g1'], (random (ps_gen s2)) as [r2 g2'].
  cbn [fst snd] in Hr, Hg'. subst r2.
  destruct (Qltb r1 one_half);
    destruct (pick _ (ps_tokens_a s2) (ps_tokens_b s2)); cbn; try reflexivity;
    destruct (pick _ (ps_a_segment_ids s2) (ps_b_segment_ids s2)); cbn;
    try reflexivity; repeat split; assumption.
Qed.

Lemma truncate_seq_pair_sim (fuel : nat) (a b : tokens) (max_num_tokens : Z)
  (sa sb : list Z) (g1 : G1) (g2 : G2) :
  R g1 g2 ->
  result_rel (pair_rel R)
    (truncate_seq_pair fuel a b max_num_tokens sa sb g1)
    (truncate_seq_pair fuel a b max_num_tokens sa sb g2).
Proof.
  intros Hg. unfold truncate_seq_pair.
  apply result_rel_while with (PS := (pair_rel R)).
  - intros s1 s2 Hs. apply truncate_body_sim; exact Hs.
  - repeat split; assumption.
Qed.

Lemma pick_rid_sim (fuel : nat) (total_chunk : list chunk) (chunk_id : Z)
  (g1 : G1) (g2 : G2) :
  R g1 g2 ->
  result_rel (with_gen R) (pick_rid fuel total_chunk chunk_id g1)
    (pick_rid fuel total_chunk chunk_id g2).
Proof.
  intros Hg. unfold pick_rid.
  apply result_rel_while with (PS := R); [| exact Hg].
  intros s1 s2 Hs. unfold pick_rid_body.
  apply result_rel_bind with (P := (with_gen R)); [apply py_randint_sim; exact Hs |].
  intros [rid1 g1'] [rid2 g2'] [Hrid Hg']. cbn [fst snd] in Hrid, Hg'. subst rid2.
  destruct (negb (rid1 =? chunk_id)); cbn; [split; [reflexivity | exact Hg'] | exact Hg'].
Qed.

Lemma sample_relation_sim (fuel : nat) (rdn : Q) (total_chunk : list chunk)
  (chunk_id : Z) (p1 : pair_state G1) (p2 : pair_state G2) :
  (pair_rel R) p1 p2 ->
  result_rel (fun x1 x2 => fst x1 = fst x2 /\ (pair_rel R) (snd x1) (snd x2))
    (sample_relation fuel rdn total_chunk chunk_id p1)
    (sample_relation fuel rdn total_chunk chunk_id p2).
Proof.
  intros (Ha & Hb & Hsa & Hsb & Hg). unfold sample_relation.
  destruct (Qltb rdn one_third); cbn.
  { repeat split; assumption. }
  destruct (Qltb rdn two_thirds && (len total_chunk >? 1)); cbn.
  2:{ repeat split; assumption. }
  apply result_rel_bind with (P := (with_gen R)); [apply pick_rid_sim; exact Hg |].
  intros [rid1 g1'] [rid2 g2'] [Hrid Hg']. cbn [fst snd] in Hrid, Hg'. subst rid2.
  destruct (py_getitem total_chunk rid1); cbn; try reflexivity.
  repeat split; assumption.
Qed.

Lemma emit_sim (tokenizer : Tokenizer) (results : batch) (is_next : Z)
  (p1 : pair_state G1) (p2 : pair_state G2) :
  (pair_rel R) p1 p2 ->
  result_rel eq (emit tokenizer results is_next p1)
    (emit tokenizer results is_next p2).
Proof.
  intros (Ha & Hb & Hsa & Hsb & _). unfold emit.
  rewrite Ha, Hb, Hsa, Hsb. apply result_rel_eq.
Qed.

Lemma choose_a_end_sim (current_chunk : chunk) (g1 : G1) (g2 : G2) :
  R g1 g2 ->
  result_rel (with_gen R) (choose_a_end current_chunk g1)
    (choose_a_end current_chunk g2).
Proof.
  intros Hg. unfold choose_a_end. destruct (_ >=? 2).
  - apply py_randint_sim; exact Hg.
  - cbn. split; [reflexivity | exact Hg].
Qed.

Lemma build_body_sim (tokenizer : Tokenizer) (fuel : nat) (examples : list tokens)
  (max_num_tokens target : Z) (total_chunk : list chunk)
  (s1 : build_state G1) (s2 : build_state G2) :
  (build_rel R) s1 s2 ->
  result_rel (control_rel (build_rel R) (build_rel R))
    (build_body tokenizer fuel examples max_num_tokens target total_chunk s1)
    (build_body tokenizer fuel examples max_num_tokens target total_chunk s2).
Proof.
  intros (Hi & Hc & Hl & Hid & Hres & Hg). unfold build_body.
  rewrite Hi, Hc, Hl, Hid, Hres.
  destruct (bs_i s2 <? len examples); cbn.
  2:{ repeat split; assumption. }
  destruct (py_getitem examples (bs_i s2)) as [seg | e | ]; cbn [bind]; try reflexivity.
  destruct (is_empty seg); cbn.
  { repeat split; assumption. }
  destruct (_ || _); cbn.
  2:{ repeat split; assumption. }
  destruct (is_empty (bs_current_chunk s2 ++ [seg])); cbn.
  { repeat split; assumption. }
  apply result_rel_bind with (P := (with_gen R)); [apply choose_a_end_sim; exact Hg |].
  intros [a_end g1'] [a_end2 g2'] [Hend Hg']. cbn [fst snd] in Hend, Hg'. subst a_end2.
  destruct (split_chunk _ a_end) as [[[ta sa] [tb sb]] | e | ]; cbn [bind];
    try reflexivity.
  destruct (_ || _); cbn.
  { repeat split; assumption. }
  destruct (random_sim Hg') as [Hr Hg''].
  destruct (random g1') as [r1 g1''], (random g2') as [r2 g2''].
  cbn [fst snd] in Hr, Hg''. subst r2.
  apply result_rel_bind with
    (P := fun x1 x2 => fst x1 = fst x2 /\ (pair_rel R) (snd x1) (snd x2)).
  { apply sample_relation_sim. repeat split; assumption. }
  intros [is_next p1] [is_next2 p2] [Hn Hp]. cbn [fst snd] in Hn, Hp. subst is_next2.
  pose proof Hp as (Ha & Hb & Hsa & Hsb & Hpg). rewrite Ha, Hb, Hsa, Hsb.
  apply result_rel_bind with (P := (pair_rel R)).
  { apply truncate_seq_pair_sim. exact Hpg. }
  intros q1 q2 Hq.
  apply result_rel_bind with (P := eq); [apply emit_sim; exact Hq |].
  intros r1' r2' <-. cbn. destruct Hq as (_ & _ & _ & _ & Hqg).
  repeat split; assumption.
Qed.

Lemma build_instances_sim (tokenizer : Tokenizer) (fuel : nat)
  (examples : list tokens) (max_num_tokens target : Z)
  (total_chunk : list chunk) (results : batch) (g1 : G1) (g2 : G2) :
  R g1 g2 ->
  result_rel (with_gen R)
    (build_instances tokenizer fuel examples max_num_tokens target total_chunk
       results g1)
    (build_instances tokenizer fuel examples max_num_tokens target total_chunk
       results g2).
Proof.
  intros Hg. unfold build_instances.
  apply result_rel_bind with (P := (build_rel R)).
  - apply result_rel_while with (PS := (build_rel R)).
    + intros s1 s2 Hs. apply build_body_sim; exact Hs.
    + repeat split; assumption.
  - intros s1 s2 (_ & _ & _ & _ & Hres & Hsg). cbn. split; assumption.
Qed.

Lemma sample_target_sim (max_num_tokens : Z) (g1 : G1) (g2 : G2) :
  R g1 g2 ->
  result_rel (with_gen R) (sample_target max_num_tokens g1)
    (sample_target max_num_tokens g2).
Proof.
  intros Hg. unfold sample_target.
  destruct (random_sim Hg) as [Hr Hg'].
  destruct (random g1) as [r1 g1'], (random g2) as [r2 g2'].
  cbn [fst snd] in Hr, Hg'. subst r2.
  destruct (Qltb r1 short_seq_prob).
  - apply py_randint_sim; exact Hg'.
  - cbn. split; [reflexivity | exact Hg'].
Qed.

Lemma group_pass_sim (tokenizer : Tokenizer) (fuel : nat) (max_seq_length : Z)
  (examples : list tokens) (results : batch) (g1 : G1) (g2 : G2) :
  R g1 g2 ->
  result_rel (with_gen R)
    (group_pass tokenizer fuel max_seq_length examples results g1)
    (group_pass tokenizer fuel max_seq_length examples results g2).
Proof.
  intros Hg. unfold group_pass.
  apply result_rel_bind with (P := (with_gen R)); [apply sample_target_sim; exact Hg |].
  intros [t1 g1'] [t2 g2'] [Ht Hg']. cbn [fst snd] in Ht, Hg'. subst t2.
  destruct (get_all_chunk fuel examples t1); cbn [bind]; try reflexivity.
  apply build_instances_sim; exact Hg'.
Qed.

Lemma repeat_pass_sim (tokenizer : Tokenizer) (n fuel : nat) (max_seq_length : Z)
  (examples : list tokens) (results : batch) (g1 : G1) (g2 : G2) :
  R g1 g2 ->
  result_rel (with_gen R)
    (repeat_pass tokenizer n fuel max_seq_length examples results g1)
    (repeat_pass tokenizer n fuel max_seq_length examples results g2).
Proof.
  revert results g1 g2. induction n as [| n IH]; intros results g1 g2 Hg; cbn.
  - split; [reflexivity | exact Hg].
  - apply result_rel_bind with (P := (with_gen R)); [apply group_pass_sim; exact Hg |].
    intros [r1 g1'] [r2 g2'] [Hr Hg']. cbn [fst snd] in Hr, Hg'. subst r2.
    apply IH; exact Hg'.
Qed.
End Simulation.

(** C9.  Two invocations of [group_texts] on the same batch with the same
    parameters, started from generator states that yield the same draws (in
    particular from one and the same state), end alike: both return, with
    batches equal in every field and generator states that again yield the
    same draws, or both raise the same exception, or both exhaust the same
    fuel. *)
Theorem group_texts_deterministic {G1 G2 : Type} `{PRNG G1} `{PRNG G2}
  (R : G1 -> G2 -> Prop) (tokenizer : Tokenizer) (fuel : nat)
  (max_seq_length dupe_factor : Z) (examples : list tokens)
  (g1 : G1) (g2 : G2) :
  (forall g1 g2, R g1 g2 ->
     fst (random g1) = fst (random g2) /\ R (snd (random g1)) (snd (random g2))) ->
  (forall a b g1 g2, R g1 g2 ->
     fst (randint a b g1) = fst (randint a b g2)
     /\ R (snd (randint a b g1)) (snd (randint a b g2))) ->
  R g1 g2 ->
  result_rel (fun x1 x2 => fst x1 = fst x2 /\ R (snd x1) (snd x2))
    (group_texts tokenizer fuel max_seq_length dupe_factor examples g1)
    (group_texts tokenizer fuel max_seq_length dupe_factor examples g2).
Proof.
  intros Hrandom Hrandint Hg. unfold group_texts.
  apply (repeat_pass_sim R Hrandom Hrandint). exact Hg.
Qed.

Lemma group_texts_deterministic_witness :
  result_rel (fun x1 x2 : batch * list Z => fst x1 = fst x2 /\ snd x1 = snd x2)
    (group_texts (pair_tokenizer 101 102) 4 13 2 [[1; 2]; [3]; [4; 5; 6]]
       [Script.draw_09; 0; Script.draw_09; Script.draw_09; 1; Script.draw_low])
    (group_texts (pair_tokenizer 101 102) 4 13 2 [[1; 2]; [3]; [4; 5; 6]]
       [Script.draw_09; 0; Script.draw_09; Script.draw_09; 1; Script.draw_low]).
Proof.
  apply (@group_texts_deterministic (list Z) (list Z) _ _ eq).
  - intros g1 g2 Hg. rewrite Hg. split; reflexivity.
  - intros a b g1 g2 Hg. rewrite Hg. split; reflexivity.
  - reflexivity.
Defined.

(* ================================================================== *)
(** * Further properties of the code *)

(** ** The split of a chunk *)

Lemma ids_from_cons (k : nat) (seg : tokens) (segs : list tokens) :
  ids_from k (seg :: segs)
  = repeat (Z.of_nat k) (length seg) ++ ids_from (S k) segs.
Proof. reflexivity. Qed.

Lemma ids_from_app (k : nat) (l1 l2 : list tokens) :
  ids_from k (l1 ++ l2) = ids_from k l1 ++ ids_from (k + length l1) l2.
Proof.
  revert k. induction l1 as [| seg l1 IH]; intros k.
  - cbn [app length]. rewrite Nat.add_0_r. reflexivity.
  - cbn [app]. rewrite !ids_from_cons, IH, app_assoc. cbn [length].
    rewrite Nat.add_succ_r. reflexivity.
Qed.

Lemma ids_from_length (k : nat) (segs : list tokens) :
  length (ids_from k segs) = length (concat segs).
Proof.
  revert k. induction segs as [| seg segs IH]; intros k; [reflexivity |].
  rewrite ids_from_cons. cbn [concat]. rewrite !length_app, repeat_length, IH.
  reflexivity.
Qed.

Lemma chunk_segment_ids_ids_from (c : chunk) : chunk_segment_ids c = ids_from 0 c.
Proof. unfold chunk_segment_ids, enumerate, ids_from. apply py_sum_concat. Qed.

Lemma py_getitem_nat {A : Type} (l : list A) (n : nat) :
  py_getitem l (Z.of_nat n)
  = match nth_error l n with Some x => Ok x | None => Raise IndexError end.
Proof.
  unfold py_getitem.
  destruct (Z.leb_spec 0 (Z.of_nat n)) as [_ | Hneg]; [| lia].
  destruct (Z.ltb_spec (Z.of_nat n) 0) as [Hneg | _]; [lia |].
  rewrite Nat2Z.id. reflexivity.
Qed.

(** A loop over [range(s, s + m)] inside the chunk appends the tokens of the
    segments [s .. s+m-1] and, for each of them, its index once per token. *)
Lemma extend_segments_range (current_chunk : chunk) (m s : nat)
  (toks : tokens) (ids : list Z) :
  (s + m <= length current_chunk)%nat ->
  extend_segments current_chunk
    (map (fun k => Z.of_nat s + Z.of_nat k) (seq 0 m)) toks ids
  = Ok (toks ++ concat (firstn m (skipn s current_chunk)),
        ids ++ ids_from s (firstn m (skipn s current_chunk))).
Proof.
  revert s toks ids. induction m as [| m IH]; intros s toks ids Hle.
  - cbn. rewrite !app_nil_r. reflexivity.
  - rewrite <- cons_seq, <- seq_shift. cbn [map extend_segments].
    rewrite map_map, Z.add_0_r, py_getitem_nat.
    destruct (nth_error current_chunk s) as [seg |] eqn:Hn.
    2:{ apply nth_error_None in Hn. lia. }
    cbn [bind].
    assert (Hskip : skipn s current_chunk = seg :: skipn (S s) current_chunk).
    { clear - Hn. revert s Hn. induction current_chunk as [| x c IHc]; intros [| s] Hn;
        cbn in *; try discriminate.
      - injection Hn as ->. reflexivity.
      - apply IHc. exact Hn. }
    rewrite (map_ext _ (fun k => Z.of_nat (S s) + Z.of_nat k)) by (intros; lia).
    rewrite IH by lia. rewrite Hskip. cbn [firstn concat].
    rewrite ids_from_cons, !app_assoc. reflexivity.
Qed.

(** The split at a point inside the chunk, in closed form. *)
Lemma split_chunk_eq (current_chunk : chunk) (a_end : Z) :
  0 <= a_end <= len current_chunk ->
  split_chunk current_chunk a_end
  = Ok (concat (firstn (Z.to_nat a_end) current_chunk),
        ids_from 0 (firstn (Z.to_nat a_end) current_chunk),
        (concat (skipn (Z.to_nat a_end) current_chunk),
         ids_from (Z.to_nat a_end) (skipn (Z.to_nat a_end) current_chunk))).
Proof.
  intros [Hlo Hhi]. unfold len in Hhi. set (n := Z.to_nat a_end).
  assert (Hn : (n <= length current_chunk)%nat) by lia.
  unfold split_chunk, py_range.
  replace (Z.to_nat (a_end - 0)) with n by lia.
  replace (Z.to_nat (len current_chunk - a_end)) with (length current_chunk - n)%nat
    by (unfold len; lia).
  rewrite (map_ext (fun k => 0 + Z.of_nat k) (fun k => Z.of_nat 0 + Z.of_nat k))
    by reflexivity.
  rewrite extend_segments_range by (cbn; exact Hn). cbn [bind skipn app].
  rewrite (map_ext (fun k => a_end + Z.of_nat k) (fun k => Z.of_nat n + Z.of_nat k))
    by (intros; lia).
  rewrite extend_segments_range by lia. cbn [bind app].
  rewrite (firstn_all2 (n := length current_chunk - n)) by (rewrite length_skipn; lia).
  reflexivity.
Qed.

(** X1.  Length conservation.  For a split point inside the chunk the split
    returns; A is the concatenation of the first [a_end] segments and B of the
    others, so that A followed by B is the whole chunk; and the two id lists,
    one after the other, number the tokens of the chunk by segment, each as
    long as its token list. *)
Theorem split_chunk_conserves (current_chunk : chunk) (a_end : Z) :
  0 <= a_end <= len current_chunk ->
  exists ta sa tb sb,
    split_chunk current_chunk a_end = Ok (ta, sa, (tb, sb))
    /\ ta = py_sum (firstn (Z.to_nat a_end) current_chunk)
    /\ tb = py_sum (skipn (Z.to_nat a_end) current_chunk)
    /\ ta ++ tb = py_sum current_chunk
    /\ sa ++ sb = chunk_segment_ids current_chunk
    /\ length sa = length ta /\ length sb = length tb.
Proof.
  intros Hin. pose proof (split_chunk_eq current_chunk Hin) as Heq.
  destruct Hin as [Hlo Hhi]. unfold len in Hhi. set (n := Z.to_nat a_end) in *.
  assert (Hn : (n <= length current_chunk)%nat) by lia.
  do 4 eexists. split; [exact Heq |].
  rewrite !py_sum_concat, chunk_segment_ids_ids_from.
  repeat split.
  - rewrite <- concat_app, firstn_skipn. reflexivity.
  - rewrite <- (firstn_skipn n current_chunk) at 3.
    rewrite ids_from_app, length_firstn, Nat.min_l by exact Hn. reflexivity.
  - apply ids_from_length.
  - apply ids_from_length.
Qed.

Lemma split_chunk_conserves_witness :
  exists ta sa tb sb,
    split_chunk [[1; 2]; [3]; [4; 5; 6]] 1 = Ok (ta, sa, (tb, sb))
    /\ ta ++ tb = [1; 2; 3; 4; 5; 6]
    /\ sa ++ sb = [0; 0; 1; 2; 2; 2].
Proof.
  assert (Hin : 0 <= 1 <= len [[1; 2]; [3]; [4; 5; 6]]) by (cbn; lia).
  destruct (@split_chunk_conserves [[1; 2]; [3]; [4; 5; 6]] 1 Hin)
    as (ta & sa & tb & sb & Hs & _ & _ & Htok & Hids & _).
  exists ta, sa, tb, sb. repeat split; assumption.
Defined.

(** ** What the chunking loop keeps and what it drops *)

Lemma total_tokens_snoc (segs : list tokens) (seg : tokens) :
  total_tokens (segs ++ [seg]) = total_tokens segs + len seg.
Proof.
  unfold total_tokens, len. rewrite concat_app, length_app. cbn [concat].
  rewrite app_nil_r. lia.
Qed.

Lemma firstn_succ_nth {A : Type} (l : list A) (k : nat) (x : A) :
  nth_error l k = Some x -> firstn (S k) l = firstn k l ++ [x].
Proof.
  revert k. induction l as [| y l IH]; intros [| k] Hn; cbn in *; try discriminate.
  - injection Hn as ->. reflexivity.
  - rewrite (IH k Hn). reflexivity.
Qed.

(** The three ways in which a pass of the chunking loop goes round again. *)
Lemma get_all_chunk_body_continue (examples : list tokens) (target : Z)
  (s s' : chunk_state) :
  0 <= cs_i s ->
  get_all_chunk_body examples target s = Ok (Continue s') ->
  exists seg,
    nth_error examples (Z.to_nat (cs_i s)) = Some seg
    /\ cs_i s < len examples
    /\ cs_i s' = cs_i s + 1
    /\ ((seg = []
         /\ cs_current_chunk s' = cs_current_chunk s
         /\ cs_current_length s' = cs_current_length s
         /\ cs_total_chunk s' = cs_total_chunk s)
        \/ (seg <> []
            /\ (cs_i s = len examples - 1
                \/ target <= cs_current_length s + len seg)
            /\ cs_current_chunk s' = [] /\ cs_current_length s' = 0
            /\ cs_total_chunk s' = cs_total_chunk s ++ [cs_current_chunk s ++ [seg]])
        \/ (seg <> []
            /\ cs_i s <> len examples - 1
            /\ cs_current_length s + len seg < target
            /\ cs_current_chunk s' = cs_current_chunk s ++ [seg]
            /\ cs_current_length s' = cs_current_length s + len seg
            /\ cs_total_chunk s' = cs_total_chunk s)).
Proof.
  intros Hi Hc. unfold get_all_chunk_body in Hc.
  destruct (Z.ltb_spec (cs_i s) (len examples)) as [Hlt | Hge]; [| discriminate].
  rewrite <- (Z2Nat.id (cs_i s)) in Hc at 1 by exact Hi. rewrite py_getitem_nat in Hc.
  destruct (nth_error examples (Z.to_nat (cs_i s))) as [seg |]; cbn [bind] in Hc;
    [| discriminate].
  exists seg. split; [reflexivity |]. split; [exact Hlt |].
  destruct seg as [| x seg]; cbn [is_empty] in Hc.
  - injection Hc as <-; cbn. split; [reflexivity |]. left. repeat split.
  - destruct (Z.eqb_spec (cs_i s) (len examples - 1)) as [Hlast | Hnot];
      destruct (Z.geb_spec (cs_current_length s + len (x :: seg)) target) as [Hlen | Hlen];
      cbn [orb] in Hc; try rewrite is_empty_snoc in Hc;
      injection Hc as <-;
      cbn [cs_i cs_current_chunk cs_current_length cs_total_chunk];
      (split; [reflexivity |]); right;
      try (left; repeat split; try discriminate; auto; lia);
      right; repeat split; try discriminate; lia.
Qed.

Lemma get_all_chunk_body_break (examples : list tokens) (target : Z)
  (s : chunk_state) (r : list chunk) :
  get_all_chunk_body examples target s = Ok (Break r) ->
  len examples <= cs_i s /\ r = cs_total_chunk s.
Proof.
  unfold get_all_chunk_body.
  destruct (Z.ltb_spec (cs_i s) (len examples)) as [Hlt | Hge].
  - destruct (py_getitem examples (cs_i s)) as [seg | e | ]; cbn [bind]; try discriminate.
    destruct (is_empty seg); [discriminate |]. destruct (_ || _); discriminate.
  - intros Hb; injection Hb as <-. split; [exact Hge | reflexivity].
Qed.

Lemma nth_error_last {A : Type} (l : list A) (d x : A) :
  nth_error l (length l - 1) = Some x -> last l d = x.
Proof.
  induction l as [| y l IH]; cbn [length]; intros Hn; [discriminate |].
  destruct l as [| z l].
  - cbn in Hn. injection Hn as ->. reflexivity.
  - change (last (y :: z :: l) d) with (last (z :: l) d). apply IH.
    replace (S (length (z :: l)) - 1)%nat with (S (length (z :: l) - 1)) in Hn
      by (cbn [length]; lia).
    exact Hn.
Qed.

Section ChunkingInvariant.
Variables (examples : list tokens) (target : Z).

Lemma chunking_inv_init : chunking_inv examples target (mk_chunk_state 0 [] 0 []).
Proof.
  unfold chunking_inv; cbn. pose proof (len_nonneg examples).
  repeat split; auto; try lia; try constructor.
Qed.

Lemma chunking_inv_step (s s' : chunk_state) :
  chunking_inv examples target s ->
  get_all_chunk_body examples target s = Ok (Continue s') ->
  chunking_inv examples target s'.
Proof.
  intros (Hi & Hpart & Hlen & Hsmall & Hlast & Hgreedy & Hreach & Hreach') Hc.
  apply get_all_chunk_body_continue in Hc; [| lia].
  destruct Hc as (seg & Hnth & Hlt & Hi' & Hcases).
  assert (Hfirst : firstn (Z.to_nat (cs_i s')) examples
                   = firstn (Z.to_nat (cs_i s)) examples ++ [seg]).
  { rewrite Hi'. replace (Z.to_nat (cs_i s + 1)) with (S (Z.to_nat (cs_i s))) by lia.
    apply firstn_succ_nth. exact Hnth. }
  assert (Hend : cs_i s' = len examples -> last examples [] = seg).
  { intros Hn. apply nth_error_last.
    replace (length examples - 1)%nat with (Z.to_nat (cs_i s)); [exact Hnth |].
    unfold len in Hn. lia. }
  unfold chunking_inv. rewrite Hfirst, filter_app, Hpart. cbn [filter].
  split; [lia |].
  destruct Hcases as [(-> & Hc' & Hl' & Ht') | [(Hne & Hflush & Hc' & Hl' & Ht')
                                                | (Hne & Hnl & Hroom & Hc' & Hl' & Ht')]];
    rewrite Hc', Ht', ?Hl'.
  - cbn. rewrite app_nil_r. repeat split; auto.
    intros Hn Hnot. exfalso. apply Hnot. apply Hend. exact Hn.
  - assert (Hb : nonempty seg = true) by (destruct seg; [contradiction | reflexivity]).
    rewrite Hb, concat_app. cbn [concat]. rewrite !app_nil_r, !app_assoc.
    repeat split; auto.
    + intros Hpos. apply Forall_app. split; [apply Hgreedy; exact Hpos |].
      constructor; [| constructor]. rewrite removelast_last.
      destruct Hsmall as [-> | Hs]; [exact Hpos | exact Hs].
    + intros Hn. apply Forall_app. split; [apply Hreach; lia |].
      constructor; [| constructor]. rewrite total_tokens_snoc, <- Hlen. lia.
    + rewrite removelast_last. apply Hreach. exact Hlt.
  - assert (Hb : nonempty seg = true) by (destruct seg; [contradiction | reflexivity]).
    rewrite Hb, !app_assoc. repeat split; auto.
    + rewrite total_tokens_snoc, Hlen. reflexivity.
    + right. rewrite total_tokens_snoc, <- Hlen. exact Hroom.
    + intros Hn. exfalso. lia.
Qed.

Lemma get_all_chunk_inv (fuel : nat) (total_chunk : list chunk) :
  get_all_chunk fuel examples target = Ok total_chunk ->
  exists s, chunking_inv examples target s /\ cs_i s = len examples
            /\ cs_total_chunk s = total_chunk.
Proof.
  unfold get_all_chunk.
  apply while_ind with (I := chunking_inv examples target)
    (P := fun r => exists s, chunking_inv examples target s /\ cs_i s = len examples
                             /\ cs_total_chunk s = r).
  - apply chunking_inv_step.
  - intros s r Hs Hb. apply get_all_chunk_body_break in Hb. destruct Hb as [Hge ->].
    exists s. split; [exact Hs |]. split; [| reflexivity].
    destruct Hs as (Hi & _). lia.
  - apply chunking_inv_init.
Qed.
End ChunkingInvariant.

(** X2.  The chunks, one after the other, are the non-empty segments of the batch
    in their order, up to a tail that was buffered and never flushed.  That
    tail holds fewer tokens than the target, and there is none when the last
    segment of the batch is not empty. *)
Theorem get_all_chunk_partition (fuel : nat) (examples : list tokens) (target : Z)
  (total_chunk : list chunk) :
  get_all_chunk fuel examples target = Ok total_chunk ->
  exists leftover : list tokens,
    filter nonempty examples = concat total_chunk ++ leftover
    /\ (leftover = [] \/ total_tokens leftover < target)
    /\ (last examples [] <> [] -> leftover = []).
Proof.
  intros Hrun. apply get_all_chunk_inv in Hrun.
  destruct Hrun as (s & (Hi & Hpart & _ & Hsmall & Hlast & _) & Hend & <-).
  exists (cs_current_chunk s). split; [| split].
  - rewrite <- Hpart, Hend. unfold len. rewrite Nat2Z.id, firstn_all. reflexivity.
  - exact Hsmall.
  - apply Hlast. exact Hend.
Qed.

Lemma get_all_chunk_partition_witness :
  exists leftover : list tokens,
    filter nonempty [[1; 2]; []; [3]; [4; 5]; [6]; []]
    = concat [[[1; 2]]; [[3]; [4; 5]]] ++ leftover
    /\ (leftover = [] \/ total_tokens leftover < 2).
Proof.
  destruct (@get_all_chunk_partition 7%nat [[1; 2]; []; [3]; [4; 5]; [6]; []] 2
              [[[1; 2]]; [[3]; [4; 5]]] eq_refl) as (leftover & Hpart & Hsmall & _).
  exists leftover. split; assumption.
Defined.

(** X3.  With a positive target the chunking is greedy: every chunk but the last
    holds at least [target_seq_length] tokens, and no chunk does so before
    its last segment. *)
Theorem get_all_chunk_sizes (fuel : nat) (examples : list tokens) (target : Z)
  (total_chunk : list chunk) :
  0 < target ->
  get_all_chunk fuel examples target = Ok total_chunk ->
  Forall (fun c => target <= total_tokens c) (removelast total_chunk)
  /\ Forall (fun c => total_tokens (removelast c) < target) total_chunk.
Proof.
  intros Hpos Hrun. apply get_all_chunk_inv in Hrun.
  destruct Hrun as (s & (_ & _ & _ & _ & _ & Hgreedy & _ & Hreach) & _ & <-).
  split; [exact Hreach | apply Hgreedy; exact Hpos].
Qed.

Lemma get_all_chunk_sizes_witness :
  Forall (fun c => 2 <= total_tokens c) (removelast [[[1; 2]]; [[3]; [4; 5]]; [[6]]])
  /\ Forall (fun c => total_tokens (removelast c) < 2) [[[1; 2]]; [[3]; [4; 5]]; [[6]]].
Proof.
  exact (@get_all_chunk_sizes 7%nat [[1; 2]; []; [3]; [4; 5]; []; [6]] 2
           [[[1; 2]]; [[3]; [4; 5]]; [[6]]] eq_refl eq_refl).
Defined.

(** ** What truncation leaves *)

Section TruncateResult.
Context {G : Type} `{PRNG G}.
Variables (a b : tokens) (max_num_tokens : Z) (sa sb : list Z).

(** The pass, on the token lists alone: which list lost an element. *)
Lemma truncate_body_tokens (s s' : pair_state G) :
  truncate_body max_num_tokens s = Ok (Continue s') ->
  max_num_tokens < len (ps_tokens_a s) + len (ps_tokens_b s)
  /\ ((len (ps_tokens_b s) < len (ps_tokens_a s)
       /\ ps_tokens_b s' = ps_tokens_b s
       /\ len (ps_tokens_a s') = len (ps_tokens_a s) - 1)
      \/ (len (ps_tokens_a s) <= len (ps_tokens_b s)
          /\ ps_tokens_a s' = ps_tokens_a s
          /\ len (ps_tokens_b s') = len (ps_tokens_b s) - 1)).
Proof.
  intros Hc. apply truncate_body_continue in Hc.
  destruct Hc as (Hgt & Hne & _ & Htok & _). split; [exact Hgt |].
  pose proof (length_drop_end (Qltb (fst (random (ps_gen s))) one_half) Hne) as Hl.
  unfold trunc_target in *.
  destruct (Z.gtb_spec (len (ps_tokens_a s)) (len (ps_tokens_b s))) as [Hab | Hab];
    cbn [pick put] in *; injection Htok as Ea Eb; [left | right];
    (split; [lia |]); (split; [assumption |]); unfold len; rewrite ?Ea, ?Eb; lia.
Qed.

(** X4.  The number of tokens left is the smaller of the number handed in and
    [max_num_tokens]: nothing is removed from a pair that fits, and a pair
    that does not fit is cut to the budget exactly. *)
Theorem truncate_seq_pair_total (fuel : nat) (g : G) (p : pair_state G) :
  truncate_seq_pair fuel a b max_num_tokens sa sb g = Ok p ->
  len (ps_tokens_a p) + len (ps_tokens_b p) = Z.min (len a + len b) max_num_tokens
  /\ (len a + len b <= max_num_tokens -> p = mk_pair a b sa sb g).
Proof.
  unfold truncate_seq_pair.
  apply while_ind with
    (I := fun s => Z.min (len (ps_tokens_a s) + len (ps_tokens_b s)) max_num_tokens
                   = Z.min (len a + len b) max_num_tokens
                   /\ (len a + len b <= max_num_tokens -> s = mk_pair a b sa sb g))
    (P := fun p => len (ps_tokens_a p) + len (ps_tokens_b p)
                   = Z.min (len a + len b) max_num_tokens
                   /\ (len a + len b <= max_num_tokens -> p = mk_pair a b sa sb g)).
  - intros s s' [Hmin Hfit] Hc. apply truncate_body_tokens in Hc.
    destruct Hc as [Hgt Hside]. split; [| intros Hle; exfalso].
    + destruct Hside as [(_ & -> & Hl) | (_ & -> & Hl)]; lia.
    + rewrite (Hfit Hle) in Hgt. cbn in Hgt. lia.
  - intros s r [Hmin Hfit] Hb. apply truncate_body_break in Hb.
    destruct Hb as [-> Hle]. split; [lia | exact Hfit].
  - cbn. split; [reflexivity | reflexivity].
Qed.

(** X5.  Truncation does not trim the shorter list: once [tokens_a] has lost an
    element it keeps at least as many as [tokens_b], and once [tokens_b] has
    lost one it keeps at least as many as [tokens_a] less one; two lists
    that were both trimmed differ in length by at most one. *)
Theorem truncate_seq_pair_balanced (fuel : nat) (g : G) (p : pair_state G) :
  truncate_seq_pair fuel a b max_num_tokens sa sb g = Ok p ->
  (ps_tokens_a p = a \/ len (ps_tokens_b p) <= len (ps_tokens_a p))
  /\ (ps_tokens_b p = b \/ len (ps_tokens_a p) <= len (ps_tokens_b p) + 1).
Proof.
  unfold truncate_seq_pair.
  apply while_ind with
    (I := fun s =>
            (ps_tokens_a s = a \/ len (ps_tokens_b s) <= len (ps_tokens_a s))
            /\ (ps_tokens_b s = b \/ len (ps_tokens_a s) <= len (ps_tokens_b s) + 1))
    (P := fun s =>
            (ps_tokens_a s = a \/ len (ps_tokens_b s) <= len (ps_tokens_a s))
            /\ (ps_tokens_b s = b \/ len (ps_tokens_a s) <= len (ps_tokens_b s) + 1)).
  - intros s s' [Ha Hb] Hc. apply truncate_body_tokens in Hc.
    destruct Hc as [_ [(Hlt & Eb & Hl) | (Hle & Ea & Hl)]].
    + rewrite Eb. split; [right; lia |].
      destruct Hb as [Hb | Hb]; [left; exact Hb | right; lia].
    + rewrite Ea. split; [| right; lia].
      destruct Ha as [Ha | Ha]; [left; exact Ha | right; lia].
  - intros s r Hs Hb. apply truncate_body_break in Hb. destruct Hb as [-> _]. exact Hs.
  - cbn. split; left; reflexivity.
Qed.
End TruncateResult.

Lemma same_cut_refl (l : tokens) (i : list Z) : same_cut l l i i.
Proof.
  exists [], [], [], []. cbn. rewrite !app_nil_r. repeat split.
Qed.

Lemma same_cut_drop_end (front : bool) (l l' : tokens) (i i' : list Z) :
  same_cut l l' i i' -> l' <> [] -> i' <> [] ->
  same_cut l (drop_end front l') i (drop_end front i').
Proof.
  intros (pre & suf & pre' & suf' & -> & -> & Hp & Hs) Hl Hi.
  destruct front; cbn [drop_end].
  - destruct l' as [| x t]; [contradiction |]. destruct i' as [| y u]; [contradiction |].
    exists (pre ++ [x]), suf, (pre' ++ [y]), suf'. cbn [tl].
    rewrite <- !app_assoc. cbn [app]. repeat split; auto.
    rewrite !length_app, Hp. reflexivity.
  - destruct (exists_last Hl) as [t [x ->]]. destruct (exists_last Hi) as [u [y ->]].
    rewrite !removelast_last.
    exists pre, (x :: suf), pre', (y :: suf').
    rewrite <- !app_assoc. cbn [app length]. repeat split; auto.
Qed.

(** X6.  Called on id lists as long as their token lists, truncation returns
    contiguous runs of the four lists it was given, and each id list is cut
    at the same positions as its token list: a token that survives keeps its
    origin id. *)
Theorem truncate_seq_pair_same_cut {G : Type} `{PRNG G} (fuel : nat) (a b : tokens)
  (max_num_tokens : Z) (sa sb : list Z) (g : G) (p : pair_state G) :
  length sa = length a -> length sb = length b ->
  truncate_seq_pair fuel a b max_num_tokens sa sb g = Ok p ->
  same_cut a (ps_tokens_a p) sa (ps_a_segment_ids p)
  /\ same_cut b (ps_tokens_b p) sb (ps_b_segment_ids p)
  /\ aligned p.
Proof.
  intros Hsa Hsb. unfold truncate_seq_pair.
  set (J := fun s : pair_state G =>
              same_cut a (ps_tokens_a s) sa (ps_a_segment_ids s)
              /\ same_cut b (ps_tokens_b s) sb (ps_b_segment_ids s)
              /\ aligned s).
  apply while_ind with (I := J) (P := J).
  - intros s s' (Ha & Hb & Hal) Hc.
    pose proof (truncate_body_keeps_aligned _ Hal Hc) as Hal'.
    apply truncate_body_continue in Hc.
    destruct Hc as (_ & Hne & Hni & Htok & Hids & _).
    assert (Hti : trunc_target (ps_a_segment_ids s) (ps_b_segment_ids s)
                  = trunc_target (ps_tokens_a s) (ps_tokens_b s)).
    { destruct Hal as [E1 E2]. unfold trunc_target, len. rewrite E1, E2. reflexivity. }
    rewrite Hti in *.
    unfold J. destruct (trunc_target (ps_tokens_a s) (ps_tokens_b s));
      cbn [pick put] in *; injection Htok as -> ->; injection Hids as -> ->;
      repeat split; try assumption; try apply Hal';
      apply same_cut_drop_end; assumption.
  - intros s r Hs Hb. apply truncate_body_break in Hb. destruct Hb as [-> _]. exact Hs.
  - unfold J; cbn. repeat split; try apply same_cut_refl; assumption.
Qed.

Lemma truncate_seq_pair_same_cut_witness :
  same_cut [1; 2; 3] [2] [0; 0; 1] [0] /\ same_cut [4; 5] [4] [2; 2] [2].
Proof.
  assert (Hrun : truncate_seq_pair 6 [1; 2; 3] [4; 5] 2 [0; 0; 1] [2; 2]
                   [Script.draw_low; Script.draw_05; Script.draw_05]
                 = Ok (mk_pair [2] [4] [0] [2] [])) by (vm_compute; reflexivity).
  destruct (@truncate_seq_pair_same_cut (list Z) _ 6%nat [1; 2; 3] [4; 5] 2
              [0; 0; 1] [2; 2] [Script.draw_low; Script.draw_05; Script.draw_05]
              (mk_pair [2] [4] [0] [2] []) eq_refl eq_refl Hrun)
    as (Ha & Hb & _).
  split; assumption.
Defined.

Lemma truncate_seq_pair_total_witness :
  exists p,
    truncate_seq_pair 6 [1; 2; 3] [4; 5] 2 [0; 0; 1] [2; 2]
      [Script.draw_low; Script.draw_05; Script.draw_05] = Ok p
    /\ len (ps_tokens_a p) + len (ps_tokens_b p) = 2.
Proof.
  assert (Hrun : truncate_seq_pair 6 [1; 2; 3] [4; 5] 2 [0; 0; 1] [2; 2]
                   [Script.draw_low; Script.draw_05; Script.draw_05]
                 = Ok (mk_pair [2] [4] [0] [2] [])) by (vm_compute; reflexivity).
  exists (mk_pair [2] [4] [0] [2] []). split; [exact Hrun |].
  exact (proj1 (@truncate_seq_pair_total (list Z) _ [1; 2; 3] [4; 5] 2
                  [0; 0; 1] [2; 2] 6%nat
                  [Script.draw_low; Script.draw_05; Script.draw_05] _ Hrun)).
Defined.

Lemma truncate_seq_pair_balanced_witness :
  ([2] = [1; 2; 3] \/ len [4] <= len [2])
  /\ ([4] = [4; 5] \/ len [2] <= len [4] + 1).
Proof.
  assert (Hrun : truncate_seq_pair 6 [1; 2; 3] [4; 5] 2 [0; 0; 1] [2; 2]
                   [Script.draw_low; Script.draw_05; Script.draw_05]
                 = Ok (mk_pair [2] [4] [0] [2] [])) by (vm_compute; reflexivity).
  exact (@truncate_seq_pair_balanced (list Z) _ [1; 2; 3] [4; 5] 2
           [0; 0; 1] [2; 2] 6%nat
           [Script.draw_low; Script.draw_05; Script.draw_05] _ Hrun).
Defined.

(** ** The shape of the batch *)

(** A property of the batch that holds of the empty batch and that every
    emission keeps holds of what [group_texts] returns. *)
Lemma group_texts_ind {G : Type} `{PRNG G} (tokenizer : Tokenizer) (fuel : nat)
  (max_seq_length dupe_factor : Z) (examples : list tokens) (P : batch -> Prop)
  (g g' : G) (results : batch) :
  P empty_batch ->
  (forall total_chunk r r', P r ->
     emission tokenizer fuel (max_seq_length - num_special_tokens_to_add tokenizer)
       total_chunk r r' -> P r') ->
  group_texts tokenizer fuel max_seq_length dupe_factor examples g
  = Ok (results, g') ->
  P results.
Proof.
  intros Hinit Hstep. unfold group_texts.
  generalize (Z.to_nat dupe_factor) as n. generalize empty_batch as r0, Hinit.
  intros r0 Hr0 n. revert r0 Hr0 g.
  induction n as [| n IH]; intros r0 Hr0 g Hrun; cbn in Hrun.
  - injection Hrun as <- <-. exact Hr0.
  - apply bind_Ok in Hrun. destruct Hrun as [[r g1] [Hone Hrest]].
    apply (IH r) in Hrest; [exact Hrest |].
    unfold group_pass in Hone.
    apply bind_Ok in Hone. destruct Hone as [[target g2] [_ Hone]].
    apply bind_Ok in Hone. destruct Hone as [total_chunk [_ Hone]].
    revert Hone. apply build_instances_ind; [| exact Hr0].
    intros ra rb Hra Hem. eapply Hstep; eassumption.
Qed.

Lemma spec_segment_ids_length (sa sb : list Z) (a b : tokens) :
  length sa = length a -> length sb = length b ->
  length (spec_segment_ids sa sb) = length (special_mask a b).
Proof.
  intros Ha Hb. unfold spec_segment_ids, special_mask, renumbered_a, renumbered_b.
  cbn [app length]. rewrite !length_app, !length_map, !repeat_length. cbn [length].
  rewrite !length_app, !length_map, !repeat_length. cbn [length]. lia.
Qed.

Lemma truncate_seq_pair_aligned {G : Type} `{PRNG G} (fuel : nat) (a b : tokens)
  (max_num_tokens : Z) (sa sb : list Z) (g : G) (p : pair_state G) :
  aligned (mk_pair a b sa sb g) ->
  truncate_seq_pair fuel a b max_num_tokens sa sb g = Ok p -> aligned p.
Proof.
  intros Hal. unfold truncate_seq_pair.
  apply while_ind with (I := aligned) (P := aligned); [| | exact Hal].
  - intros s s' Hs Hc. eapply truncate_body_keeps_aligned; eassumption.
  - intros s r Hs Hb. apply truncate_body_break in Hb. destruct Hb as [-> _]. exact Hs.
Qed.

Lemma truncate_seq_pair_fits {G : Type} `{PRNG G} (fuel : nat) (a b : tokens)
  (max_num_tokens : Z) (sa sb : list Z) (g : G) (p : pair_state G) :
  truncate_seq_pair fuel a b max_num_tokens sa sb g = Ok p ->
  len (ps_tokens_a p) + len (ps_tokens_b p) <= max_num_tokens.
Proof.
  unfold truncate_seq_pair.
  apply while_ind with (I := fun _ => True)
    (P := fun p => len (ps_tokens_a p) + len (ps_tokens_b p) <= max_num_tokens);
    [intros; exact I | | exact I].
  intros s r _ Hb. apply truncate_body_break in Hb. destruct Hb as [-> Hle]. exact Hle.
Qed.

(** What an emission appends. *)
Lemma emission_inv {G : Type} `{PRNG G} (tokenizer : Tokenizer) (fuel : nat)
  (max_num_tokens : Z) (total_chunk : list chunk) (r r' : batch) :
  emission tokenizer fuel max_num_tokens total_chunk r r' ->
  exists (a b : tokens) (sa sb : list Z) (is_next : Z),
    pair_in_budget max_num_tokens (a, b)
    /\ length sa = length a /\ length sb = length b
    /\ is_label is_next
    /\ r' = mk_batch
              (input_ids r ++ [build_inputs_with_special_tokens tokenizer a b])
              (token_type_ids r ++ [create_token_type_ids_from_sequences tokenizer a b])
              (attention_mask r
               ++ [repeat 1 (length (build_inputs_with_special_tokens tokenizer a b))])
              (special_tokens_mask r ++ [special_mask a b])
              (next_sentence_label r ++ [is_next])
              (segment_ids r ++ [spec_segment_ids sa sb]).
Proof.
  intros (c & a_end & ta & tb & sa & sb & rdn & g2 & cid & is_next & p & p'
          & Hsplit & Hrel & Htrunc & Hemit).
  pose proof (split_and_relation_aligned _ _ _ _ _ _ _ Hsplit Hrel) as [Hal1 Hal2].
  pose proof Htrunc as Hal'.
  apply truncate_seq_pair_aligned in Hal'; [| split; [exact Hal1 | exact Hal2]].
  pose proof Htrunc as Htotal. apply truncate_seq_pair_fits in Htotal.
  apply emit_inv in Hemit. destruct Hemit as (Hna & Hnb & _ & _ & ->).
  exists (ps_tokens_a p'), (ps_tokens_b p'), (ps_a_segment_ids p'),
    (ps_b_segment_ids p'), is_next.
  destruct Hal' as [Ha' Hb'].
  split; [repeat split; try assumption; cbn [fst snd]; lia |].
  split; [exact Ha' |]. split; [exact Hb' |]. split; [| reflexivity].
  apply sample_relation_inv in Hrel.
  destruct Hrel as [(-> & _) | [(-> & _) | (-> & _)]]; unfold is_label; auto.
Qed.

(** X7.  The batch [group_texts] returns is a list of instances: there are pairs
    (A, B), both halves non-empty and together within [max_num_tokens], of
    which the six columns hold, row by row, the assembled ids, the type ids,
    an attention mask of ones as long as the assembled ids, the special-token
    mask [[1] + [0]*|A| + [1] + [0]*|B| + [1]], a label among 0, 1, 2 and a
    segment-id list as long as the special-token mask.  In particular the six
    columns are equally long. *)
Theorem group_texts_batch_shape {G : Type} `{PRNG G} (tokenizer : Tokenizer)
  (fuel : nat) (max_seq_length dupe_factor : Z) (examples : list tokens)
  (g g' : G) (results : batch) :
  group_texts tokenizer fuel max_seq_length dupe_factor examples g
  = Ok (results, g') ->
  exists pairs : list (tokens * tokens),
    batch_of_pairs tokenizer pairs results
    /\ Forall (pair_in_budget (max_seq_length - num_special_tokens_to_add tokenizer))
         pairs
    /\ Forall is_label (next_sentence_label results).
Proof.
  apply group_texts_ind with
    (P := fun r => exists pairs : list (tokens * tokens),
              batch_of_pairs tokenizer pairs r
              /\ Forall (pair_in_budget
                           (max_seq_length - num_special_tokens_to_add tokenizer)) pairs
              /\ Forall is_label (next_sentence_label r)).
  - exists []. repeat split; constructor.
  - intros total_chunk r r' (pairs & Hshape & Hbudget & Hlabels) Hem.
    apply emission_inv in Hem.
    destruct Hem as (a & b & sa & sb & is_next & Hin & Hsa & Hsb & Hlab & ->).
    destruct Hshape as (H1 & H2 & H3 & H4 & H5 & H6).
    exists (pairs ++ [(a, b)]). unfold batch_of_pairs. cbn.
    rewrite !map_app, !length_app, H1, H2, H3, H4, H5. cbn.
    repeat split.
    + apply Forall2_app; [exact H6 |]. constructor; [| constructor].
      cbn [fst snd]. apply spec_segment_ids_length; assumption.
    + apply Forall_app. split; [exact Hbudget | constructor; [exact Hin | constructor]].
    + apply Forall_app. split; [exact Hlabels | constructor; [exact Hlab | constructor]].
Qed.

Lemma group_texts_batch_shape_witness :
  exists pairs : list (tokens * tokens),
    batch_of_pairs (pair_tokenizer 101 102) pairs
      (mk_batch [[101; 1; 2; 102; 3; 4; 5; 6; 102]]
         [[0; 0; 0; 0; 1; 1; 1; 1; 1]]
         [[1; 1; 1; 1; 1; 1; 1; 1; 1]]
         [[1; 0; 0; 1; 0; 0; 0; 0; 1]]
         [SAME_ORDER]
         [[0; 1; 1; 2; 3; 4; 4; 4; 5]])
    /\ Forall (pair_in_budget 10) pairs.
Proof.
  assert (Hrun : group_texts (pair_tokenizer 101 102) 4 13 1 [[1; 2]; [3]; [4; 5; 6]]
                   [Script.draw_09; 0; Script.draw_09]
                 = Ok (mk_batch [[101; 1; 2; 102; 3; 4; 5; 6; 102]]
                         [[0; 0; 0; 0; 1; 1; 1; 1; 1]]
                         [[1; 1; 1; 1; 1; 1; 1; 1; 1]]
                         [[1; 0; 0; 1; 0; 0; 0; 0; 1]]
                         [SAME_ORDER]
                         [[0; 1; 1; 2; 3; 4; 4; 4; 5]], []))
    by (vm_compute; reflexivity).
  destruct (@group_texts_batch_shape (list Z) _ (pair_tokenizer 101 102) 4%nat 13 1
              [[1; 2]; [3]; [4; 5; 6]] [Script.draw_09; 0; Script.draw_09] [] _ Hrun)
    as (pairs & Hshape & Hbudget & _).
  exists pairs. split; assumption.
Defined.

(** ** The sequence length the script settles on *)



(** ** Argument checking *)

Lemma py_split_nonempty (sep : Ascii.ascii) (s : String.string) : py_split sep s <> [].
Proof.
  destruct s as [| c rest]; cbn; [discriminate |].
  destruct (Ascii.eqb c sep); [discriminate |].
  destruct (py_split sep rest); discriminate.
Qed.

Lemma py_split_single (sep : Ascii.ascii) (s piece : String.string) :
  py_split sep s = [piece] -> piece = s /\ free_of sep s.
Proof.
  revert piece. induction s as [| c rest IH]; intros piece; cbn [py_split].
  - intros Hs; injection Hs as <-. split; [reflexivity | exact I].
  - destruct (Ascii.eqb_spec c sep) as [-> | Hne].
    + intros Hs. injection Hs as _ Hs. exfalso. exact (py_split_nonempty _ _ Hs).
    + destruct (py_split sep rest) as [| w ws] eqn:Hsp.
      * exfalso. exact (py_split_nonempty _ _ Hsp).
      * intros Hs; injection Hs as <- ->.
        destruct (IH w eq_refl) as [-> Hf]. split; [reflexivity | split; assumption].
Qed.

(** Either there is no separator in [s] and [s] is the one piece, or [s] ends
    in a separator followed by the last piece. *)
Lemma py_split_last (sep : Ascii.ascii) (s : String.string) :
  free_of sep (last (py_split sep s) String.EmptyString)
  /\ ((py_split sep s = [s] /\ free_of sep s)
      \/ exists stem,
           s = String.append stem (String.String sep (last (py_split sep s) String.EmptyString))).
Proof.
  induction s as [| c rest IH]; cbn [py_split].
  - cbn. split; [exact I |]. left. split; [reflexivity | exact I].
  - destruct IH as [Hfree IH].
    destruct (Ascii.eqb_spec c sep) as [-> | Hne].
    + pose proof (py_split_nonempty sep rest) as Hn.
      destruct (py_split sep rest) as [| piece pieces] eqn:Hsp; [contradiction |].
      change (last (String.EmptyString :: piece :: pieces) String.EmptyString)
        with (last (piece :: pieces) String.EmptyString).
      split; [exact Hfree |]. right.
      destruct IH as [[Heq _] | [stem Hstem]].
      * injection Heq as -> ->. exists String.EmptyString. reflexivity.
      * exists (String.String sep stem). cbn [String.append]. rewrite <- Hstem. reflexivity.
    + pose proof (py_split_nonempty sep rest) as Hn.
      destruct (py_split sep rest) as [| piece pieces] eqn:Hsp; [contradiction |].
      destruct pieces as [| piece' pieces].
      * apply py_split_single in Hsp. destruct Hsp as [-> Hf]. cbn [last].
        split; [split; assumption |]. left. split; [reflexivity | split; assumption].
      * change (last (String.String c piece :: piece' :: pieces) String.EmptyString)
          with (last (piece' :: pieces) String.EmptyString).
        change (last (piece :: piece' :: pieces) String.EmptyString)
          with (last (piece' :: pieces) String.EmptyString) in *.
        split; [exact Hfree |]. right.
        destruct IH as [[Heq _] | [stem Hstem]]; [discriminate |].
        exists (String.String c stem). cbn [String.append]. rewrite <- Hstem. reflexivity.
Qed.

Lemma free_of_append_sep (c : Ascii.ascii) (stem rest : String.string) :
  ~ free_of c (String.append stem (String.String c rest)).
Proof.
  induction stem as [| d stem IH]; cbn; intros [Hd Hf].
  - apply Hd. reflexivity.
  - apply IH. exact Hf.
Qed.

(** What follows the last separator is determined by the string. *)
Lemma last_piece_unique (c : Ascii.ascii) (stem1 stem2 e1 e2 : String.string) :
  free_of c e1 -> free_of c e2 ->
  String.append stem1 (String.String c e1) = String.append stem2 (String.String c e2) ->
  e1 = e2.
Proof.
  intros H1 H2. revert stem2.
  induction stem1 as [| d stem1 IH]; intros [| d2 stem2]; cbn; intros Heq.
  - injection Heq as ->. reflexivity.
  - injection Heq as <- ->. exfalso. exact (free_of_append_sep _ _ _ H1).
  - injection Heq as -> <-. exfalso. exact (free_of_append_sep _ _ _ H2).
  - injection Heq as _ Heq. apply (IH stem2). exact Heq.
Qed.

Lemma extension_after_dot (stem ext : String.string) :
  free_of "."%char ext ->
  extension (String.append stem (String.String "."%char ext)) = ext.
Proof.
  intros Hfree. unfold extension.
  destruct (py_split_last "."%char (String.append stem (String.String "."%char ext)))
    as [Hf [[_ Hno] | [stem' Hstem']]].
  - exfalso. exact (free_of_append_sep _ _ _ Hno).
  - symmetry. eapply last_piece_unique; [exact Hfree | exact Hf | exact Hstem'].
Qed.

Lemma allowed_extension_iff (path : String.string) :
  allowed_extension (extension path) = true <-> has_allowed_suffix path.
Proof.
  unfold allowed_extension, has_allowed_suffix. rewrite existsb_exists. split.
  - intros [ext [Hin Heq]]. apply String.eqb_eq in Heq. exists ext. split; [exact Hin |].
    unfold extension in Heq.
    destruct (py_split_last "."%char path) as [_ [[Hone _] | [stem Hstem]]].
    + left. rewrite Hone in Heq. cbn in Heq. congruence.
    + right. exists stem. rewrite <- Heq. exact Hstem.
  - intros [ext [Hin Hpath]]. exists ext. split; [exact Hin |]. apply String.eqb_eq.
    assert (Hfree : free_of "."%char ext).
    { cbn in Hin. destruct Hin as [<- | [<- | [<- | []]]]; cbn; repeat split; discriminate. }
    destruct Hpath as [-> | [stem ->]].
    + cbn in Hin. destruct Hin as [<- | [<- | [<- | []]]]; reflexivity.
    + apply extension_after_dot. exact Hfree.
Qed.

Lemma check_file_ok (file : option String.string) :
  check_file file = Ok tt <-> file_accepted file.
Proof.
  destruct file as [path |]; cbn [check_file file_accepted]; [| tauto].
  rewrite <- allowed_extension_iff. unfold py_assert.
  destruct (allowed_extension (extension path)); split; congruence.
Qed.

Lemma check_file_cases (file : option String.string) :
  check_file file = Ok tt \/ check_file file = Raise AssertionError.
Proof.
  destruct file as [path |]; cbn [check_file]; [| left; reflexivity].
  unfold py_assert. destruct (allowed_extension _); auto.
Qed.

(** X9.  The arguments pass [__post_init__] exactly when one of [dataset_name],
    [train_file], [validation_file] is given and each file that is given is
    named [csv], [json] or [txt] or ends in [.csv], [.json] or [.txt]; with
    none of the three given the method raises [ValueError], and in every
    other case an assertion fails. *)
Theorem post_init_accepts (dataset_name train_file validation_file : option String.string) :
  (post_init dataset_name train_file validation_file = Ok tt
   <-> (dataset_name <> None \/ train_file <> None \/ validation_file <> None)
       /\ file_accepted train_file /\ file_accepted validation_file)
  /\ (post_init dataset_name train_file validation_file = Raise ValueError
      <-> dataset_name = None /\ train_file = None /\ validation_file = None)
  /\ (post_init dataset_name train_file validation_file = Ok tt
      \/ post_init dataset_name train_file validation_file = Raise ValueError
      \/ post_init dataset_name train_file validation_file = Raise AssertionError).
Proof.
  assert (Hbody : (dataset_name <> None \/ train_file <> None \/ validation_file <> None) ->
                  post_init dataset_name train_file validation_file
                  = (_ <- check_file train_file ;; check_file validation_file)).
  { intros Hsome. destruct dataset_name, train_file, validation_file; try reflexivity.
    exfalso. destruct Hsome as [Hs | [Hs | Hs]]; apply Hs; reflexivity. }
  assert (Hnone : dataset_name = None /\ train_file = None /\ validation_file = None
                  \/ (dataset_name <> None \/ train_file <> None \/ validation_file <> None)).
  { destruct dataset_name, train_file, validation_file;
      try (right; left; discriminate); try (right; right; left; discriminate);
      try (right; right; right; discriminate). left. repeat split. }
  pose proof (check_file_ok train_file) as Ht.
  pose proof (check_file_ok validation_file) as Hv.
  pose proof (check_file_cases train_file) as Ct.
  pose proof (check_file_cases validation_file) as Cv.
  destruct Hnone as [(-> & -> & ->) | Hsome].
  - cbn. repeat split; try discriminate; tauto.
  - rewrite (Hbody Hsome). split; [| split].
    + split.
      * intros Hok. apply bind_Ok in Hok. destruct Hok as [[] [H1 H2]].
        split; [exact Hsome |]. split; [apply Ht; exact H1 | apply Hv; exact H2].
      * intros (_ & H1 & H2). apply Ht in H1. apply Hv in H2. rewrite H1. exact H2.
    + split.
      * intros Hr. exfalso.
        destruct Ct as [E | E]; rewrite E in Hr; cbn in Hr; [| discriminate].
        destruct Cv as [E' | E']; rewrite E' in Hr; discriminate.
      * intros (-> & -> & ->). exfalso.
        destruct Hsome as [Hs | [Hs | Hs]]; apply Hs; reflexivity.
    + destruct Ct as [E | E]; rewrite E; cbn; [| right; right; reflexivity].
      destruct Cv as [E' | E']; rewrite E'; auto.
Qed.

Lemma post_init_accepts_witness :
  post_init None (Some "data/train.v2.txt"%string) None = Ok tt.
Proof.
  apply (proj1 (post_init_accepts None (Some "data/train.v2.txt"%string) None)).
  split; [right; left; discriminate |]. split; [| exact I].
  exists "txt"%string. split; [cbn; auto |].
  right. exists "data/train.v2"%string. reflexivity.
Defined.

(** ** Every pass of the instance loop *)

Section BuildBodyCases.
Context {G : Type} `{PRNG G}.
Variable tokenizer : Tokenizer.
Variables (fuel : nat) (examples : list tokens).
Variables (max_num_tokens target : Z) (total_chunk : list chunk).

(** The four ways in which a pass of the instance loop goes round again: an
    empty segment is skipped; a segment is appended to a chunk that is not
    complete; the chunk is complete and its split leaves a half empty
    ([continue]); the chunk is complete and its instance is emitted. *)
Lemma build_body_cases (s s' : build_state G) :
  0 <= bs_i s ->
  build_body tokenizer fuel examples max_num_tokens target total_chunk s
  = Ok (Continue s') ->
  exists seg,
    nth_error examples (Z.to_nat (bs_i s)) = Some seg
    /\ bs_i s < len examples
    /\ ((seg = []
         /\ s' = mk_build_state (bs_i s + 1) (bs_current_chunk s)
                   (bs_current_length s) (bs_chunk_id s) (bs_results s) (bs_gen s))
        \/ (seg <> []
            /\ bs_i s <> len examples - 1
            /\ bs_current_length s + len seg < target
            /\ s' = mk_build_state (bs_i s + 1) (bs_current_chunk s ++ [seg])
                      (bs_current_length s + len seg) (bs_chunk_id s)
                      (bs_results s) (bs_gen s))
        \/ (seg <> []
            /\ (bs_i s = len examples - 1
                \/ target <= bs_current_length s + len seg)
            /\ exists a_end g1 ta sa tb sb,
                 choose_a_end (bs_current_chunk s ++ [seg]) (bs_gen s) = Ok (a_end, g1)
                 /\ split_chunk (bs_current_chunk s ++ [seg]) a_end
                    = Ok (ta, sa, (tb, sb))
                 /\ (((ta = [] \/ tb = [])
                      /\ s' = mk_build_state (bs_i s) (bs_current_chunk s ++ [seg])
                                (bs_current_length s + len seg) (bs_chunk_id s + 1)
                                (bs_results s) g1)
                     \/ (ta <> [] /\ tb <> []
                         /\ exists results' g',
                              emission tokenizer fuel max_num_tokens total_chunk
                                (bs_results s) results'
                              /\ s' = mk_build_state (bs_i s + 1) [] 0
                                        (bs_chunk_id s + 1) results' g')))).
Proof.
  intros Hi Hc. unfold build_body in Hc.
  destruct (Z.ltb_spec (bs_i s) (len examples)) as [Hlt | Hge]; [| discriminate].
  rewrite <- (Z2Nat.id (bs_i s)) in Hc at 1 by exact Hi. rewrite py_getitem_nat in Hc.
  destruct (nth_error examples (Z.to_nat (bs_i s))) as [seg |]; cbn [bind] in Hc;
    [| discriminate].
  exists seg. split; [reflexivity |]. split; [exact Hlt |].
  destruct seg as [| x seg]; cbn [is_empty] in Hc.
  { injection Hc as <-. left. split; reflexivity. }
  right.
  destruct (Z.eqb_spec (bs_i s) (len examples - 1)) as [Hlast | Hnot];
    destruct (Z.geb_spec (bs_current_length s + len (x :: seg)) target) as [Hlen | Hlen];
    cbn [orb] in Hc.
  4:{ injection Hc as <-. left. repeat split; try discriminate; try lia. }
  all: right; split; [discriminate |]; split; [lia |].
  all: rewrite is_empty_snoc in Hc.
  all: destruct (choose_a_end _ (bs_gen s)) as [[a_end g1] | e | ] eqn:Hend;
    cbn [bind] in Hc; try discriminate.
  all: destruct (split_chunk _ a_end) as [[[ta sa] [tb sb]] | e | ] eqn:Hsplit;
    cbn [bind] in Hc; try discriminate.
  all: exists a_end, g1, ta, sa, tb, sb; split; [reflexivity |]; split; [exact Hsplit |].
  all: destruct (Z.eqb_spec (len ta) 0) as [Hta | Hta];
    [ cbn [orb] in Hc; injection Hc as <-; left;
      split; [left; apply len_nil_iff; exact Hta | reflexivity] |].
  all: destruct (Z.eqb_spec (len tb) 0) as [Htb | Htb];
    [ cbn [orb] in Hc; injection Hc as <-; left;
      split; [right; apply len_nil_iff; exact Htb | reflexivity] |].
  all: cbn [orb] in Hc; right.
  all: split; [intros E; apply Hta; rewrite E; reflexivity |].
  all: split; [intros E; apply Htb; rewrite E; reflexivity |].
  all: destruct (random g1) as [rdn g2].
  all: destruct (sample_relation _ _ _ _ _) as [[is_next p] | e | ] eqn:Hrel;
    cbn [bind] in Hc; try discriminate.
  all: destruct (truncate_seq_pair _ _ _ _ _ _ _) as [p' | e | ] eqn:Htrunc;
    cbn [bind] in Hc; try discriminate.
  all: destruct (emit _ _ _ _) as [results | e | ] eqn:Hemit; cbn [bind] in Hc;
    try discriminate.
  all: injection Hc as <-; exists results, (ps_gen p'); split; [| reflexivity].
  all: exists (bs_current_chunk s ++ [x :: seg]), a_end, ta, tb, sa, sb, rdn, g2,
         (bs_chunk_id s + 1), is_next, p, p'; repeat split; assumption.
Qed.
End BuildBodyCases.

(** ** No exception with room for two tokens *)

Lemma concat_nonempty (segs : list tokens) :
  segs <> [] -> Forall (fun seg : tokens => seg <> []) segs -> concat segs <> [].
Proof.
  destruct segs as [| seg segs]; [contradiction |]. intros _ Hall.
  inversion Hall as [| ? ? Hseg _]; subst. cbn.
  destruct seg; [contradiction | discriminate].
Qed.

Section Lawful.
Context {G : Type} `{PRNG G}.

(** [a_end] lies inside the chunk, and strictly inside when the chunk has two
    segments or more. *)
Lemma choose_a_end_spec (current_chunk : chunk) (g : G) :
  current_chunk <> [] ->
  exists a_end g1,
    choose_a_end current_chunk g = Ok (a_end, g1)
    /\ 1 <= a_end <= len current_chunk
    /\ (2 <= len current_chunk -> a_end <= len current_chunk - 1).
Proof.
  intros Hne. unfold choose_a_end, py_randint.
  assert (Hlen : 1 <= len current_chunk).
  { pose proof (len_nonneg current_chunk).
    assert (len current_chunk <> 0) by (intros E; apply len_nil_iff in E; contradiction).
    lia. }
  destruct (Z.geb_spec (len current_chunk) 2) as [Hge | Hlt].
  - destruct (Z.leb_spec 1 (len current_chunk - 1)) as [Hle | Hgt]; [| lia].
    pose proof (@randint_range _ _ 1 (len current_chunk - 1) g Hle) as Hr.
    destruct (randint 1 (len current_chunk - 1) g) as [a_end g1]. cbn [fst] in Hr.
    exists a_end, g1. split; [reflexivity |]. lia.
  - exists 1, g. split; [reflexivity |]. lia.
Qed.

(** A split strictly inside a chunk without empty segments leaves no half
    empty. *)
Lemma split_chunk_halves (current_chunk : chunk) (a_end : Z)
  (ta tb : tokens) (sa sb : list Z) :
  Forall (fun seg : tokens => seg <> []) current_chunk ->
  1 <= a_end <= len current_chunk - 1 ->
  split_chunk current_chunk a_end = Ok (ta, sa, (tb, sb)) ->
  ta <> [] /\ tb <> [].
Proof.
  intros Hall Hin Hs. rewrite split_chunk_eq in Hs by lia.
  injection Hs as <- _ <- _. unfold len in Hin.
  split; apply concat_nonempty.
  - intros E. apply (f_equal (@length _)) in E. rewrite length_firstn in E.
    cbn in E. lia.
  - apply Forall_forall. intros x Hx. rewrite Forall_forall in Hall.
    apply Hall. rewrite <- (firstn_skipn (Z.to_nat a_end) current_chunk).
    apply in_or_app. left. exact Hx.
  - intros E. apply (f_equal (@length _)) in E. rewrite length_skipn in E.
    cbn in E. lia.
  - apply Forall_forall. intros x Hx. rewrite Forall_forall in Hall.
    apply Hall. rewrite <- (firstn_skipn (Z.to_nat a_end) current_chunk).
    apply in_or_app. right. exact Hx.
Qed.

Lemma pick_rid_no_raise (fuel : nat) (total_chunk : list chunk) (chunk_id : Z)
  (g : G) (e : exn) :
  1 < len total_chunk -> pick_rid fuel total_chunk chunk_id g <> Raise e.
Proof.
  intros Hlen. unfold pick_rid.
  apply while_no_raise with (I := fun _ : G => True); [intros; exact I | | exact I].
  intros s _. unfold pick_rid_body, py_randint.
  destruct (Z.leb_spec 0 (len total_chunk - 1)) as [_ | Hgt]; [| lia]. cbn [bind].
  destruct (randint 0 (len total_chunk - 1) s) as [rid g'].
  destruct (negb (rid =? chunk_id)); discriminate.
Qed.

(** The relation sampler raises nothing, and what it returns has two
    non-empty halves when it was given two and the chunks it may draw from
    are good. *)
Lemma sample_relation_safe (fuel : nat) (rdn : Q) (total_chunk : list chunk)
  (chunk_id : Z) (p : pair_state G) :
  good_chunks total_chunk -> both_nonempty p ->
  (forall e, sample_relation fuel rdn total_chunk chunk_id p <> Raise e)
  /\ (forall is_next p',
         sample_relation fuel rdn total_chunk chunk_id p = Ok (is_next, p') ->
         both_nonempty p').
Proof.
  intros Hgood [Ha Hb]. split.
  - intros e. unfold sample_relation.
    destruct (Qltb rdn one_third); [discriminate |].
    destruct (Qltb rdn two_thirds); cbn [andb]; [| discriminate].
    destruct (Z.gtb_spec (len total_chunk) 1) as [Hlen | Hlen]; [| discriminate].
    pose proof (@pick_rid_no_raise fuel total_chunk chunk_id (ps_gen p) e Hlen) as Hno.
    destruct (pick_rid fuel total_chunk chunk_id (ps_gen p)) as [[rid g'] | e' | ] eqn:Hrid;
      cbn [bind]; [| congruence | discriminate].
    apply pick_rid_spec in Hrid. destruct Hrid as [Hrange _].
    destruct (py_getitem_in_range total_chunk Hrange) as [another [-> _]].
    cbn [bind]. discriminate.
  - intros is_next p' Hs. apply sample_relation_inv in Hs.
    destruct Hs as [(_ & _ & ->) | [(_ & _ & _ & _ & rid & g' & c & Hrid & Hget & ->)
                                   | (_ & _ & _ & ->)]]; split; cbn; try assumption.
    apply pick_rid_spec in Hrid. destruct Hrid as [Hrange _].
    destruct (py_getitem_in_range total_chunk Hrange) as [another [Hget' Hin]].
    rewrite Hget in Hget'. injection Hget' as <-.
    unfold good_chunks in Hgood. rewrite Forall_forall in Hgood.
    destruct (Hgood c Hin) as [Hc Hsegs].
    rewrite py_sum_concat. apply concat_nonempty; assumption.
Qed.

(** Truncation of an aligned pair of non-empty lists with room for two
    tokens raises nothing and returns such a pair again. *)
Lemma truncate_seq_pair_safe (fuel : nat) (a b : tokens) (max_num_tokens : Z)
  (sa sb : list Z) (g : G) :
  2 <= max_num_tokens -> a <> [] -> b <> [] ->
  length sa = length a -> length sb = length b ->
  (forall e, truncate_seq_pair fuel a b max_num_tokens sa sb g <> Raise e)
  /\ (forall p, truncate_seq_pair fuel a b max_num_tokens sa sb g = Ok p ->
                both_nonempty p /\ aligned p).
Proof.
  intros Hmax Ha Hb Hsa Hsb.
  set (J := fun s : pair_state G => both_nonempty s /\ aligned s).
  assert (Hinit : J (mk_pair a b sa sb g)) by (repeat split; assumption).
  assert (Hstep : forall s s', J s -> truncate_body max_num_tokens s = Ok (Continue s') ->
                               J s').
  { intros s s' [Hs Hal] Hc. split.
    - eapply truncate_body_keeps_nonempty; eassumption.
    - eapply truncate_body_keeps_aligned; eassumption. }
  unfold truncate_seq_pair. split.
  - intros e. apply while_no_raise with (I := J); [exact Hstep | | exact Hinit].
    intros s [[Hna Hnb] [Hal1 Hal2]] Hr.
    apply truncate_body_raise in Hr. destruct Hr as [_ [[_ [Hnil _]] | [_ Hnil]]].
    + contradiction.
    + unfold trunc_target, len in Hnil. rewrite Hal1, Hal2 in Hnil.
      destruct (_ >? _); cbn in Hnil; apply length_zero_iff_nil in Hnil.
      * rewrite Hal1 in Hnil. apply length_zero_iff_nil in Hnil. contradiction.
      * rewrite Hal2 in Hnil. apply length_zero_iff_nil in Hnil. contradiction.
  - intros p. apply while_ind with (I := J) (P := J); [exact Hstep | | exact Hinit].
    intros s r Hs Hbr. apply truncate_body_break in Hbr. destruct Hbr as [-> _]. exact Hs.
Qed.

(** The assembly of an aligned pair of non-empty lists returns. *)
Lemma emit_returns (tokenizer : Tokenizer) (results : batch) (is_next : Z)
  (p : pair_state G) :
  both_nonempty p -> aligned p ->
  exists results', emit tokenizer results is_next p = Ok results'.
Proof.
  intros [Ha Hb] [Hal1 Hal2]. unfold emit.
  destruct (ps_tokens_a p) as [| x xa]; [contradiction |].
  destruct (ps_tokens_b p) as [| y xb]; [contradiction |].
  replace (len (x :: xa) >=? 1) with true
    by (symmetry; apply Z.geb_le; unfold len; cbn [length]; lia).
  replace (len (y :: xb) >=? 1) with true
    by (symmetry; apply Z.geb_le; unfold len; cbn [length]; lia).
  cbn [py_assert bind].
  destruct (ps_a_segment_ids p) as [| a0 sa]; [discriminate |].
  destruct (ps_b_segment_ids p) as [| b0 sb]; [discriminate |].
  cbn. eexists. reflexivity.
Qed.
End Lawful.

Section NoRaise.
Context {G : Type} `{PRNG G}.
Variable tokenizer : Tokenizer.
Variables (fuel : nat) (examples : list tokens).
Variables (max_num_tokens target : Z) (total_chunk : list chunk).
Hypothesis room : 2 <= max_num_tokens.
Hypothesis good : good_chunks total_chunk.

Lemma build_body_no_raise (s : build_state G) (e : exn) :
  0 <= bs_i s ->
  build_body tokenizer fuel examples max_num_tokens target total_chunk s <> Raise e.
Proof.
  intros Hi. unfold build_body.
  destruct (Z.ltb_spec (bs_i s) (len examples)) as [Hlt | Hge]; [| discriminate].
  destruct (@py_getitem_in_range _ examples (bs_i s)) as [seg [-> _]]; [lia |].
  cbn [bind]. destruct (is_empty seg); [discriminate |].
  destruct (_ || _); [| discriminate].
  rewrite is_empty_snoc.
  assert (Hne : bs_current_chunk s ++ [seg] <> []).
  { intros E. apply app_eq_nil in E. destruct E; discriminate. }
  destruct (choose_a_end_spec (bs_gen s) Hne) as (a_end & g1 & -> & Hrange & _).
  cbn [bind]. rewrite split_chunk_eq by lia. cbn [bind].
  set (ta := concat (firstn (Z.to_nat a_end) (bs_current_chunk s ++ [seg]))).
  set (tb := concat (skipn (Z.to_nat a_end) (bs_current_chunk s ++ [seg]))).
  set (sa := ids_from 0 (firstn (Z.to_nat a_end) (bs_current_chunk s ++ [seg]))).
  set (sb := ids_from (Z.to_nat a_end)
               (skipn (Z.to_nat a_end) (bs_current_chunk s ++ [seg]))).
  destruct (Z.eqb_spec (len ta) 0) as [Hta | Hta]; [discriminate |].
  destruct (Z.eqb_spec (len tb) 0) as [Htb | Htb]; [discriminate |].
  cbn [orb].
  assert (Hpair : forall g2 : G, both_nonempty (mk_pair ta tb sa sb g2)).
  { intros g2. split; cbn; intros E; [apply Hta | apply Htb]; rewrite E; reflexivity. }
  assert (Hal : forall g2 : G, aligned (mk_pair ta tb sa sb g2)).
  { intros g2. split; cbn; apply ids_from_length. }
  destruct (random g1) as [rdn g2].
  destruct (@sample_relation_safe G _ fuel rdn total_chunk (bs_chunk_id s + 1) _
              good (Hpair g2)) as [Hno Hkeep].
  destruct (sample_relation fuel rdn total_chunk (bs_chunk_id s + 1) _)
    as [[is_next p] | e' | ] eqn:Hrel; cbn [bind];
    [| intros E; apply (Hno e'); reflexivity | discriminate].
  destruct (Hkeep is_next p eq_refl) as [Hpa Hpb].
  assert (Hpal : aligned p).
  { apply sample_relation_inv in Hrel.
    destruct Hrel as [(_ & _ & ->) | [(_ & _ & _ & _ & rid & g' & c & _ & _ & ->)
                                     | (_ & _ & _ & ->)]];
      split; cbn; try apply ids_from_length. apply chunk_segment_ids_length. }
  destruct Hpal as [Hpal1 Hpal2].
  destruct (@truncate_seq_pair_safe G _ fuel _ _ _ _ _ (ps_gen p) room Hpa Hpb
              Hpal1 Hpal2) as [Hnot Hafter].
  destruct (truncate_seq_pair fuel _ _ max_num_tokens _ _ _) as [p' | e' | ] eqn:Htr;
    cbn [bind]; [| intros E; apply (Hnot e'); reflexivity | discriminate].
  destruct (Hafter p' eq_refl) as [Hq Hqal].
  destruct (@emit_returns G tokenizer (bs_results s) is_next p' Hq Hqal)
    as [results' ->].
  cbn [bind]. discriminate.
Qed.

Lemma build_body_index (s s' : build_state G) :
  0 <= bs_i s ->
  build_body tokenizer fuel examples max_num_tokens target total_chunk s
  = Ok (Continue s') ->
  0 <= bs_i s'.
Proof.
  intros Hi Hc. apply build_body_cases in Hc; [| exact Hi].
  destruct Hc as (seg & _ & _ & [(_ & ->) | [(_ & _ & _ & ->)
    | (_ & _ & a_end & g1 & ta & sa & tb & sb & _ & _
       & [(_ & ->) | (_ & _ & r' & g' & _ & ->)])]]); cbn; lia.
Qed.

Lemma build_instances_no_raise (results : batch) (g : G) (e : exn) :
  build_instances tokenizer fuel examples max_num_tokens target total_chunk results g
  <> Raise e.
Proof.
  unfold build_instances.
  pose proof (@while_no_raise _ _
                (build_body tokenizer fuel examples max_num_tokens target total_chunk)
                (fun s => 0 <= bs_i s) e build_body_index
                (fun s Hs => @build_body_no_raise s e Hs) fuel
                (mk_build_state 0 [] 0 (-1) results g)) as Hloop.
  destruct (while fuel _ _) as [s | e' | ]; cbn [bind]; [discriminate | | discriminate].
  intros E. injection E as ->. apply Hloop; [cbn; lia | reflexivity].
Qed.
End NoRaise.




(** ** One instance for each chunk *)

Lemma skipn_nth_error {A : Type} (l : list A) (n : nat) (x : A) :
  nth_error l n = Some x -> skipn n l = x :: skipn (S n) l.
Proof.
  revert l. induction n as [| n IH]; intros [| y l] Hn; cbn in Hn; try discriminate.
  - injection Hn as ->. reflexivity.
  - cbn [skipn]. rewrite (IH l Hn). reflexivity.
Qed.

Lemma flushes_step (target : Z) (examples : list tokens) (i : Z) (seg : tokens)
  (current_length : Z) :
  0 <= i -> nth_error examples (Z.to_nat i) = Some seg ->
  flushes target (skipn (Z.to_nat i) examples) current_length
  = if is_empty seg
    then flushes target (skipn (Z.to_nat (i + 1)) examples) current_length
    else if (i =? len examples - 1) || (current_length + len seg >=? target)
         then S (flushes target (skipn (Z.to_nat (i + 1)) examples) 0)
         else flushes target (skipn (Z.to_nat (i + 1)) examples)
                (current_length + len seg).
Proof.
  intros Hi Hn. rewrite (skipn_nth_error _ _ Hn).
  replace (Z.to_nat (i + 1)) with (S (Z.to_nat i)) by lia.
  cbn [flushes].
  assert (Hlt : (Z.to_nat i < length examples)%nat).
  { apply nth_error_Some. rewrite Hn. discriminate. }
  replace (is_empty (skipn (S (Z.to_nat i)) examples)) with (i =? len examples - 1);
    [reflexivity |].
  pose proof (length_skipn (S (Z.to_nat i)) examples) as Hlen.
  destruct (Z.eqb_spec i (len examples - 1)) as [Hlast | Hnot]; unfold len in *.
  - destruct (skipn (S (Z.to_nat i)) examples); [reflexivity | cbn in Hlen; lia].
  - destruct (skipn (S (Z.to_nat i)) examples); [cbn in Hlen; lia | reflexivity].
Qed.

Lemma flushes_end (target : Z) (examples : list tokens) (i current_length : Z) :
  len examples <= i ->
  flushes target (skipn (Z.to_nat i) examples) current_length = 0%nat.
Proof.
  intros Hge. rewrite skipn_all2; [reflexivity |]. unfold len in Hge. lia.
Qed.

Lemma flushes_le (target : Z) (examples : list tokens) (current_length : Z) :
  (flushes target examples current_length <= length examples)%nat.
Proof.
  revert current_length. induction examples as [| seg rest IH]; intros cl; cbn.
  - lia.
  - destruct (is_empty seg); [specialize (IH cl); lia |].
    destruct (_ || _); [specialize (IH 0) | specialize (IH (cl + len seg))]; lia.
Qed.

Lemma flushes_last (target : Z) (examples : list tokens) (current_length : Z) :
  last examples [] <> [] ->
  (1 <= flushes target examples current_length)%nat.
Proof.
  revert current_length. induction examples as [| seg rest IH]; intros cl Hlast.
  - cbn in Hlast. contradiction.
  - cbn [flushes]. destruct rest as [| seg' rest].
    + cbn in Hlast. destruct seg; [contradiction |]. cbn. lia.
    + change (last (seg :: seg' :: rest) []) with (last (seg' :: rest) []) in Hlast.
      destruct (is_empty seg); [apply IH; exact Hlast |].
      destruct (_ || _); [lia | apply IH; exact Hlast].
Qed.

(** The chunking loop returns as many chunks as the test succeeds. *)
Lemma get_all_chunk_count (fuel : nat) (examples : list tokens) (target : Z)
  (total_chunk : list chunk) :
  get_all_chunk fuel examples target = Ok total_chunk ->
  length total_chunk = flushes target examples 0.
Proof.
  unfold get_all_chunk.
  apply while_ind with
    (I := fun s => 0 <= cs_i s
                   /\ (length (cs_total_chunk s)
                       + flushes target (skipn (Z.to_nat (cs_i s)) examples)
                           (cs_current_length s))%nat
                      = flushes target examples 0)
    (P := fun r => length r = flushes target examples 0).
  - intros s s' [Hi Hcount] Hc.
    apply get_all_chunk_body_continue in Hc; [| exact Hi].
    destruct Hc as (seg & Hn & Hlt & Hnext & Hcases).
    split; [lia |]. rewrite (@flushes_step target examples _ seg _ Hi Hn) in Hcount.
    rewrite Hnext.
    destruct Hcases as [(-> & _ & -> & ->) | [(Hseg & Hcond & _ & -> & ->)
                                           | (Hseg & Hnl & Hshort & _ & -> & ->)]].
    + exact Hcount.
    + destruct seg; [contradiction |]. cbn [is_empty] in Hcount.
      replace ((cs_i s =? len examples - 1)
               || (cs_current_length s + len (z :: seg) >=? target)) with true in Hcount.
      * rewrite length_app. cbn [length]. lia.
      * symmetry. apply orb_true_iff.
        destruct Hcond; [left; apply Z.eqb_eq | right; apply Z.geb_le]; assumption.
    + destruct seg; [contradiction |]. cbn [is_empty] in Hcount.
      replace ((cs_i s =? len examples - 1)
               || (cs_current_length s + len (z :: seg) >=? target)) with false in Hcount.
      * exact Hcount.
      * symmetry. apply orb_false_iff.
        split; [apply Z.eqb_neq; assumption |].
        destruct (Z.geb_spec (cs_current_length s + len (z :: seg)) target);
          [lia | reflexivity].
  - intros s r [Hi Hcount] Hb. apply get_all_chunk_body_break in Hb.
    destruct Hb as [Hge ->]. rewrite flushes_end in Hcount by exact Hge. lia.
  - cbn. split; [lia | reflexivity].
Qed.

Section Count.
Context {G : Type} `{PRNG G}.
Variable tokenizer : Tokenizer.
Variables (fuel : nat) (examples : list tokens).
Variables (max_num_tokens target : Z) (total_chunk : list chunk).

Lemma emission_rows (r r' : batch) :
  emission tokenizer fuel max_num_tokens total_chunk r r' -> rows r' = S (rows r).
Proof.
  intros Hem. apply emission_inv in Hem.
  destruct Hem as (a & b & sa & sb & is_next & _ & _ & _ & _ & ->).
  unfold rows. cbn [input_ids]. rewrite length_app. cbn [length]. lia.
Qed.

(** A chunk of two segments or more, none of them empty, is split into two
    non-empty halves. *)
Lemma split_of_two (current_chunk : chunk) (seg : tokens) (g g1 : G) (a_end : Z)
  (ta tb : tokens) (sa sb : list Z) :
  current_chunk <> [] -> Forall (fun x : tokens => x <> []) current_chunk -> seg <> [] ->
  choose_a_end (current_chunk ++ [seg]) g = Ok (a_end, g1) ->
  split_chunk (current_chunk ++ [seg]) a_end = Ok (ta, sa, (tb, sb)) ->
  ta <> [] /\ tb <> [].
Proof.
  intros Hne Hall Hseg Hch Hsp.
  assert (Hne' : current_chunk ++ [seg] <> []).
  { intros E. apply app_eq_nil in E. destruct E; discriminate. }
  destruct (choose_a_end_spec g Hne') as (a & g' & Hch' & Hrange & Hin).
  rewrite Hch in Hch'. injection Hch' as <- <-.
  assert (Hlen : 2 <= len (current_chunk ++ [seg])).
  { unfold len. rewrite length_app. cbn [length].
    destruct current_chunk; [contradiction | cbn [length]; lia]. }
  apply (@split_chunk_halves (current_chunk ++ [seg]) a_end ta tb sa sb).
  - apply Forall_app. split; [exact Hall | constructor; [exact Hseg | constructor]].
  - specialize (Hin Hlen). lia.
  - exact Hsp.
Qed.

Lemma counting_inv_step (K : nat) (s s' : build_state G) :
  counting_inv examples target K s ->
  build_body tokenizer fuel examples max_num_tokens target total_chunk s
  = Ok (Continue s') ->
  counting_inv examples target K s'.
Proof.
  intros (Hi & Hall & Hstate) Hc. apply build_body_cases in Hc; [| exact Hi].
  destruct Hc as (seg & Hn & Hlt & Hcases).
  pose proof (len_nonneg seg) as Hseglen.
  assert (Hstep := @flushes_step target examples (bs_i s) seg (bs_current_length s) Hi Hn).
  destruct Hcases as [(-> & ->) | [(Hseg & Hnl & Hshort & ->)
    | (Hseg & Hcond & a_end & g1 & ta & sa & tb & sb & Hch & Hsp
       & [(Hhalf & ->) | (Hta & Htb & r' & g' & Hem & ->)])]];
    unfold counting_inv;
    cbn [bs_i bs_current_chunk bs_current_length bs_results].
  - (* an empty segment *)
    split; [lia |]. split; [exact Hall |].
    destruct Hstate as [Hcount | (_ & (seg' & Hn' & Hseg') & _)].
    + left. cbn [is_empty] in Hstep. lia.
    + rewrite Hn in Hn'. injection Hn' as <-. contradiction.
  - (* appended, the chunk is not complete *)
    split; [lia |]. split.
    { apply Forall_app. split; [exact Hall | constructor; [exact Hseg | constructor]]. }
    destruct Hstate as [Hcount | (_ & _ & Hagain & _)]; [| lia].
    left. destruct seg; [contradiction |]. cbn [is_empty] in Hstep.
    replace ((bs_i s =? len examples - 1)
             || (bs_current_length s + len (z :: seg) >=? target)) with false in Hstep.
    + lia.
    + symmetry. apply orb_false_iff. split; [apply Z.eqb_neq; assumption |].
      destruct (Z.geb_spec (bs_current_length s + len (z :: seg)) target);
        [lia | reflexivity].
  - (* [continue] *)
    split; [lia |]. split.
    { apply Forall_app. split; [exact Hall | constructor; [exact Hseg | constructor]]. }
    destruct Hstate as [Hcount | (Hne & _ & _ & _)].
    + right. split.
      { intros E. apply app_eq_nil in E. destruct E; discriminate. }
      split; [exists seg; split; assumption |].
      split; [destruct Hcond; [left; assumption | right; lia] |].
      destruct seg; [contradiction |]. cbn [is_empty] in Hstep.
      replace ((bs_i s =? len examples - 1)
               || (bs_current_length s + len (z :: seg) >=? target)) with true in Hstep.
      * lia.
      * symmetry. apply orb_true_iff.
        destruct Hcond; [left; apply Z.eqb_eq | right; apply Z.geb_le]; assumption.
    + destruct (@split_of_two _ _ _ _ _ _ _ _ _ Hne Hall Hseg Hch Hsp) as [Hta Htb].
      destruct Hhalf; contradiction.
  - (* an instance *)
    split; [lia |]. split; [constructor |]. left.
    rewrite (emission_rows Hem).
    destruct Hstate as [Hcount | (_ & _ & _ & Hcount)]; [| lia].
    destruct seg; [contradiction |]. cbn [is_empty] in Hstep.
    replace ((bs_i s =? len examples - 1)
             || (bs_current_length s + len (z :: seg) >=? target)) with true in Hstep.
    + lia.
    + symmetry. apply orb_true_iff.
      destruct Hcond; [left; apply Z.eqb_eq | right; apply Z.geb_le]; assumption.
Qed.

Lemma build_body_break_index (s r : build_state G) :
  build_body tokenizer fuel examples max_num_tokens target total_chunk s
  = Ok (Break r) -> len examples <= bs_i s.
Proof.
  unfold build_body.
  destruct (Z.ltb_spec (bs_i s) (len examples)) as [Hlt | Hge]; [| intros _; exact Hge].
  destruct (py_getitem examples (bs_i s)) as [seg | e | ]; cbn [bind]; try discriminate.
  destruct (is_empty seg); [discriminate |].
  destruct (_ || _); [| discriminate].
  destruct (is_empty (bs_current_chunk s ++ [seg])); [discriminate |].
  destruct (choose_a_end _ (bs_gen s)) as [[a_end g1] | e | ]; cbn [bind];
    try discriminate.
  destruct (split_chunk _ a_end) as [[[ta sa] [tb sb]] | e | ]; cbn [bind];
    try discriminate.
  destruct (_ || _); [discriminate |].
  destruct (random g1) as [rdn g2].
  destruct (sample_relation _ _ _ _ _) as [[is_next p] | e | ]; cbn [bind];
    try discriminate.
  destruct (truncate_seq_pair _ _ _ _ _ _ _) as [p' | e | ]; cbn [bind];
    try discriminate.
  destruct (emit _ _ _ _) as [results | e | ]; cbn [bind]; discriminate.
Qed.

(** The instance loop appends as many instances as the test succeeds. *)
Lemma build_instances_count (results results' : batch) (g g' : G) :
  build_instances tokenizer fuel examples max_num_tokens target total_chunk results g
  = Ok (results', g') ->
  rows results' = (rows results + flushes target examples 0)%nat.
Proof.
  intros Hrun. unfold build_instances in Hrun.
  apply bind_Ok in Hrun. destruct Hrun as [s [Hloop Hret]].
  injection Hret as <- <-. revert Hloop.
  apply while_ind with
    (I := counting_inv examples target (rows results + flushes target examples 0))
    (P := fun s => rows (bs_results s) = (rows results + flushes target examples 0)%nat).
  - intros s0 s1. apply counting_inv_step.
  - intros s0 r (Hi & _ & Hstate) Hb. pose proof (build_body_break_index _ Hb) as Hge.
    apply build_body_break in Hb. subst r.
    destruct Hstate as [Hcount | (_ & (seg & Hn & _) & _)].
    + rewrite flushes_end in Hcount by exact Hge. lia.
    + assert (Hlt : (Z.to_nat (bs_i s0) < length examples)%nat).
      { apply nth_error_Some. rewrite Hn. discriminate. }
      unfold len in Hge. lia.
  - unfold counting_inv. cbn. split; [lia |]. split; [constructor |]. left. reflexivity.
Qed.
End Count.

Lemma group_pass_inv {G : Type} `{PRNG G} (tokenizer : Tokenizer) (fuel : nat)
  (max_seq_length : Z) (examples : list tokens) (results results' : batch) (g g' : G) :
  group_pass tokenizer fuel max_seq_length examples results g = Ok (results', g') ->
  exists target g1 total_chunk,
    sample_target (max_seq_length - num_special_tokens_to_add tokenizer) g
    = Ok (target, g1)
    /\ get_all_chunk fuel examples target = Ok total_chunk
    /\ build_instances tokenizer fuel examples
         (max_seq_length - num_special_tokens_to_add tokenizer) target total_chunk
         results g1 = Ok (results', g').
Proof.
  intros Hrun. unfold group_pass in Hrun.
  apply bind_Ok in Hrun. destruct Hrun as [[target g1] [Htarget Hrun]].
  apply bind_Ok in Hrun. destruct Hrun as [total_chunk [Hchunks Hrun]].
  exists target, g1, total_chunk. repeat split; assumption.
Qed.

(** X11.  A pass of [group_texts] appends exactly one instance for each chunk of
    its chunking loop: a chunk of one segment, whose split leaves [B] empty,
    is not dropped at the [continue] but built again with its segment twice. *)
Theorem group_pass_one_instance_per_chunk {G : Type} `{PRNG G}
  (tokenizer : Tokenizer) (fuel : nat) (max_seq_length : Z)
  (examples : list tokens) (results results' : batch) (g g' : G) :
  group_pass tokenizer fuel max_seq_length examples results g = Ok (results', g') ->
  exists target g1 total_chunk,
    sample_target (max_seq_length - num_special_tokens_to_add tokenizer) g
    = Ok (target, g1)
    /\ get_all_chunk fuel examples target = Ok total_chunk
    /\ rows results' = (rows results + length total_chunk)%nat.
Proof.
  intros Hrun. apply group_pass_inv in Hrun.
  destruct Hrun as (target & g1 & total_chunk & Htarget & Hchunks & Hbuild).
  exists target, g1, total_chunk. split; [exact Htarget |]. split; [exact Hchunks |].
  rewrite (get_all_chunk_count _ _ _ Hchunks).
  eapply build_instances_count. exact Hbuild.
Qed.

Lemma group_pass_one_instance_per_chunk_witness :
  exists target g1 total_chunk,
    sample_target (13 - num_special_tokens_to_add (pair_tokenizer 101 102))
      [Script.draw_09; 0; Script.draw_09; 0; Script.draw_09] = Ok (target, g1)
    /\ get_all_chunk 20 [[1; 2; 3; 4; 5; 6; 7; 8; 9; 10]; [11]; [12]] target
       = Ok total_chunk
    /\ rows (mk_batch [[101; 5; 6; 7; 8; 9; 102; 6; 7; 8; 9; 10; 102];
                       [101; 12; 102; 11; 102]]
               [[0; 0; 0; 0; 0; 0; 0; 1; 1; 1; 1; 1; 1]; [0; 0; 0; 1; 1]]
               [[1; 1; 1; 1; 1; 1; 1; 1; 1; 1; 1; 1; 1]; [1; 1; 1; 1; 1]]
               [[1; 0; 0; 0; 0; 0; 1; 0; 0; 0; 0; 0; 1]; [1; 0; 1; 0; 1]]
               [SAME_ORDER; SWAPPED]
               [[0; 1; 1; 1; 1; 1; 2; 3; 3; 3; 3; 3; 4]; [0; 1; 2; 3; 4]])
       = (rows empty_batch + length total_chunk)%nat.
Proof.
  assert (Hrun : group_pass (pair_tokenizer 101 102) 20 13
                   [[1; 2; 3; 4; 5; 6; 7; 8; 9; 10]; [11]; [12]] empty_batch
                   [Script.draw_09; 0; Script.draw_09; 0; Script.draw_09]
                 = Ok (mk_batch [[101; 5; 6; 7; 8; 9; 102; 6; 7; 8; 9; 10; 102];
                                 [101; 12; 102; 11; 102]]
                         [[0; 0; 0; 0; 0; 0; 0; 1; 1; 1; 1; 1; 1]; [0; 0; 0; 1; 1]]
                         [[1; 1; 1; 1; 1; 1; 1; 1; 1; 1; 1; 1; 1]; [1; 1; 1; 1; 1]]
                         [[1; 0; 0; 0; 0; 0; 1; 0; 0; 0; 0; 0; 1]; [1; 0; 1; 0; 1]]
                         [SAME_ORDER; SWAPPED]
                         [[0; 1; 1; 1; 1; 1; 2; 3; 3; 3; 3; 3; 4]; [0; 1; 2; 3; 4]], []))
    by (vm_compute; reflexivity).
  exact (@group_pass_one_instance_per_chunk (list Z) _ (pair_tokenizer 101 102) 20%nat
           13 _ _ _ _ _ Hrun).
Defined.

(** X12.  [group_texts] returns at most [dupe_factor] instances for each segment
    of the batch, and at least [dupe_factor] instances when the last segment
    of the batch is not empty. *)
Theorem group_texts_row_count {G : Type} `{PRNG G} (tokenizer : Tokenizer)
  (fuel : nat) (max_seq_length dupe_factor : Z) (examples : list tokens)
  (results : batch) (g g' : G) :
  group_texts tokenizer fuel max_seq_length dupe_factor examples g = Ok (results, g') ->
  (rows results <= Z.to_nat dupe_factor * length examples)%nat
  /\ (last examples [] <> [] -> (Z.to_nat dupe_factor <= rows results)%nat).
Proof.
  unfold group_texts. generalize (Z.to_nat dupe_factor) as n. intros n Hrun.
  assert (Hgen : forall r0 g0,
             repeat_pass tokenizer n fuel max_seq_length examples r0 g0
             = Ok (results, g') ->
             (rows results <= rows r0 + n * length examples)%nat
             /\ (last examples [] <> [] -> (rows r0 + n <= rows results)%nat)).
  { clear Hrun. induction n as [| n IH]; intros r0 g0 Hrun; cbn [repeat_pass] in Hrun.
    - injection Hrun as <- _. split; [lia | intros _; lia].
    - apply bind_Ok in Hrun. destruct Hrun as [[r1 g1] [Hpass Hrest]].
      apply group_pass_inv in Hpass.
      destruct Hpass as (target & g2 & total_chunk & _ & _ & Hbuild).
      apply build_instances_count in Hbuild.
      destruct (IH r1 g1 Hrest) as [Hup Hlow].
      pose proof (flushes_le target examples 0) as Hle. split.
      + lia.
      + intros Hlast. specialize (Hlow Hlast).
        pose proof (@flushes_last target examples 0 Hlast). lia. }
  destruct (Hgen empty_batch g Hrun) as [Hup Hlow]. cbn in Hup, Hlow.
  split; [lia | exact Hlow].
Qed.

Lemma group_texts_row_count_witness :
  Nat.le (rows (mk_batch [[101; 1; 2; 102; 3; 4; 5; 6; 102]]
                  [[0; 0; 0; 0; 1; 1; 1; 1; 1]]
                  [[1; 1; 1; 1; 1; 1; 1; 1; 1]]
                  [[1; 0; 0; 1; 0; 0; 0; 0; 1]]
                  [SAME_ORDER]
                  [[0; 1; 1; 2; 3; 4; 4; 4; 5]]))
    (Z.to_nat 1 * length [[1; 2]; [3]; [4; 5; 6]])
  /\ (last [[1; 2]; [3]; [4; 5; 6]] [] <> [] ->
      Nat.le (Z.to_nat 1)
        (rows (mk_batch [[101; 1; 2; 102; 3; 4; 5; 6; 102]]
                 [[0; 0; 0; 0; 1; 1; 1; 1; 1]]
                 [[1; 1; 1; 1; 1; 1; 1; 1; 1]]
                 [[1; 0; 0; 1; 0; 0; 0; 0; 1]]
                 [SAME_ORDER]
                 [[0; 1; 1; 2; 3; 4; 4; 4; 5]]))).
Proof.
  assert (Hrun : group_texts (pair_tokenizer 101 102) 4 13 1 [[1; 2]; [3]; [4; 5; 6]]
                   [Script.draw_09; 0; Script.draw_09]
                 = Ok (mk_batch [[101; 1; 2; 102; 3; 4; 5; 6; 102]]
                         [[0; 0; 0; 0; 1; 1; 1; 1; 1]]
                         [[1; 1; 1; 1; 1; 1; 1; 1; 1]]
                         [[1; 0; 0; 1; 0; 0; 0; 0; 1]]
                         [SAME_ORDER]
                         [[0; 1; 1; 2; 3; 4; 4; 4; 5]], []))
    by (vm_compute; reflexivity).
  exact (@group_texts_row_count (list Z) _ (pair_tokenizer 101 102) 4%nat 13 1
           [[1; 2]; [3]; [4; 5; 6]] _ _ _ Hrun).
Defined.

(** X13.  Without room for two tokens [group_texts] returns no instance: what it
    returns, if it returns, is the empty batch. *)
Theorem group_texts_without_room {G : Type} `{PRNG G} (tokenizer : Tokenizer)
  (fuel : nat) (max_seq_length dupe_factor : Z) (examples : list tokens)
  (results : batch) (g g' : G) :
  max_seq_length - num_special_tokens_to_add tokenizer < 2 ->
  group_texts tokenizer fuel max_seq_length dupe_factor examples g = Ok (results, g') ->
  results = empty_batch.
Proof.
  intros Hroom Hrun. revert Hrun.
  apply group_texts_ind with (P := fun r => r = empty_batch); [reflexivity |].
  intros total_chunk r r' _ Hem. apply emission_inv in Hem.
  destruct Hem as (a & b & _ & _ & _ & (Ha & Hb & Hfit) & _). cbn [fst snd] in *.
  unfold len in Hfit. destruct a; [contradiction |]. destruct b; [contradiction |].
  cbn [length] in Hfit. lia.
Qed.

Lemma group_texts_without_room_witness :
  mk_batch [] [] [] [] [] [] = empty_batch.
Proof.
  assert (Hrun : group_texts (pair_tokenizer 101 102) 4 4 2 [[]; []]
                   [Script.draw_09; Script.draw_09]
                 = Ok (mk_batch [] [] [] [] [] [], []))
    by (vm_compute; reflexivity).
  assert (Hroom : 4 - num_special_tokens_to_add (pair_tokenizer 101 102) < 2)
    by (cbn; lia).
  exact (@group_texts_without_room (list Z) _ (pair_tokenizer 101 102) 4%nat 4 2
           [[]; []] _ _ _ Hroom Hrun).
Defined.

(** X14.  Without room for two tokens, a first draw below [short_seq_prob] makes
    [random.randint(2, max_num_tokens)] raise [ValueError]. *)
Theorem group_texts_short_target_raises {G : Type} `{PRNG G} (tokenizer : Tokenizer)
  (fuel : nat) (max_seq_length dupe_factor : Z) (examples : list tokens) (g : G) :
  max_seq_length - num_special_tokens_to_add tokenizer < 2 ->
  0 < dupe_factor ->
  Qltb (fst (random g)) short_seq_prob = true ->
  group_texts tokenizer fuel max_seq_length dupe_factor examples g = Raise ValueError.
Proof.
  intros Hroom Hdupe Hshort. unfold group_texts.
  destruct (Z.to_nat dupe_factor) as [| n] eqn:Hn; [lia |].
  cbn [repeat_pass]. unfold group_pass, sample_target.
  destruct (random g) as [r g1]. cbn [fst] in Hshort. rewrite Hshort.
  unfold py_randint.
  destruct (Z.leb_spec 2 (max_seq_length - num_special_tokens_to_add tokenizer));
    [lia | reflexivity].
Qed.

Lemma group_texts_short_target_raises_witness :
  group_texts (pair_tokenizer 101 102) 4 4 1 [[1; 2]; [3]] [Script.draw_low]
  = Raise ValueError.
Proof.
  apply (@group_texts_short_target_raises (list Z) _ (pair_tokenizer 101 102) 4%nat 4 1
           [[1; 2]; [3]] [Script.draw_low]).
  - cbn. lia.
  - lia.
  - vm_compute. reflexivity.
Defined.

(** ** The function returns *)

Lemma concat_skipn_step (l : list tokens) (n : nat) (seg : tokens) :
  nth_error l n = Some seg ->
  length (concat (skipn n l))
  = (length seg + length (concat (skipn (S n) l)))%nat.
Proof.
  intros Hn. rewrite (skipn_nth_error _ _ Hn). cbn [concat]. apply length_app.
Qed.

Lemma concat_firstn_le (l : list tokens) (n : nat) :
  (length (concat (firstn n l)) <= length (concat l))%nat.
Proof.
  rewrite <- (firstn_skipn n l) at 2. rewrite concat_app, length_app. lia.
Qed.

Lemma concat_skipn_le (l : list tokens) (n : nat) :
  (length (concat (skipn n l)) <= length (concat l))%nat.
Proof.
  rewrite <- (firstn_skipn n l) at 2. rewrite concat_app, length_app. lia.
Qed.

Lemma concat_in_le (ls : list chunk) (c : chunk) :
  In c ls -> (length (concat c) <= length (concat (concat ls)))%nat.
Proof.
  induction ls as [| c' ls IH]; intros Hin; [contradiction |].
  cbn [concat]. rewrite concat_app, length_app.
  destruct Hin as [-> | Hin]; [lia | specialize (IH Hin); lia].
Qed.

Lemma concat_filter_le (f : tokens -> bool) (l : list tokens) :
  (length (concat (filter f l)) <= length (concat l))%nat.
Proof.
  induction l as [| x l IH]; cbn; [lia |].
  destruct (f x); cbn [concat]; rewrite ?length_app; lia.
Qed.

(** No chunk holds more tokens than the batch. *)
Lemma get_all_chunk_tokens (fuel : nat) (examples : list tokens) (target : Z)
  (total_chunk : list chunk) :
  get_all_chunk fuel examples target = Ok total_chunk ->
  Forall (fun c : chunk => (length (concat c) <= length (concat examples))%nat)
    total_chunk.
Proof.
  intros Hrun. apply get_all_chunk_inv in Hrun.
  destruct Hrun as (s & (_ & Hpart & _) & Hend & <-).
  rewrite Hend in Hpart. unfold len in Hpart. rewrite Nat2Z.id, firstn_all in Hpart.
  apply Forall_forall. intros c Hin.
  pose proof (concat_in_le _ _ Hin) as Hle.
  pose proof (concat_filter_le nonempty examples) as Hf.
  rewrite Hpart, concat_app, length_app in Hf. lia.
Qed.

Lemma emit_not_fuel {G : Type} (tokenizer : Tokenizer) (results : batch)
  (is_next : Z) (p : pair_state G) :
  emit tokenizer results is_next p <> OutOfFuel.
Proof.
  unfold emit.
  destruct (len (ps_tokens_a p) >=? 1); cbn [py_assert bind]; [| discriminate].
  destruct (len (ps_tokens_b p) >=? 1); cbn [py_assert bind]; [| discriminate].
  destruct (ps_a_segment_ids p) as [| a0 sa]; [discriminate |].
  destruct (ps_b_segment_ids p) as [| b0 sb]; [discriminate |].
  cbn. discriminate.
Qed.

Lemma py_getitem_not_fuel {A : Type} (l : list A) (i : Z) : py_getitem l i <> OutOfFuel.
Proof.
  unfold py_getitem. destruct (_ <? 0); [discriminate |].
  destruct (nth_error _ _); discriminate.
Qed.

Lemma result_cases {A : Type} (r : Result A) :
  r <> OutOfFuel -> (forall e, r <> Raise e) -> exists a, r = Ok a.
Proof.
  destruct r as [a | e | ]; intros Hf Hr.
  - exists a. reflexivity.
  - exfalso. apply (Hr e). reflexivity.
  - contradiction.
Qed.

Section Returns.
Context {G : Type} `{PRNG G}.
Variable tokenizer : Tokenizer.
Variables (fuel : nat) (examples : list tokens).
Variables (max_num_tokens target : Z) (total_chunk : list chunk).
Hypothesis chunk_tokens :
  Forall (fun c : chunk => (length (concat c) <= length (concat examples))%nat)
    total_chunk.
Hypothesis pick_ends :
  1 < len total_chunk ->
  forall (chunk_id : Z) (g : G), pick_rid fuel total_chunk chunk_id g <> OutOfFuel.
Hypothesis enough : (2 * length (concat examples) < fuel)%nat.

Lemma running_inv_step (s s' : build_state G) :
  running_inv examples target s ->
  build_body tokenizer fuel examples max_num_tokens target total_chunk s
  = Ok (Continue s') ->
  running_inv examples target s'
  /\ (passes_left examples s' < passes_left examples s)%nat.
Proof.
  intros (Hi & Hall & Hle & Hstate) Hc. apply build_body_cases in Hc; [| exact Hi].
  destruct Hc as (seg & Hn & Hlt & Hcases).
  pose proof (len_nonneg seg) as Hseglen.
  pose proof (concat_skipn_step _ _ Hn) as Hsk.
  pose proof (concat_skipn_le examples (S (Z.to_nat (bs_i s)))) as Hrest.
  assert (Hsegle : (length seg <= length (concat examples))%nat).
  { pose proof (concat_skipn_le examples (Z.to_nat (bs_i s))). lia. }
  destruct Hcases as [(-> & ->) | [(Hseg & Hnl & Hshort & ->)
    | (Hseg & Hcond & a_end & g1 & ta & sa & tb & sb & Hch & Hsp
       & [(Hhalf & ->) | (Hta & Htb & r' & g' & Hem & ->)])]];
    unfold running_inv, passes_left;
    cbn [bs_i bs_current_chunk bs_current_length bs_results];
    replace (Z.to_nat (bs_i s + 1)) with (S (Z.to_nat (bs_i s))) by lia.
  - (* an empty segment *)
    cbn [length] in Hsk. split; [| lia].
    split; [lia |]. split; [exact Hall |]. split; [exact Hle |].
    destruct Hstate as [Hcount | (Hne & [Hlast | Hfull])]; [left; lia | |].
    + (* the empty segment is the last one: nothing is left *)
      left. rewrite skipn_all2 by (unfold len in Hlast; lia). cbn. lia.
    + right. split; [exact Hne | right; exact Hfull].
  - (* appended, the chunk is not complete *)
    destruct Hstate as [Hcount | (_ & Hagain)]; [| lia].
    rewrite concat_app, length_app. cbn [concat]. rewrite app_nil_r.
    split.
    + split; [lia |]. split.
      { apply Forall_app. split; [exact Hall | constructor; [exact Hseg | constructor]]. }
      split; [lia |]. left. lia.
    + rewrite is_empty_snoc. destruct (is_empty (bs_current_chunk s)); lia.
  - (* [continue] *)
    destruct (bs_current_chunk s) as [| c0 cc] eqn:Hcc.
    + cbn [app concat is_empty]. rewrite app_nil_r. split; [| lia].
      split; [lia |]. split; [constructor; [exact Hseg | constructor] |].
      split; [exact Hsegle |]. right. split; [discriminate |].
      destruct Hcond; [left; assumption | right; assumption].
    + assert (Hne : c0 :: cc <> []) by discriminate.
      destruct (@split_of_two _ _ _ _ _ _ _ _ _ _ _ Hne Hall Hseg Hch Hsp) as [Hta Htb].
      destruct Hhalf; contradiction.
  - (* an instance *)
    cbn [concat length is_empty]. split.
    + split; [lia |]. split; [constructor |]. split; [lia |]. left. lia.
    + destruct (is_empty (bs_current_chunk s)); lia.
Qed.
Lemma sample_relation_not_fuel (rdn : Q) (chunk_id : Z) (p : pair_state G) :
  sample_relation fuel rdn total_chunk chunk_id p <> OutOfFuel.
Proof.
  unfold sample_relation.
  destruct (Qltb rdn one_third); [discriminate |].
  destruct (Qltb rdn two_thirds); cbn [andb]; [| discriminate].
  destruct (Z.gtb_spec (len total_chunk) 1) as [Hmany | Hfew]; [| discriminate].
  apply bind_not_fuel; [apply pick_ends; lia |].
  intros [rid g'] _. apply bind_not_fuel; [apply py_getitem_not_fuel |].
  intros another _. discriminate.
Qed.

Lemma build_body_not_fuel (s : build_state G) :
  running_inv examples target s ->
  build_body tokenizer fuel examples max_num_tokens target total_chunk s <> OutOfFuel.
Proof.
  intros (Hi & Hall & Hle & Hstate). unfold build_body.
  destruct (Z.ltb_spec (bs_i s) (len examples)) as [Hlt | Hge]; [| discriminate].
  rewrite <- (Z2Nat.id (bs_i s)) at 1 by exact Hi. rewrite py_getitem_nat.
  destruct (nth_error examples (Z.to_nat (bs_i s))) as [seg |] eqn:Hn; cbn [bind];
    [| discriminate].
  destruct (is_empty seg); [discriminate |].
  destruct (_ || _); [| discriminate].
  rewrite is_empty_snoc.
  assert (Hne : bs_current_chunk s ++ [seg] <> []).
  { intros E. apply app_eq_nil in E. destruct E; discriminate. }
  destruct (choose_a_end_spec (bs_gen s) Hne) as (a_end & g1 & -> & Hrange & Hin).
  cbn [bind]. rewrite split_chunk_eq by lia. cbn [bind].
  destruct (_ || _) eqn:Hhalves; [discriminate |].
  apply orb_false_iff in Hhalves. destruct Hhalves as [_ Hb].
  (* [B] is not empty: the chunk has two segments or more, and [A] ends
     before the segment just appended *)
  assert (Hcc : bs_current_chunk s <> []).
  { intros E. rewrite E in *. cbn [app] in *. unfold len in Hrange. cbn [length] in Hrange.
    replace a_end with 1 in Hb by lia. cbn in Hb. discriminate. }
  assert (Hlen : 2 <= len (bs_current_chunk s ++ [seg])).
  { unfold len. rewrite length_app. cbn [length].
    destruct (bs_current_chunk s); [contradiction | cbn [length]; lia]. }
  specialize (Hin Hlen). unfold len in Hin. rewrite length_app in Hin. cbn [length] in Hin.
  assert (Ha : (length (concat (firstn (Z.to_nat a_end) (bs_current_chunk s ++ [seg])))
                <= length (concat examples))%nat).
  { rewrite firstn_app.
    replace (Z.to_nat a_end - length (bs_current_chunk s))%nat with 0%nat by lia.
    cbn [firstn]. rewrite app_nil_r.
    pose proof (concat_firstn_le (bs_current_chunk s) (Z.to_nat a_end)). lia. }
  assert (Hab : (length (concat (firstn (Z.to_nat a_end) (bs_current_chunk s ++ [seg])))
                 + length (concat (skipn (Z.to_nat a_end) (bs_current_chunk s ++ [seg])))
                 <= 2 * length (concat examples))%nat).
  { rewrite <- length_app, <- concat_app, firstn_skipn, concat_app, length_app.
    cbn [concat]. rewrite app_nil_r.
    pose proof (concat_skipn_step _ _ Hn).
    pose proof (concat_skipn_le examples (Z.to_nat (bs_i s))). lia. }
  destruct (random g1) as [rdn g2].
  apply bind_not_fuel; [apply sample_relation_not_fuel |].
  intros [is_next p] Hrel. apply bind_not_fuel.
  - apply truncate_seq_pair_not_fuel.
    apply sample_relation_inv in Hrel.
    destruct Hrel as [(_ & _ & ->) | [(_ & _ & _ & Hmany & rid & g' & c & Hrid & Hget & ->)
                                     | (_ & _ & _ & ->)]]; cbn.
    + lia.
    + apply pick_rid_spec in Hrid. destruct Hrid as [Hrid _].
      destruct (py_getitem_in_range total_chunk Hrid) as [c' [Hget' Hc']].
      rewrite Hget in Hget'. injection Hget' as <-.
      rewrite Forall_forall in chunk_tokens. specialize (chunk_tokens c Hc').
      rewrite py_sum_concat. lia.
    + lia.
  - intros p' _. apply bind_not_fuel; [apply emit_not_fuel |].
    intros results' _. discriminate.
Qed.

Lemma build_instances_not_fuel (results : batch) (g : G) :
  (2 * length examples + 1 < fuel)%nat ->
  build_instances tokenizer fuel examples max_num_tokens target total_chunk results g
  <> OutOfFuel.
Proof.
  intros Hfuel. unfold build_instances.
  apply bind_not_fuel; [| intros s _; discriminate].
  apply while_terminates with (I := running_inv examples target) (m := passes_left examples).
  - apply build_body_not_fuel.
  - apply running_inv_step.
  - unfold running_inv. cbn. split; [lia |]. split; [constructor |]. split; [lia |].
    left. lia.
  - unfold passes_left. cbn [bs_i bs_current_chunk is_empty]. unfold len. lia.
Qed.
End Returns.

Lemma consecutive_differ (n m : Z) : 2 <= m -> (n + 1) mod m <> n mod m.
Proof.
  intros Hm E.
  assert (Hone : (n + 1 - n) mod m = 0).
  { rewrite Zminus_mod, E, Z.sub_diag. apply Z.mod_0_l. lia. }
  replace (n + 1 - n) with 1 in Hone by lia.
  rewrite Z.mod_1_l in Hone by lia. discriminate.
Qed.

Lemma counter_pick_rid_ends (fuel : nat) (total_chunk : list chunk)
  (chunk_id : Z) (n : Z) :
  1 < len total_chunk -> (2 <= fuel)%nat ->
  pick_rid fuel total_chunk chunk_id n <> OutOfFuel.
Proof.
  intros Hmany Hfuel. destruct fuel as [| [| fuel]]; try lia.
  unfold pick_rid. cbn [while]. unfold pick_rid_body at 1. unfold py_randint.
  destruct (Z.leb_spec 0 (len total_chunk - 1)) as [_ | Hneg]; [| lia].
  cbn [randint Counter.counter_prng Counter.counter_randint bind].
  replace (len total_chunk - 1 - 0 + 1) with (len total_chunk) by lia.
  destruct (Z.eqb_spec (0 + n mod len total_chunk) chunk_id) as [Hsame | Hdiff];
    cbn [negb bind]; [| discriminate].
  unfold pick_rid_body at 1. unfold py_randint.
  destruct (Z.leb_spec 0 (len total_chunk - 1)) as [_ | Hneg]; [| lia].
  cbn [randint Counter.counter_prng Counter.counter_randint bind].
  replace (len total_chunk - 1 - 0 + 1) with (len total_chunk) by lia.
  destruct (Z.eqb_spec (0 + (n + 1) mod len total_chunk) chunk_id) as [Hsame' | Hdiff];
    cbn [negb bind]; [| discriminate].
  exfalso. apply (@consecutive_differ n (len total_chunk)); lia.
Qed.

(** X15.  [group_texts] returns a batch, with neither an exception nor an endless
    loop, when there is room for two tokens and the rejection loop
    [while True: rid = random.randint(...)] ends: in the model, when the
    fuel covers two passes for each segment, one for each of twice the
    tokens of the batch, and the draws of that loop. *)
Theorem group_texts_returns {G : Type} `{PRNG G} (tokenizer : Tokenizer)
  (fuel : nat) (max_seq_length dupe_factor : Z) (examples : list tokens) (g : G) :
  2 <= max_seq_length - num_special_tokens_to_add tokenizer ->
  (forall (total_chunk : list chunk) (chunk_id : Z) (g0 : G),
      1 < len total_chunk -> pick_rid fuel total_chunk chunk_id g0 <> OutOfFuel) ->
  (2 * length examples + 2 * length (concat examples) + 1 < fuel)%nat ->
  exists results g',
    group_texts tokenizer fuel max_seq_length dupe_factor examples g = Ok (results, g').
Proof.
  intros Hroom Hpick Hfuel. unfold group_texts.
  generalize (Z.to_nat dupe_factor) as n. generalize empty_batch as r0.
  intros r0 n. revert r0 g. induction n as [| n IH]; intros r0 g; cbn [repeat_pass].
  - exists r0, g. reflexivity.
  - assert (Hpass : exists r1 g1,
               group_pass tokenizer fuel max_seq_length examples r0 g = Ok (r1, g1)).
    { unfold group_pass.
      assert (Htarget : exists target g1,
                 sample_target (max_seq_length - num_special_tokens_to_add tokenizer) g
                 = Ok (target, g1)).
      { unfold sample_target. destruct (random g) as [r g1].
        destruct (Qltb r short_seq_prob); [| eexists; eexists; reflexivity].
        unfold py_randint.
        destruct (Z.leb_spec 2 (max_seq_length - num_special_tokens_to_add tokenizer));
          [| lia].
        destruct (randint _ _ g1) as [target g2]. eexists; eexists; reflexivity. }
      destruct Htarget as (target & g1 & ->). cbn [bind].
      destruct (@get_all_chunk_returns fuel examples target) as [total_chunk Hchunks];
        [lia |].
      rewrite Hchunks. cbn [bind].
      destruct (@result_cases _
                  (build_instances tokenizer fuel examples
                     (max_seq_length - num_special_tokens_to_add tokenizer) target
                     total_chunk r0 g1)) as [[r1 g2] Hbuild].
      - apply build_instances_not_fuel.
        + eapply get_all_chunk_tokens. exact Hchunks.
        + intros Hmany chunk_id g0. apply Hpick. exact Hmany.
        + lia.
        + lia.
      - intros e. apply build_instances_no_raise; [exact Hroom |].
        eapply get_all_chunk_nonempty. exact Hchunks.
      - exists r1, g2. exact Hbuild. }
    destruct Hpass as (r1 & g1 & ->). cbn [bind]. apply IH.
Qed.

Lemma group_texts_returns_witness :
  exists results g',
    group_texts (pair_tokenizer 101 102) 20 8 3 [[1; 2]; [3]; [4; 5; 6]] (0 : Z)
    = Ok (results, g').
Proof.
  apply (@group_texts_returns Z _ (pair_tokenizer 101 102) 20%nat 8 3
           [[1; 2]; [3]; [4; 5; 6]] 0).
  - cbn. lia.
  - intros total_chunk chunk_id g0 Hmany. apply counter_pick_rid_ends; [exact Hmany | lia].
  - cbn. lia.
Defined.

(** ** Where the tokens come from *)

Lemma py_getitem_In {A : Type} (l : list A) (i : Z) (x : A) :
  py_getitem l i = Ok x -> In x l.
Proof.
  unfold py_getitem. destruct (_ <? 0); [discriminate |].
  destruct (nth_error _ _) as [y |] eqn:Hn; [| discriminate].
  intros E; injection E as <-. eapply nth_error_In. exact Hn.
Qed.

Lemma concat_incl (c c' : list tokens) :
  incl c' c -> incl (concat c') (concat c).
Proof.
  intros Hsub t Ht. apply in_concat in Ht. destruct Ht as (seg & Hseg & Hin).
  apply in_concat. exists seg. split; [apply Hsub; exact Hseg | exact Hin].
Qed.

Lemma drop_end_incl {A : Type} (front : bool) (l : list A) : incl (drop_end front l) l.
Proof.
  intros x Hx. destruct front; cbn in Hx.
  - destruct l; [contradiction | right; exact Hx].
  - induction l as [| y l IH]; [contradiction |].
    destruct l as [| z l]; [contradiction |].
    destruct Hx as [-> | Hx]; [left; reflexivity | right; apply IH; exact Hx].
Qed.

(** Truncation only removes tokens. *)
Lemma truncate_seq_pair_incl {G : Type} `{PRNG G} (fuel : nat) (a b : tokens)
  (max_num_tokens : Z) (sa sb : list Z) (g : G) (p : pair_state G) :
  truncate_seq_pair fuel a b max_num_tokens sa sb g = Ok p ->
  incl (ps_tokens_a p) a /\ incl (ps_tokens_b p) b.
Proof.
  unfold truncate_seq_pair.
  apply while_ind with
    (I := fun s : pair_state G => incl (ps_tokens_a s) a /\ incl (ps_tokens_b s) b)
    (P := fun s : pair_state G => incl (ps_tokens_a s) a /\ incl (ps_tokens_b s) b).
  - intros s s' [Ha Hb] Hc. apply truncate_body_continue in Hc. cbn zeta in Hc.
    destruct Hc as (_ & _ & _ & Htok & _).
    destruct (trunc_target (ps_tokens_a s) (ps_tokens_b s)); cbn [put pick] in Htok;
      injection Htok as -> ->; split; try assumption.
    + intros x Hx. apply Ha. eapply drop_end_incl. exact Hx.
    + intros x Hx. apply Hb. eapply drop_end_incl. exact Hx.
  - intros s r Hs Hb. apply truncate_body_break in Hb. destruct Hb as [-> _]. exact Hs.
  - cbn. split; apply incl_refl.
Qed.

(** The chunks hold segments of the batch. *)
Lemma get_all_chunk_from (fuel : nat) (examples : list tokens) (target : Z)
  (total_chunk : list chunk) :
  get_all_chunk fuel examples target = Ok total_chunk ->
  Forall (fun c : chunk => incl c examples) total_chunk.
Proof.
  intros Hrun. apply get_all_chunk_inv in Hrun.
  destruct Hrun as (s & (_ & Hpart & _) & _ & <-).
  apply Forall_forall. intros c Hc seg Hseg.
  assert (Hin : In seg (filter nonempty (firstn (Z.to_nat (cs_i s)) examples))).
  { rewrite Hpart. apply in_or_app. left. apply in_concat. exists c. split; assumption. }
  apply filter_In in Hin. destruct Hin as [Hin _].
  rewrite <- (firstn_skipn (Z.to_nat (cs_i s)) examples). apply in_or_app. left. exact Hin.
Qed.

Section Provenance.
Context {G : Type} `{PRNG G}.
Variable tokenizer : Tokenizer.
Variables (fuel : nat) (examples : list tokens).
Variables (max_num_tokens target : Z) (total_chunk : list chunk).
Hypothesis chunks_from : Forall (fun c : chunk => incl c examples) total_chunk.

Lemma build_body_from (s s' : build_state G) :
  incl (bs_current_chunk s) examples ->
  pairs_from tokenizer examples (bs_results s) ->
  build_body tokenizer fuel examples max_num_tokens target total_chunk s
  = Ok (Continue s') ->
  incl (bs_current_chunk s') examples /\ pairs_from tokenizer examples (bs_results s').
Proof.
  intros Hcc Hres. unfold build_body.
  destruct (bs_i s <? len examples); [| discriminate].
  destruct (py_getitem examples (bs_i s)) as [seg | e | ] eqn:Hseg; cbn [bind];
    try discriminate.
  apply py_getitem_In in Hseg.
  assert (Hcc' : incl (bs_current_chunk s ++ [seg]) examples).
  { apply incl_app; [exact Hcc |]. intros x [<- | []]. exact Hseg. }
  destruct (is_empty seg).
  { intros Hc; injection Hc as <-. split; assumption. }
  destruct (_ || _).
  2:{ intros Hc; injection Hc as <-. split; assumption. }
  rewrite is_empty_snoc.
  assert (Hne : bs_current_chunk s ++ [seg] <> []).
  { intros E. apply app_eq_nil in E. destruct E; discriminate. }
  destruct (choose_a_end_spec (bs_gen s) Hne) as (a_end & g1 & -> & Hrange & _).
  cbn [bind]. rewrite split_chunk_eq by lia. cbn [bind].
  destruct (_ || _).
  { intros Hc; injection Hc as <-. split; assumption. }
  destruct (random g1) as [rdn g2].
  destruct (sample_relation _ _ _ _ _) as [[is_next p] | e | ] eqn:Hrel; cbn [bind];
    try discriminate.
  destruct (truncate_seq_pair _ _ _ _ _ _ _) as [p' | e | ] eqn:Htr; cbn [bind];
    try discriminate.
  destruct (emit _ _ _ _) as [results | e | ] eqn:Hem; cbn [bind]; try discriminate.
  intros Hc; injection Hc as <-. cbn [bs_current_chunk bs_results].
  split; [intros x [] |].
  apply truncate_seq_pair_incl in Htr. destruct Htr as [Ha Hb].
  assert (Hp : incl (ps_tokens_a p) (concat examples)
               /\ incl (ps_tokens_b p) (concat examples)).
  { assert (Hfirst : incl (concat (firstn (Z.to_nat a_end) (bs_current_chunk s ++ [seg])))
                       (concat examples)).
    { apply concat_incl. intros x Hx. apply Hcc'.
      rewrite <- (firstn_skipn (Z.to_nat a_end) (bs_current_chunk s ++ [seg])).
      apply in_or_app. left. exact Hx. }
    assert (Hrest : incl (concat (skipn (Z.to_nat a_end) (bs_current_chunk s ++ [seg])))
                      (concat examples)).
    { apply concat_incl. intros x Hx. apply Hcc'.
      rewrite <- (firstn_skipn (Z.to_nat a_end) (bs_current_chunk s ++ [seg])).
      apply in_or_app. right. exact Hx. }
    apply sample_relation_inv in Hrel.
    destruct Hrel as [(_ & _ & ->) | [(_ & _ & _ & _ & rid & g' & c & _ & Hget & ->)
                                     | (_ & _ & _ & ->)]]; cbn; split; try assumption.
    apply py_getitem_In in Hget. rewrite Forall_forall in chunks_from.
    rewrite py_sum_concat. apply concat_incl. apply chunks_from. exact Hget. }
  destruct Hp as [Hpa Hpb].
  apply emit_inv in Hem. destruct Hem as (_ & _ & _ & _ & ->).
  destruct Hres as (pairs & Hrows & Hall).
  exists (pairs ++ [(ps_tokens_a p', ps_tokens_b p')]). cbn [input_ids].
  rewrite map_app, Hrows. split; [reflexivity |].
  apply Forall_app. split; [exact Hall |]. constructor; [| constructor]. cbn [fst snd].
  split; eapply incl_tran; eassumption.
Qed.

Lemma build_instances_from (results results' : batch) (g g' : G) :
  pairs_from tokenizer examples results ->
  build_instances tokenizer fuel examples max_num_tokens target total_chunk results g
  = Ok (results', g') ->
  pairs_from tokenizer examples results'.
Proof.
  intros Hres Hrun. unfold build_instances in Hrun.
  apply bind_Ok in Hrun. destruct Hrun as [s [Hloop Hret]].
  injection Hret as <- <-. revert Hloop.
  apply while_ind with
    (I := fun s => incl (bs_current_chunk s) examples
                   /\ pairs_from tokenizer examples (bs_results s))
    (P := fun s => pairs_from tokenizer examples (bs_results s)).
  - intros s0 s1 [Hcc Hr]. apply build_body_from; assumption.
  - intros s0 r [_ Hr] Hb. apply build_body_break in Hb. subst r. exact Hr.
  - cbn. split; [intros x [] | exact Hres].
Qed.
End Provenance.

(** X16.  [group_texts] invents no token: every row of [input_ids] is assembled
    from a pair (A, B) whose tokens all occur in the segments of the batch. *)
Theorem group_texts_tokens_from_examples {G : Type} `{PRNG G} (tokenizer : Tokenizer)
  (fuel : nat) (max_seq_length dupe_factor : Z) (examples : list tokens)
  (results : batch) (g g' : G) :
  group_texts tokenizer fuel max_seq_length dupe_factor examples g = Ok (results, g') ->
  exists pairs : list (tokens * tokens),
    input_ids results
    = map (fun ab => build_inputs_with_special_tokens tokenizer (fst ab) (snd ab)) pairs
    /\ Forall (fun ab => incl (fst ab) (concat examples)
                         /\ incl (snd ab) (concat examples)) pairs.
Proof.
  unfold group_texts. generalize (Z.to_nat dupe_factor) as n. intros n.
  assert (Hinit : pairs_from tokenizer examples empty_batch).
  { exists []. split; [reflexivity | constructor]. }
  revert Hinit. generalize empty_batch as r0. intros r0 Hr0. revert r0 Hr0 g.
  induction n as [| n IH]; intros r0 Hr0 g Hrun; cbn [repeat_pass] in Hrun.
  - injection Hrun as <- _. exact Hr0.
  - apply bind_Ok in Hrun. destruct Hrun as [[r1 g1] [Hpass Hrest]].
    apply group_pass_inv in Hpass.
    destruct Hpass as (target & g2 & total_chunk & _ & Hchunks & Hbuild).
    apply get_all_chunk_from in Hchunks.
    apply (IH r1) with (g := g1); [| exact Hrest].
    eapply build_instances_from; eassumption.
Qed.

Lemma group_texts_tokens_from_examples_witness :
  exists pairs : list (tokens * tokens),
    [[101; 1; 2; 102; 3; 4; 5; 6; 102]]
    = map (fun ab => build_inputs_with_special_tokens (pair_tokenizer 101 102)
                       (fst ab) (snd ab)) pairs
    /\ Forall (fun ab => incl (fst ab) (concat [[1; 2]; [3]; [4; 5; 6]])
                         /\ incl (snd ab) (concat [[1; 2]; [3]; [4; 5; 6]])) pairs.
Proof.
  assert (Hrun : group_texts (pair_tokenizer 101 102) 4 13 1 [[1; 2]; [3]; [4; 5; 6]]
                   [Script.draw_09; 0; Script.draw_09]
                 = Ok (mk_batch [[101; 1; 2; 102; 3; 4; 5; 6; 102]]
                         [[0; 0; 0; 0; 1; 1; 1; 1; 1]]
                         [[1; 1; 1; 1; 1; 1; 1; 1; 1]]
                         [[1; 0; 0; 1; 0; 0; 0; 0; 1]]
                         [SAME_ORDER]
                         [[0; 1; 1; 2; 3; 4; 4; 4; 5]], []))
    by (vm_compute; reflexivity).
  exact (@group_texts_tokens_from_examples (list Z) _ (pair_tokenizer 101 102) 4%nat 13 1
           [[1; 2]; [3]; [4; 5; 6]] _ _ _ Hrun).
Defined.

(** ** The target length *)

(** X17.  With room for two tokens the target length of a pass is drawn between 2
    and [max_num_tokens]. *)
Theorem sample_target_range {G : Type} `{PRNG G} (max_num_tokens : Z) (g : G) :
  2 <= max_num_tokens ->
  exists target g1,
    sample_target max_num_tokens g = Ok (target, g1) /\ 2 <= target <= max_num_tokens.
Proof.
  intros Hroom. unfold sample_target. destruct (random g) as [r g1].
  destruct (Qltb r short_seq_prob).
  - unfold py_randint. destruct (Z.leb_spec 2 max_num_tokens) as [Hle | Hgt]; [| lia].
    pose proof (@randint_range _ _ 2 max_num_tokens g1 Hle) as Hr.
    destruct (randint 2 max_num_tokens g1) as [target g2]. cbn [fst] in Hr.
    exists target, g2. split; [reflexivity | exact Hr].
  - exists max_num_tokens, g1. split; [reflexivity | lia].
Qed.

Lemma sample_target_range_witness :
  exists target g1,
    sample_target 10 [Script.draw_low; 7] = Ok (target, g1) /\ 2 <= target <= 10.
Proof.
  apply (@sample_target_range (list Z) _ 10 [Script.draw_low; 7]). lia.
Defined.

(** ** The files to load *)

(** X18.  Arguments without a dataset name that pass [__post_init__]: with a
    training file the builder [main] asks for is [csv], [json] or [text];
    with a validation file alone [main] raises [AttributeError] at
    [data_args.train_file.split]. *)
Theorem load_arguments_after_post_init (train_file validation_file : option String.string) :
  post_init None train_file validation_file = Ok tt ->
  match train_file with
  | Some path =>
      exists builder,
        load_arguments train_file validation_file
        = Some (builder, data_files train_file validation_file)
        /\ In builder ["csv"%string; "json"%string; "text"%string]
  | None => validation_file <> None /\ load_arguments train_file validation_file = None
  end.
Proof.
  intros Hok. destruct train_file as [path |].
  - unfold post_init in Hok. cbn [check_file] in Hok.
    apply bind_Ok in Hok. destruct Hok as [[] [Hext _]].
    unfold py_assert in Hext.
    destruct (allowed_extension (extension path)) eqn:Hallowed; [| discriminate].
    unfold allowed_extension in Hallowed. apply existsb_exists in Hallowed.
    destruct Hallowed as (ext & Hin & Heq). apply String.eqb_eq in Heq.
    unfold load_arguments. rewrite Heq.
    destruct Hin as [<- | [<- | [<- | []]]]; cbn; eexists; (split; [reflexivity |]);
      cbn; auto.
  - destruct validation_file as [path |]; [| discriminate].
    split; [discriminate | reflexivity].
Qed.

Lemma load_arguments_after_post_init_witness :
  Some "dev.txt"%string <> None
  /\ load_arguments None (Some "dev.txt"%string) = None.
Proof.
  exact (@load_arguments_after_post_init None (Some "dev.txt"%string) eq_refl).
Defined.
